(** * image-to-pdf: the PDF converter and the upload page, verified

    A shallow embedding of [src/lib/pdf-converter.ts] (class [PDFConverter],
    [rotateImage]) and of the event handlers of the page component
    ([handleFileSelect], [handleImageDrop], [rotateImageHandler]).

    JavaScript numbers are IEEE 754 binary64 values.  They are modelled by
    the executable specification of the Standard Library ([SpecFloat], at
    precision 53 and maximal exponent 1024), so every arithmetic step of the
    source rounds here exactly as it rounds in the browser.  Numbers that
    the program only ever uses as small integers (array lengths, loop
    counters, byte values, file sizes) are modelled by [Z] or [nat];
    they enter floating-point expressions through [Float64.ofZ], which is
    exact on them.  A rotation angle is an integer number of degrees, kept
    as a [Z]; the sum [rotateImage] computes is the binary64 sum. *)

From Stdlib Require Import ZArith QArith String Ascii List Bool Lia.
From Stdlib Require Import DecimalString Lqa Qpower Qabs.
From Stdlib Require Import SpecFloat Sorted.
From stdpp Require Import base list strings gmap.

Local Open Scope Z_scope.

(** ** JavaScript numbers *)

Module Float64.

Definition number := spec_float.

Definition prec : Z := 53.
Definition emax : Z := 1024.

Definition ofZ (z : Z) : number := binary_normalize prec emax z 0 false.

Definition add : number -> number -> number := SFadd prec emax.
Definition sub : number -> number -> number := SFsub prec emax.
Definition mul : number -> number -> number := SFmul prec emax.
Definition div : number -> number -> number := SFdiv prec emax.

(** [a < b], [a > b] and [a === b] on numbers: false as soon as one side
    is NaN. *)
Definition ltb (a b : number) : bool := SFltb a b.
Definition gtb (a b : number) : bool := SFltb b a.
Definition eqb (a b : number) : bool := SFeqb a b.

(** A decimal literal [n / 10^k] of the source ([215.9], [0.7], ...):
    the binary64 value nearest to it, which is what the correctly rounded
    quotient of the two exactly representable integers gives. *)
Definition decimal (n : Z) (k : nat) : number :=
  div (ofZ n) (ofZ (10 ^ Z.of_nat k)).

Definition isNaN (x : number) : bool :=
  match x with S754_nan => true | _ => false end.

(** [Math.abs]. *)
Definition Math_abs (x : number) : number := SFabs x.

(** [Math.min] and [Math.max] of two arguments (NaN is contagious). *)
Definition Math_min (a b : number) : number :=
  if isNaN a || isNaN b then S754_nan
  else if ltb b a then b else a.

Definition Math_max (a b : number) : number :=
  if isNaN a || isNaN b then S754_nan
  else if ltb a b then b else a.

(** The exact value of a finite number, as a rational. *)
Definition exact (x : number) : option Q :=
  match x with
  | S754_zero _ => Some 0%Q
  | S754_finite s m e =>
      let v := if (0 <=? e)%Z then inject_Z (Zpos m * 2 ^ e)
               else Qmake (Zpos m) (2 ^ Z.to_pos (- e)) in
      Some (if s then Qopp v else v)
  | _ => None
  end.

(** The integer a number holds: a finite number is truncated towards
    zero, which cuts nothing from an integral one; the others give 0. *)
Definition truncate (x : number) : Z :=
  match x with
  | S754_finite s m e =>
      let t := if (0 <=? e)%Z then (Zpos m * 2 ^ e)%Z
               else (Zpos m / 2 ^ (- e))%Z in
      if s then (- t)%Z else t
  | _ => 0%Z
  end.

(** [Math.ceil]. *)
Definition Math_ceil (x : number) : number :=
  match x with
  | S754_finite s m e =>
      if (0 <=? e)%Z then x
      else
        let d := (2 ^ (- e))%Z in
        let z := if s then (- (Zpos m / d))%Z
                 else (- ((- Zpos m) / d))%Z in
        binary_normalize prec emax z 0 s
  | _ => x
  end.

(** The conversion applied when a number is stored into an attribute of
    WebIDL type [unsigned long] (a canvas's [width] and [height]):
    non-finite values become 0, the others are truncated and reduced
    modulo 2^32. *)
Definition toUnsignedLong (x : number) : Z :=
  match x with
  | S754_finite s m e =>
      let t := if (0 <=? e)%Z then (Zpos m * 2 ^ e)%Z
               else (Zpos m / 2 ^ (- e))%Z in
      ((if s then - t else t) mod 2 ^ 32)%Z
  | _ => 0%Z
  end.

(** The conversion applied when a number is stored into an element of a
    [Uint8ClampedArray] (ECMAScript [ToUint8Clamp]): NaN becomes 0, the
    value is clamped to [0, 255] and rounded to the nearest integer, a tie
    going to the even neighbour. *)
Definition ToUint8Clamp (x : number) : Z :=
  match x with
  | S754_finite false m e =>
      if (0 <=? e)%Z then Z.min 255 (Zpos m * 2 ^ e)
      else
        let d := (2 ^ (- e))%Z in
        let f := (Zpos m / d)%Z in
        let r := (Zpos m mod d)%Z in
        if (255 <=? f)%Z then 255%Z
        else match (2 * r ?= d)%Z with
             | Lt => f
             | Gt => (f + 1)%Z
             | Eq => if Z.even f then f else (f + 1)%Z
             end
  | S754_infinity false => 255%Z
  | _ => 0%Z
  end.

(** [Math.PI], the binary64 value nearest to pi: 0x1.921fb54442d18p+1. *)
Definition Math_PI : number := S754_finite false 7074237752028440 (-51).

(** [Math.cos] and [Math.sin].  ECMAScript leaves their last bits to the
    implementation; they are modelled as the binary64 rounding of the
    Taylor polynomial with [trig_terms] terms, evaluated in fixed point
    with [trig_bits] fractional bits.  For arguments of magnitude up to
    2 pi (all that rotation angles produce) the error is below 2^-180,
    and the values obtained are those the engines return, for instance
    [Math.cos(Math.PI / 2) = 6.123233995736766e-17]. *)
Definition trig_terms : nat := 40.
Definition trig_bits : Z := 200.

(** The argument in fixed point, for a finite number that is not below
    the resolution. *)
Definition fixed (x : number) : option Z :=
  match x with
  | S754_finite s m e =>
      if (- trig_bits <=? e)%Z
      then Some ((if s then - Zpos m else Zpos m) * 2 ^ (e + trig_bits))%Z
      else None
  | _ => None
  end.

Fixpoint taylor (x2 : Z) (n : nat) (k : Z) (term acc : Z) : Z :=
  match n with
  | O => acc
  | S n' =>
      let term' := (- (term * x2 / 2 ^ trig_bits) / ((k + 1) * (k + 2)))%Z in
      taylor x2 n' (k + 2)%Z term' (acc + term')%Z
  end.

Definition Math_cos (x : number) : number :=
  match x with
  | S754_zero _ => ofZ 1
  | S754_finite _ _ _ =>
      match fixed x with
      | Some v =>
          let one := (2 ^ trig_bits)%Z in
          binary_normalize prec emax
            (taylor (v * v / one) trig_terms 0 one one) (- trig_bits) false
      | None => ofZ 1
      end
  | _ => S754_nan
  end.

Definition Math_sin (x : number) : number :=
  match x with
  | S754_zero _ => x
  | S754_finite _ _ _ =>
      match fixed x with
      | Some v =>
          binary_normalize prec emax
            (taylor (v * v / 2 ^ trig_bits) trig_terms 1 v v) (- trig_bits) false
      | None => x
      end
  | _ => S754_nan
  end.

(** Numbers are computed with [vm_compute] on closed terms only. *)
Arguments ofZ : simpl never.
Arguments add : simpl never.
Arguments sub : simpl never.
Arguments mul : simpl never.
Arguments div : simpl never.
Arguments ltb : simpl never.
Arguments gtb : simpl never.
Arguments eqb : simpl never.
Arguments decimal : simpl never.
Arguments Math_abs : simpl never.
Arguments Math_min : simpl never.
Arguments Math_max : simpl never.
Arguments Math_ceil : simpl never.
Arguments Math_cos : simpl never.
Arguments Math_sin : simpl never.
Arguments truncate : simpl never.
Arguments toUnsignedLong : simpl never.
Arguments ToUint8Clamp : simpl never.

End Float64.

(** ** Shared data *)

(** [{ width, height }] objects. *)
Record Dims (A : Type) := mkDims { width : A; height : A }.
Arguments mkDims {A} _ _.
Arguments width {A} _.
Arguments height {A} _.

(** The part of a DOM [File] the program reads. *)
Record File := mkFile {
  file_name : string;
  file_type : string;
  file_size : Z
}.

(** An [HTMLCanvasElement] together with its 2D context: its size and its
    pixels as [getImageData] returns them (four bytes per pixel: red,
    green, blue, alpha).  Every canvas of the program is created by
    the program and only ever asked for a 2D context, so
    [getContext('2d')] does not return null and the null guards of the
    source are not reachable. *)
Record Canvas := mkCanvas {
  canvas_width : Z;
  canvas_height : Z;
  canvas_data : list Z
}.

(** ** [src/lib/pdf-converter.ts] *)

Module Converter.

Import Float64.

Inductive PageSize := A4 | Letter | Legal.
Inductive Orientation := portrait | landscape.
Inductive Quality := low | medium | high.
Inductive Layout := one_per_page | multiple_per_page.

Record PDFSettings := mkSettings {
  pageSize : PageSize;
  orientation : Orientation;
  quality : Quality;
  layout : Layout
}.

Record ImageData := mkImageData {
  id : string;
  file : File;
  preview : string;
  name : string;
  dimensions : Dims Z;
  rotation : Z;
  brightness : Z;
  contrast : Z
}.

(** *** The jsPDF document *)

(** What [canvas.toDataURL(type, quality)] returns: the encoding of the
    canvas, kept symbolic. *)
Record DataURL := mkDataURL {
  url_type : string;
  url_source : Canvas;
  url_quality : number
}.

Inductive DrawOp :=
| DrawImage (imgData : DataURL) (format : string) (x y w h : number)
| DrawText (text : string) (x y : number) (fontSize : Z) (color : Z * Z * Z).

(** A document is its pages in order, the last one being the current one,
    and the current text state.  [new jsPDF] starts with one empty
    page. *)
Record jsPDF := mkPDF {
  pdf_orientation : Orientation;
  pdf_format : PageSize;
  pdf_pages : list (list DrawOp);
  pdf_fontSize : Z;
  pdf_textColor : Z * Z * Z
}.

(** The state the conversion runs in: the document under construction and
    the lines written to the console. *)
Record World := mkWorld {
  pdf : jsPDF;
  console : list string
}.

(** The browser and the PDF library, as far as the conversion observes
    them: which URLs decode to which image, what the rasteriser draws for
    a rotated canvas, what a canvas holds after [putImageData] stored an
    array into it (the backing store of a canvas is premultiplied by
    alpha, so the colours of a pixel that is not opaque need not come
    back as they were written), and which encoded images [addImage]
    accepts. *)
Record Browser := mkBrowser {
  decode : string -> option Canvas;
  drawRotated : Canvas -> number -> Z -> Z -> list Z;
  putImageData : list Z -> list Z;
  addImageAccepts : DataURL -> bool
}.

(** *** Asynchronous code with exceptions

    A computation either returns or throws (a rejected promise is a
    throw at the [await]); what it did to the world before throwing
    stays done. *)
Inductive Outcome (A : Type) :=
| Return (a : A)
| Throw (message : string).
Arguments Return {A} _.
Arguments Throw {A} _.

Definition Eff (A : Type) : Type := World -> Outcome A * World.

Definition ret {A} (a : A) : Eff A := fun w => (Return a, w).
Definition throw {A} (message : string) : Eff A := fun w => (Throw message, w).

Definition bind {A B} (m : Eff A) (k : A -> Eff B) : Eff B :=
  fun w =>
    match m w with
    | (Return a, w') => k a w'
    | (Throw e, w') => (Throw e, w')
    end.

Definition tryCatch {A} (m : Eff A) (handler : string -> Eff A) : Eff A :=
  fun w =>
    match m w with
    | (Return a, w') => (Return a, w')
    | (Throw e, w') => handler e w'
    end.

Definition lift {A} (o : Outcome A) : Eff A := fun w => (o, w).

Definition when (b : bool) (m : Eff unit) : Eff unit :=
  if b then m else ret tt.

Declare Scope eff_scope.
Delimit Scope eff_scope with eff.
Notation "'await' x <- m ;; k" := (bind m (fun x => k))
  (at level 10, x name, m at level 99, k at level 200) : eff_scope.
Notation "'step' m ;; k" := (bind m (fun _ => k))
  (at level 10, m at level 99, k at level 200) : eff_scope.

Definition updatePdf (f : jsPDF -> jsPDF) : Eff unit :=
  fun w => (Return tt, mkWorld (f (pdf w)) (console w)).

Definition console_error (line : string) : Eff unit :=
  fun w => (Return tt, mkWorld (pdf w) (console w ++ [line])).

(** [pdf.addPage()]. *)
Definition addPage : Eff unit :=
  updatePdf (fun d =>
    mkPDF (pdf_orientation d) (pdf_format d) (pdf_pages d ++ [[]])
          (pdf_fontSize d) (pdf_textColor d)).

(** Drawing appends to the current (last) page. *)
Definition drawOnCurrentPage (op : DrawOp) (pages : list (list DrawOp))
  : list (list DrawOp) :=
  match List.rev pages with
  | [] => [[op]]
  | p :: before => List.rev before ++ [p ++ [op]]
  end.

Definition draw (op : DrawOp) : Eff unit :=
  updatePdf (fun d =>
    mkPDF (pdf_orientation d) (pdf_format d)
          (drawOnCurrentPage op (pdf_pages d))
          (pdf_fontSize d) (pdf_textColor d)).

(** [pdf.setFontSize(n)], [pdf.setTextColor(r, g, b)], [pdf.text(...)]. *)
Definition setFontSize (n : Z) : Eff unit :=
  updatePdf (fun d =>
    mkPDF (pdf_orientation d) (pdf_format d) (pdf_pages d) n (pdf_textColor d)).

Definition setTextColor (r g b : Z) : Eff unit :=
  updatePdf (fun d =>
    mkPDF (pdf_orientation d) (pdf_format d) (pdf_pages d)
          (pdf_fontSize d) (r, g, b)).

Definition text (s : string) (x y : number) : Eff unit :=
  fun w => draw (DrawText s x y (pdf_fontSize (pdf w)) (pdf_textColor (pdf w))) w.

Definition toDataURL (canvas : Canvas) (type : string) (q : number) : DataURL :=
  mkDataURL type canvas q.

(** [pdf.addImage(imgData, format, x, y, w, h)]: throws on an encoded
    image the library does not accept. *)
Definition addImage (accepts : DataURL -> bool) (imgData : DataURL)
    (format : string) (x y w h : number) : Eff unit :=
  if accepts imgData then draw (DrawImage imgData format x y w h)
  else throw "addImage: invalid image data".

(** What [pdf.output('blob')] returns: the finished document. *)
Record Blob := mkBlob { blob_document : jsPDF }.

(** [for (let i = 0; i < items.length; i++) { const item = items[i]; ... }] *)
Fixpoint forEachIndexed {A} (body : nat -> A -> Eff unit) (i : nat)
    (items : list A) : Eff unit :=
  match items with
  | [] => ret tt
  | item :: rest =>
      (step body i item ;; forEachIndexed body (S i) rest)%eff
  end.

(** *** Pixel code *)

(** [calculateImageDimensions]. *)
Definition calculateImageDimensions
    (imgWidth imgHeight maxWidth maxHeight : number) : Dims number :=
  let aspectRatio := div imgWidth imgHeight in
  let width := maxWidth in
  let height := div width aspectRatio in
  if gtb height maxHeight then
    let height := maxHeight in
    let width := mul height aspectRatio in
    mkDims width height
  else mkDims width height.

(** Reading and writing an element of the [Uint8ClampedArray] [data]:
    reading past the end gives [undefined], which arithmetic turns into
    NaN; writing past the end does nothing. *)
Definition readByte (data : list Z) (i : nat) : number :=
  match data !! i with
  | Some b => ofZ b
  | None => S754_nan
  end.

Definition writeByte (data : list Z) (i : nat) (v : number) : list Z :=
  <[ i := ToUint8Clamp v ]> data.

(** [Math.max(0, Math.min(255, v))]. *)
Definition clamp255 (v : number) : number :=
  Math_max (ofZ 0) (Math_min (ofZ 255) v).

Definition brighten (brightnessFactor : number) (data : list Z) (i : nat)
  : list Z :=
  writeByte data i (clamp255 (mul (readByte data i) brightnessFactor)).

Definition stretch (contrastFactor : number) (data : list Z) (i : nat)
  : list Z :=
  writeByte data i
    (clamp255 (add (mul (sub (readByte data i) (ofZ 128)) contrastFactor)
                   (ofZ 128))).

(** One turn of the loop of [adjustBrightnessContrast], at pixel offset
    [i]. *)
Definition adjustPixel (brightnessFactor contrastFactor : number)
    (data : list Z) (i : nat) : list Z :=
  let data := brighten brightnessFactor data i in
  let data := brighten brightnessFactor data (i + 1) in
  let data := brighten brightnessFactor data (i + 2) in
  let data := stretch contrastFactor data i in
  let data := stretch contrastFactor data (i + 1) in
  let data := stretch contrastFactor data (i + 2) in
  data.

(** [for (let i = 0; i < data.length; i += 4) { ... }]; [fuel] bounds the
    number of turns. *)
Fixpoint adjustLoop (fuel : nat) (brightnessFactor contrastFactor : number)
    (i : nat) (data : list Z) : list Z :=
  match fuel with
  | O => data
  | S fuel' =>
      if (i <? length data)%nat then
        adjustLoop fuel' brightnessFactor contrastFactor (i + 4)
                   (adjustPixel brightnessFactor contrastFactor data i)
      else data
  end.

(** The array [adjustBrightnessContrast] hands to [putImageData]: the
    array [getImageData] returned, after the loop.  The loop advances by
    four, so [length data] turns are more than it takes. *)
Definition adjustedPixels (data : list Z) (brightness contrast : Z)
  : list Z :=
  let brightnessFactor := add (ofZ 1) (div (ofZ brightness) (ofZ 100)) in
  let contrastFactor := add (ofZ 1) (div (ofZ contrast) (ofZ 100)) in
  adjustLoop (length data) brightnessFactor contrastFactor 0 data.

(** [adjustBrightnessContrast]: [getImageData], the loop,
    [putImageData]; the canvas returned holds what the browser made of
    the array. *)
Definition adjustBrightnessContrast (env : Browser) (canvas : Canvas)
    (brightness contrast : Z) : Canvas :=
  let data := canvas_data canvas in
  let data := adjustedPixels data brightness contrast in
  mkCanvas (canvas_width canvas) (canvas_height canvas)
           (putImageData env data).

(** [rotateCanvas]: the size of the new canvas is the bounding box of the
    rotated one; what the rasteriser draws into it is the browser's. *)
Definition rotateCanvas (env : Browser) (canvas : Canvas) (degrees : Z)
  : Canvas :=
  let radians := div (mul (ofZ degrees) Math_PI) (ofZ 180) in
  let cos := Math_abs (Math_cos radians) in
  let sin := Math_abs (Math_sin radians) in
  let newWidth :=
    Math_ceil (add (mul (ofZ (canvas_width canvas)) cos)
                   (mul (ofZ (canvas_height canvas)) sin)) in
  let newHeight :=
    Math_ceil (add (mul (ofZ (canvas_width canvas)) sin)
                   (mul (ofZ (canvas_height canvas)) cos)) in
  let w := toUnsignedLong newWidth in
  let h := toUnsignedLong newHeight in
  mkCanvas w h (drawRotated env canvas radians w h).

(** [rotateImage].  The sum is the binary64 sum of the two numbers, an
    integer again; [%] on numbers is the remainder of the truncated
    division, with the sign of the dividend, and does not round. *)
Definition rotateImage (imageData : ImageData) (degrees : Z) : ImageData :=
  mkImageData (id imageData) (file imageData) (preview imageData)
    (name imageData) (dimensions imageData)
    (Z.rem (truncate (add (ofZ (rotation imageData)) (ofZ degrees))) 360)
    (brightness imageData) (contrast imageData).

(** *** The converter *)

Section PDFConverter.

Variable env : Browser.
Variable settings : PDFSettings.

Definition createPDFDocument : jsPDF :=
  mkPDF (orientation settings) (pageSize settings) [[]] 16 (0, 0, 0).

Definition getPageDimensions : Dims number :=
  match pageSize settings with
  | A4 =>
      match orientation settings with
      | portrait => mkDims (ofZ 210) (ofZ 297)
      | landscape => mkDims (ofZ 297) (ofZ 210)
      end
  | Letter =>
      match orientation settings with
      | portrait => mkDims (decimal 2159 1) (decimal 2794 1)
      | landscape => mkDims (decimal 2794 1) (decimal 2159 1)
      end
  | Legal =>
      match orientation settings with
      | portrait => mkDims (decimal 2159 1) (decimal 3556 1)
      | landscape => mkDims (decimal 3556 1) (decimal 2159 1)
      end
  end.

Definition getQualityValue : number :=
  match quality settings with
  | low => decimal 5 1
  | medium => decimal 7 1
  | high => decimal 9 1
  end.

(** [imageToCanvas]: the promise resolves with the canvas the image was
    drawn on, or rejects when the image does not load. *)
Definition imageToCanvas (imageUrl : string) : Outcome Canvas :=
  match decode env imageUrl with
  | Some canvas => Return canvas
  | None => Throw "Failed to load image"
  end.

(** [processImage]: nothing in it touches the document, so it is a
    plain outcome; the loops [await] it. *)
Definition processImage (image : ImageData) : Outcome Canvas :=
  match imageToCanvas (preview image) with
  | Return canvas =>
      let canvas :=
        if negb (rotation image =? 0)
        then rotateCanvas env canvas (rotation image)
        else canvas in
      let canvas :=
        if negb (brightness image =? 0) || negb (contrast image =? 0)
        then adjustBrightnessContrast env canvas
               (brightness image) (contrast image)
        else canvas in
      Return canvas
  | Throw e => Throw e
  end.

Definition logFailure (image : ImageData) (error : string) : Eff unit :=
  console_error ("Error processing image " ++ name image ++ ": " ++ error).

(** [convertOnePerPage]: the body of the loop, then the loop. *)
Definition onePerPageStep (pageDimensions : Dims number)
    (margin maxWidth maxHeight : number) (i : nat) (image : ImageData)
  : Eff unit :=
  tryCatch
    (await canvas <- lift (processImage image) ;;
     let d := calculateImageDimensions
                (ofZ (canvas_width canvas)) (ofZ (canvas_height canvas))
                maxWidth maxHeight in
     step when (0 <? i)%nat addPage ;;
     let x := add margin (div (sub maxWidth (width d)) (ofZ 2)) in
     let y := add margin (div (sub maxHeight (height d)) (ofZ 2)) in
     let imgData := toDataURL canvas "image/jpeg" getQualityValue in
     step addImage (addImageAccepts env) imgData "JPEG" x y
                   (width d) (height d) ;;
     let captionY := add (add y (height d)) (ofZ 10) in
     when (ltb captionY (sub (height pageDimensions) margin))
       (step setFontSize 10 ;;
        step setTextColor 100 100 100 ;;
        text (name image) x captionY))%eff
    (logFailure image).

Definition convertOnePerPage (images : list ImageData) : Eff unit :=
  let pageDimensions := getPageDimensions in
  let margin := ofZ 20 in
  let maxWidth := sub (width pageDimensions) (mul margin (ofZ 2)) in
  let maxHeight := sub (height pageDimensions) (mul margin (ofZ 2)) in
  forEachIndexed (onePerPageStep pageDimensions margin maxWidth maxHeight)
                 0%nat images.

(** [convertMultiplePerPage].  The [try] block of one turn: it returns
    the new value of [imagesOnCurrentPage]. *)
Definition placeInGrid (pageDimensions : Dims number)
    (margin imageWidth imageHeight : number) (cols rows : Z)
    (imagesOnCurrentPage : Z) (image : ImageData) : Eff Z :=
  (await canvas <- lift (processImage image) ;;
   let col := Z.rem imagesOnCurrentPage cols in
   let row := imagesOnCurrentPage / rows in
   let x := add margin (mul (ofZ col) (add imageWidth margin)) in
   let y := add margin (mul (ofZ row) (add imageHeight margin)) in
   let imgData := toDataURL canvas "image/jpeg" getQualityValue in
   step addImage (addImageAccepts env) imgData "JPEG" x y
                 imageWidth imageHeight ;;
   let captionY := add (add y imageHeight) (ofZ 5) in
   step when (ltb captionY (sub (height pageDimensions) margin))
          (step setFontSize 8 ;;
           step setTextColor 100 100 100 ;;
           text (name image) x captionY) ;;
   let imagesOnCurrentPage := imagesOnCurrentPage + 1 in
   ret (if cols * rows <=? imagesOnCurrentPage then 0
        else imagesOnCurrentPage))%eff.

(** One turn of the loop: it returns the new values of the two local
    counters, [currentPage] and [imagesOnCurrentPage]. *)
Definition multiplePerPageTurn (pageDimensions : Dims number)
    (margin imageWidth imageHeight : number) (cols rows : Z)
    (i : nat) (image : ImageData)
    (currentPage imagesOnCurrentPage : Z) : Eff (Z * Z) :=
  (await currentPage <-
     (if imagesOnCurrentPage =? 0
      then (step when (0 <? i)%nat addPage ;; ret (currentPage + 1))
      else ret currentPage) ;;
   await imagesOnCurrentPage <-
     tryCatch
       (placeInGrid pageDimensions margin imageWidth imageHeight
                    cols rows imagesOnCurrentPage image)
       (fun error =>
          step logFailure image error ;; ret imagesOnCurrentPage) ;;
   ret (currentPage, imagesOnCurrentPage))%eff.

Fixpoint multiplePerPageLoop (pageDimensions : Dims number)
    (margin imageWidth imageHeight : number) (cols rows : Z)
    (i : nat) (images : list ImageData)
    (currentPage imagesOnCurrentPage : Z) : Eff unit :=
  match images with
  | [] => ret tt
  | image :: rest =>
      (await counters <-
         multiplePerPageTurn pageDimensions margin imageWidth imageHeight
                             cols rows i image
                             currentPage imagesOnCurrentPage ;;
       multiplePerPageLoop pageDimensions margin imageWidth imageHeight
                           cols rows (S i) rest
                           (fst counters) (snd counters))%eff
  end.

Definition convertMultiplePerPage (images : list ImageData) : Eff unit :=
  let pageDimensions := getPageDimensions in
  let margin := ofZ 15 in
  let maxWidth := sub (width pageDimensions) (mul margin (ofZ 2)) in
  let maxHeight := sub (height pageDimensions) (mul margin (ofZ 2)) in
  let cols := 2 in
  let rows := 2 in
  let imageWidth :=
    div (sub maxWidth (mul margin (sub (ofZ cols) (ofZ 1)))) (ofZ cols) in
  let imageHeight :=
    div (sub maxHeight (mul margin (sub (ofZ rows) (ofZ 1)))) (ofZ rows) in
  multiplePerPageLoop pageDimensions margin imageWidth imageHeight
                      cols rows 0%nat images 0 0.

(** [convertToPDF], run with the console as it stands: the outcome of
    the promise and the console afterwards. *)
Definition convertToPDF (images : list ImageData) (log : list string)
  : Outcome Blob * list string :=
  if (length images =? 0)%nat then
    (Throw "No images provided for conversion", log)
  else
    let doc := createPDFDocument in
    let run :=
      match layout settings with
      | one_per_page => convertOnePerPage images
      | multiple_per_page => convertMultiplePerPage images
      end in
    match run (mkWorld doc log) with
    | (Return _, w) => (Return (mkBlob (pdf w)), console w)
    | (Throw e, w) => (Throw e, console w)
    end.

End PDFConverter.

Arguments getPageDimensions : simpl never.
Arguments getQualityValue : simpl never.
Arguments calculateImageDimensions : simpl never.
Arguments processImage : simpl never.

(** [convertImagesToPDF]. *)
Definition convertImagesToPDF (env : Browser) (images : list ImageData)
    (settings : PDFSettings) (log : list string)
  : Outcome Blob * list string :=
  convertToPDF env settings images log.

End Converter.

(** ** The page component ([ImageToPDFConverter]) *)

Module Page.

Inductive SortOption := by_name | by_size | by_date | by_dimensions | custom.

Record ImageFile := mkImageFile {
  id : string;
  file : File;
  preview : string;
  name : string;
  size : Z;
  dimensions : Dims Z;
  uploadTime : Z;
  rotation : Z;
  brightness : Z;
  contrast : Z;
  order : Z
}.

(** The React state the three handlers read and write.  Events are
    handled one at a time and the component is rendered again in between,
    so the [images] a handler closes over is the list of the current
    state. *)
Record State := mkState {
  images : list ImageFile;
  sortBy : SortOption;
  error : option string;
  success : option string;
  draggedImage : option string;
  dragOverImage : option string
}.

(** What the handlers take from the platform: the identifier drawn by
    [Math.random] and the clock read by [new Date()] for the file at a
    given index of the batch, and [URL.createObjectURL]. *)
Record Platform := mkPlatform {
  randomId : nat -> string;
  createObjectURL : File -> string;
  now : nat -> Z
}.

Definition setImages (f : list ImageFile -> list ImageFile) (st : State)
  : State :=
  mkState (f (images st)) (sortBy st) (error st) (success st)
          (draggedImage st) (dragOverImage st).

Definition setSortBy (v : SortOption) (st : State) : State :=
  mkState (images st) v (error st) (success st)
          (draggedImage st) (dragOverImage st).

Definition setError (v : option string) (st : State) : State :=
  mkState (images st) (sortBy st) v (success st)
          (draggedImage st) (dragOverImage st).

Definition setSuccess (v : option string) (st : State) : State :=
  mkState (images st) (sortBy st) (error st) v
          (draggedImage st) (dragOverImage st).

Definition setDraggedImage (v : option string) (st : State) : State :=
  mkState (images st) (sortBy st) (error st) (success st)
          v (dragOverImage st).

Definition setDragOverImage (v : option string) (st : State) : State :=
  mkState (images st) (sortBy st) (error st) (success st)
          (draggedImage st) v.

(** *** [handleFileSelect] *)

(** The callback of [Array.from(files).filter]: [None] keeps the file,
    [Some message] drops it and sets the error. *)
Definition rejectFile (file : File) : option string :=
  if negb (String.prefix "image/" (file_type file)) then
    Some ("File " ++ file_name file ++ " is not a valid image")%string
  else if 10 * 1024 * 1024 <? file_size file then
    Some ("File " ++ file_name file ++ " exceeds 10MB limit")%string
  else None.

(** The filter, threading the error message its callback sets. *)
Fixpoint filterFiles (files : list File) (error : option string)
  : list File * option string :=
  match files with
  | [] => ([], error)
  | file :: rest =>
      match rejectFile file with
      | Some message => filterFiles rest (Some message)
      | None =>
          let (validFiles, error) := filterFiles rest error in
          (file :: validFiles, error)
      end
  end.

Definition decimalOfNat (n : nat) : string :=
  DecimalString.NilZero.string_of_uint (Nat.to_uint n).

Definition handleFileSelect (env : Platform) (files : option (list File))
    (st : State) : State :=
  match files with
  | None => st
  | Some files =>
      let st := setError None st in
      let st := setSuccess None st in
      if (50 <? length (images st) + length files)%nat then
        setError (Some "Maximum 50 images allowed per session"%string) st
      else
        let (validFiles, error) := filterFiles files (error st) in
        let st := setError error st in
        if (length validFiles =? 0)%nat then st
        else
          let newImages :=
            imap (fun index file =>
                    mkImageFile (randomId env index) file
                      (createObjectURL env file) (file_name file)
                      (file_size file) (mkDims 0 0) (now env index)
                      0 0 0
                      (Z.of_nat (length (images st) + index)))
                 validFiles in
          let st := setImages (fun prev => prev ++ newImages) st in
          setSuccess
            (Some ("Successfully uploaded "
                   ++ decimalOfNat (length validFiles) ++ " image"
                   ++ (if (length validFiles =? 1)%nat then "" else "s"))%string)
            st
  end.

(** *** [handleImageDrop] *)

Definition hasId (wanted : string) (img : ImageFile) : bool :=
  String.eqb (id img) wanted.

(** [Array.prototype.find] and [findIndex] (-1 when nothing matches). *)
Definition find {A} (p : A -> bool) (l : list A) : option A := List.find p l.

Fixpoint findIndexFrom {A} (p : A -> bool) (l : list A) (i : Z) : Z :=
  match l with
  | [] => -1
  | a :: rest => if p a then i else findIndexFrom p rest (i + 1)
  end.

Definition findIndex {A} (p : A -> bool) (l : list A) : Z :=
  findIndexFrom p l 0.

(** [l.splice(start, deleteCount, ...items)], as the array it leaves. *)
Definition splice {A} (l : list A) (start deleteCount : Z) (items : list A)
  : list A :=
  let len := Z.of_nat (length l) in
  let actualStart :=
    if start <? 0 then Z.max (len + start) 0 else Z.min start len in
  let actualDeleteCount := Z.min (Z.max deleteCount 0) (len - actualStart) in
  take (Z.to_nat actualStart) l ++ items
    ++ drop (Z.to_nat (actualStart + actualDeleteCount)) l.

Definition setOrder (index : nat) (img : ImageFile) : ImageFile :=
  mkImageFile (id img) (file img) (preview img) (name img) (size img)
    (dimensions img) (uploadTime img) (rotation img) (brightness img)
    (contrast img) (Z.of_nat index).

(** The updater passed to [setImages].  The source writes the new [order]
    into the image objects themselves, which the previous list shares; the
    list returned is what the state holds afterwards. *)
Definition reorder (draggedImage targetImageId : string)
    (prev : list ImageFile) : list ImageFile :=
  match find (hasId draggedImage) prev, find (hasId targetImageId) prev with
  | Some draggedImg, Some targetImg =>
      let newImages := prev in
      let draggedIndex := findIndex (hasId draggedImage) newImages in
      let targetIndex := findIndex (hasId targetImageId) newImages in
      let newImages := splice newImages draggedIndex 1 [] in
      let newImages := splice newImages targetIndex 0 [draggedImg] in
      imap setOrder newImages
  | _, _ => prev
  end.

Definition handleImageDrop (targetImageId : string) (st : State) : State :=
  match draggedImage st with
  | Some dragged =>
      if String.eqb dragged "" || String.eqb dragged targetImageId then
        setDragOverImage None (setDraggedImage None st)
      else
        let st := setImages (reorder dragged targetImageId) st in
        let st := setDraggedImage None st in
        let st := setDragOverImage None st in
        setSortBy custom st
  | None => setDragOverImage None (setDraggedImage None st)
  end.

(** *** [rotateImageHandler] *)

Definition setRotation (v : Z) (img : ImageFile) : ImageFile :=
  mkImageFile (id img) (file img) (preview img) (name img) (size img)
    (dimensions img) (uploadTime img) v (brightness img)
    (contrast img) (order img).

Definition rotateImageHandler (wanted : string) (degrees : Z) (st : State)
  : State :=
  setImages
    (fun prev =>
       List.map (fun img =>
              if String.eqb (id img) wanted
              then setRotation (Z.rem (rotation img + degrees) 360) img
              else img) prev)
    st.

End Page.

(** ** Vocabulary of the statements *)

Module Spec.

Import Float64 Converter.

(** *** Brightness and contrast *)

(** [1 + percent / 100], the factor of a brightness or contrast setting. *)
Definition factor (percent : Z) : number :=
  add (ofZ 1) (div (ofZ percent) (ofZ 100)).

(** What the loop of [adjustBrightnessContrast] does to one colour byte:
    the brightness step and the contrast step, each followed by the
    rounding store into the byte array. *)
Definition adjustByte (brightness contrast : Z) (c : Z) : Z :=
  let c := ToUint8Clamp (clamp255 (mul (ofZ c) (factor brightness))) in
  ToUint8Clamp
    (clamp255 (add (mul (sub (ofZ c) (ofZ 128)) (factor contrast)) (ofZ 128))).

(** The byte at offset [i] of the array: alpha bytes (every fourth) are
    kept, colour bytes are adjusted. *)
Definition adjustAt (brightness contrast : Z) (i : nat) (c : Z) : Z :=
  if (i mod 4 =? 3)%nat then c else adjustByte brightness contrast c.

(** The pixel that holds offset [i] of the array is opaque: its alpha
    byte, at offset [i - i mod 4 + 3], is 255. *)
Definition opaque (data : list Z) (i : nat) : Prop :=
  data !! (i - i mod 4 + 3)%nat = Some 255.

(** A browser whose canvases give back an opaque pixel as it was put.
    Nothing is asked of the pixels that are not opaque: they are stored
    premultiplied by alpha, and their colours come back rounded (all 0
    for alpha 0). *)
Definition keepsOpaquePixels (env : Browser) : Prop :=
  forall (data : list Z) (i : nat),
    opaque data i -> putImageData env data !! i = data !! i.



(** *** Documents *)

Definition isImage (op : DrawOp) : bool :=
  match op with DrawImage _ _ _ _ _ _ => true | DrawText _ _ _ _ _ => false end.

(** The images drawn on a page, in drawing order. *)
Definition imagesOn (page : list DrawOp) : list DrawOp :=
  List.filter isImage page.

Definition imageData (op : DrawOp) : option DataURL :=
  match op with
  | DrawImage imgData _ _ _ _ _ => Some imgData
  | DrawText _ _ _ _ _ => None
  end.

(** The encoded images a document holds, page after page. *)
Definition placedImages (doc : jsPDF) : list DataURL :=
  omap imageData (concat (pdf_pages doc)).

(** Drawing several operations in turn. *)
Definition drawAll (ops : list DrawOp) (pages : list (list DrawOp))
  : list (list DrawOp) :=
  fold_left (fun pages op => drawOnCurrentPage op pages) ops pages.

Section Layout.

Variable env : Browser.
Variable settings : PDFSettings.

Definition encode (canvas : Canvas) : DataURL :=
  toDataURL canvas "image/jpeg" (getQualityValue settings).

(** An image is processed successfully when it rasterises and the
    document accepts its encoding; [placed] is then that encoding. *)
Definition placed (image : ImageData) : option DataURL :=
  match processImage env image with
  | Return canvas =>
      if addImageAccepts env (encode canvas) then Some (encode canvas)
      else None
  | Throw _ => None
  end.

(** The content area left by a margin on all four sides. *)
Definition contentWidth (margin : number) : number :=
  sub (width (getPageDimensions settings)) (mul margin (ofZ 2)).

Definition contentHeight (margin : number) : number :=
  sub (height (getPageDimensions settings)) (mul margin (ofZ 2)).

(** One image per page: the image scaled by [calculateImageDimensions]
    and centred in the content area of the 20 mm margins,
    [x = margin + (maxWidth - width) / 2] and
    [y = margin + (maxHeight - height) / 2]. *)
Definition fitted (canvas : Canvas) : Dims number :=
  calculateImageDimensions
    (ofZ (canvas_width canvas)) (ofZ (canvas_height canvas))
    (contentWidth (ofZ 20)) (contentHeight (ofZ 20)).

Definition centredX (canvas : Canvas) : number :=
  add (ofZ 20)
      (div (sub (contentWidth (ofZ 20)) (width (fitted canvas))) (ofZ 2)).

Definition centredY (canvas : Canvas) : number :=
  add (ofZ 20)
      (div (sub (contentHeight (ofZ 20)) (height (fitted canvas))) (ofZ 2)).

Definition centred (canvas : Canvas) : DrawOp :=
  DrawImage (encode canvas) "JPEG" (centredX canvas) (centredY canvas)
            (width (fitted canvas)) (height (fitted canvas)).

(** The caption under an image drawn at [(x, y)] with height [h], when
    there is room for it above the bottom margin. *)
Definition caption (margin gap : number) (fontSize : Z) (image : ImageData)
    (x y h : number) : list DrawOp :=
  let captionY := add (add y h) gap in
  if ltb captionY (sub (height (getPageDimensions settings)) margin)
  then [DrawText (name image) x captionY fontSize (100, 100, 100)]
  else [].

Definition onePerPageOps (image : ImageData) (canvas : Canvas)
  : list DrawOp :=
  centred canvas
  :: caption (ofZ 20) (ofZ 10) 10 image
       (centredX canvas) (centredY canvas) (height (fitted canvas)).

(** What one turn of the loop of [convertOnePerPage] does to the
    pages. *)
Definition onePerPagePages (i : nat) (image : ImageData)
    (pages : list (list DrawOp)) : list (list DrawOp) :=
  match processImage env image with
  | Return canvas =>
      let pages := if (0 <? i)%nat then pages ++ [[]] else pages in
      if addImageAccepts env (encode canvas)
      then drawAll (onePerPageOps image canvas) pages
      else pages
  | Throw _ => pages
  end.

Fixpoint onePerPageRun (i : nat) (images : list ImageData)
    (pages : list (list DrawOp)) : list (list DrawOp) :=
  match images with
  | [] => pages
  | image :: rest => onePerPageRun (S i) rest (onePerPagePages i image pages)
  end.

(** Four per page: the cell of the 2 x 2 grid at a column and a row,
    with the 15 mm margin around and between the cells. *)
Definition cellWidth : number :=
  div (sub (contentWidth (ofZ 15)) (ofZ 15)) (ofZ 2).

Definition cellHeight : number :=
  div (sub (contentHeight (ofZ 15)) (ofZ 15)) (ofZ 2).

Definition cellX (col : Z) : number :=
  add (ofZ 15) (mul (ofZ col) (add cellWidth (ofZ 15))).

Definition cellY (row : Z) : number :=
  add (ofZ 15) (mul (ofZ row) (add cellHeight (ofZ 15))).

Definition inCell (canvas : Canvas) (col row : Z) : DrawOp :=
  DrawImage (encode canvas) "JPEG" (cellX col) (cellY row)
            cellWidth cellHeight.

Definition gridOps (slot : Z) (image : ImageData) (canvas : Canvas)
  : list DrawOp :=
  inCell canvas (Z.rem slot 2) (slot / 2)
  :: caption (ofZ 15) (ofZ 5) 8 image
       (cellX (Z.rem slot 2)) (cellY (slot / 2)) cellHeight.

(** What one turn of the loop of [convertMultiplePerPage] does to the
    pages and to [imagesOnCurrentPage]. *)
Definition gridStep (i : nat) (image : ImageData)
    (s : list (list DrawOp) * Z) : list (list DrawOp) * Z :=
  let pages :=
    if snd s =? 0
    then (if (0 <? i)%nat then fst s ++ [[]] else fst s)
    else fst s in
  match processImage env image with
  | Return canvas =>
      if addImageAccepts env (encode canvas)
      then (drawAll (gridOps (snd s) image canvas) pages,
            if 4 <=? snd s + 1 then 0 else snd s + 1)
      else (pages, snd s)
  | Throw _ => (pages, snd s)
  end.

Fixpoint gridRun (i : nat) (images : list ImageData)
    (s : list (list DrawOp) * Z) : list (list DrawOp) * Z :=
  match images with
  | [] => s
  | image :: rest => gridRun (S i) rest (gridStep i image s)
  end.

(** The document [convertToPDF] resolves with, for a list that is not
    empty. *)
Definition converted (images : list ImageData) : list (list DrawOp) :=
  match layout settings with
  | one_per_page => onePerPageRun 0 images [[]]
  | multiple_per_page => fst (gridRun 0 images ([[]], 0))
  end.

(** What an image that processes successfully leaves on its page, one
    per page. *)
Definition pageOf (image : ImageData) : list DrawOp :=
  match processImage env image with
  | Return canvas => onePerPageOps image canvas
  | Throw _ => []
  end.

End Layout.

End Spec.

(** ** Vocabulary of the statements about numbers *)

Module NumberSpec.

Import Float64.

(** The unit roundoff of binary64, [2^-53]. *)
Definition u : Q := 1 # (2 ^ 53).

(** The value [m * 2^e] of a positive finite number. *)
Definition value (m : positive) (e : Z) : Q := inject_Z (Zpos m) * 2 ^ e.

(** A positive normal number of moderate size: a full mantissa of 53
    bits and an exponent from -300 to 196, that is a value from 2^-248
    up to, not including, 2^249. *)
Definition moderate (x : number) : bool :=
  match x with
  | S754_finite false m e =>
      (Zpos (digits2_pos m) =? 53) && (-300 <=? e) && (e <=? 196)
  | _ => false
  end.

(** [z] is the positive normal number nearest to the rational [t], with
    its exponent between [lo] and [hi]: it is within the relative error
    [u] of [t], and no number of the format lies between [t] and [z]
    above [t]. *)
Definition rounded (t : Q) (z : number) (lo hi : Z) : Prop :=
  exists (m : positive) (e : Z),
    z = S754_finite false m e /\
    Zpos (digits2_pos m) = 53 /\
    lo <= e <= hi /\
    ((1 - u) * t <= value m e /\ value m e <= (1 + u) * t)%Q /\
    forall (mw : positive) (ew : Z),
      Zpos (digits2_pos mw) = 53 ->
      (t <= value mw ew)%Q -> (value m e <= value mw ew)%Q.

(** The rational [N / T] lies between the integer [shr_m mrs] and the
    next one, at the place the two flags of the record say: on the
    integer, below the middle, on the middle, or above it. *)
Definition inbetween (N T : Z) (mrs : shr_record) : Prop :=
  shr_m mrs * T <= N < (shr_m mrs + 1) * T /\
  match shr_r mrs, shr_s mrs with
  | false, false => N = shr_m mrs * T
  | false, true => shr_m mrs * T < N /\ 2 * N < (2 * shr_m mrs + 1) * T
  | true, false => 2 * N = (2 * shr_m mrs + 1) * T
  | true, true => (2 * shr_m mrs + 1) * T < 2 * N
  end.

End NumberSpec.

(** ** Vocabulary of the statements about the page *)

Module PageSpec.

Import Page.

(** The limits of the upload validation. *)
Definition validImage (img : ImageFile) : Prop :=
  String.prefix "image/" (file_type (file img)) = true /\
  size img <= 10 * 1024 * 1024.

Definition sessionInvariant (l : list ImageFile) : Prop :=
  Forall validImage l /\ (length l <= 50)%nat.

(** An image without its position: two entries are the same image when
    they differ at most in their [order] field. *)
Definition unordered (img : ImageFile) : ImageFile := setOrder 0 img.

End PageSpec.

(** ** [src/lib/pdf-converter.ts]: the editing utilities *)

Module Editing.

Import Converter.

(** [Math.max(-100, Math.min(100, v))] on an integer setting. *)
Definition clampPercent (v : Z) : Z := Z.max (-100) (Z.min 100 v).

(** [adjustBrightness] and [adjustContrast]. *)
Definition adjustBrightness (imageData : ImageData) (brightness : Z)
  : ImageData :=
  mkImageData (id imageData) (file imageData) (preview imageData)
    (name imageData) (dimensions imageData) (rotation imageData)
    (clampPercent brightness) (contrast imageData).

Definition adjustContrast (imageData : ImageData) (contrast : Z)
  : ImageData :=
  mkImageData (id imageData) (file imageData) (preview imageData)
    (name imageData) (dimensions imageData) (rotation imageData)
    (brightness imageData) (clampPercent contrast).

End Editing.

(** ** The page component: the remaining handlers *)

Module App.

Import Page.

Inductive SortOrder := asc | desc.

(** What these handlers take from the host: the collation of
    [String.prototype.localeCompare], the date and the time of day as
    [generateCustomFilename] formats them, and the object URL
    [URL.createObjectURL] gives a blob. *)
Record Host := mkHost {
  localeCompare : string -> string -> Z;
  today : string;
  clock : string;
  blobURL : Converter.Blob -> string
}.

(** The state of the component: the part the upload, drop and rotation
    handlers use, the other pieces of React state, and the effects the
    handlers have outside it (object URLs revoked, console lines, files
    offered for download). *)
Record Session := mkSession {
  state : State;
  sortOrder : SortOrder;
  selectedImages : gset string;
  editingImage : option string;
  isConverting : bool;
  settings : Converter.PDFSettings;
  customFilename : string;
  revoked : list string;
  console : list string;
  downloads : list (string * Converter.Blob)
}.

Definition withState (f : State -> State) (s : Session) : Session :=
  mkSession (f (state s)) (sortOrder s) (selectedImages s) (editingImage s)
    (isConverting s) (settings s) (customFilename s) (revoked s) (console s)
    (downloads s).

Definition setSelectedImages (v : gset string) (s : Session) : Session :=
  mkSession (state s) (sortOrder s) v (editingImage s)
    (isConverting s) (settings s) (customFilename s) (revoked s) (console s)
    (downloads s).

Definition setEditingImage (v : option string) (s : Session) : Session :=
  mkSession (state s) (sortOrder s) (selectedImages s) v
    (isConverting s) (settings s) (customFilename s) (revoked s) (console s)
    (downloads s).

Definition setIsConverting (v : bool) (s : Session) : Session :=
  mkSession (state s) (sortOrder s) (selectedImages s) (editingImage s)
    v (settings s) (customFilename s) (revoked s) (console s)
    (downloads s).

Definition revokeObjectURLs (urls : list string) (s : Session) : Session :=
  mkSession (state s) (sortOrder s) (selectedImages s) (editingImage s)
    (isConverting s) (settings s) (customFilename s) (revoked s ++ urls)
    (console s) (downloads s).

Definition setConsole (v : list string) (s : Session) : Session :=
  mkSession (state s) (sortOrder s) (selectedImages s) (editingImage s)
    (isConverting s) (settings s) (customFilename s) (revoked s) v
    (downloads s).

Definition download (filename : string) (blob : Converter.Blob) (s : Session)
  : Session :=
  mkSession (state s) (sortOrder s) (selectedImages s) (editingImage s)
    (isConverting s) (settings s) (customFilename s) (revoked s) (console s)
    (downloads s ++ [(filename, blob)]).

(** *** Removing images *)

Definition removeImage (wanted : string) (s : Session) : Session :=
  let urls :=
    match find (hasId wanted) (images (state s)) with
    | Some image => [preview image]
    | None => []
    end in
  let s := revokeObjectURLs urls s in
  let s := withState
             (setImages (List.filter (fun img => negb (hasId wanted img)))) s in
  let s := setSelectedImages (selectedImages s ∖ {[ wanted ]}) s in
  let s := withState (setError None) s in
  let s := withState (setSuccess None) s in
  setEditingImage None s.

Definition toggleImageSelection (wanted : string) (s : Session) : Session :=
  setSelectedImages
    (if bool_decide (wanted ∈ selectedImages s)
     then selectedImages s ∖ {[ wanted ]}
     else selectedImages s ∪ {[ wanted ]})
    s.

Definition isSelected (s : Session) (img : ImageFile) : bool :=
  bool_decide (id img ∈ selectedImages s).

Definition removeSelectedImages (s : Session) : Session :=
  let toRemove := List.filter (isSelected s) (images (state s)) in
  let kept := List.filter (fun img => negb (isSelected s img)) in
  let s' := revokeObjectURLs (List.map preview toRemove) s in
  let s' := withState (setImages kept) s' in
  let s' := setSelectedImages ∅ s' in
  let s' := withState (setError None) s' in
  let s' := withState (setSuccess None) s' in
  setEditingImage None s'.

(** *** Dragging *)

Definition handleImageDragStart (imageId : string) (s : Session) : Session :=
  withState (setDraggedImage (Some imageId)) s.

Definition handleImageDragOver (imageId : string) (s : Session) : Session :=
  match draggedImage (state s) with
  | Some dragged =>
      if negb (String.eqb dragged "") && negb (String.eqb dragged imageId)
      then withState (setDragOverImage (Some imageId)) s
      else s
  | None => s
  end.

Definition handleImageDragLeave (s : Session) : Session :=
  withState (setDragOverImage None) s.

(** *** Editing *)

Definition setBrightness (v : Z) (img : ImageFile) : ImageFile :=
  mkImageFile (id img) (file img) (preview img) (name img) (size img)
    (dimensions img) (uploadTime img) (rotation img) v
    (contrast img) (order img).

Definition setContrast (v : Z) (img : ImageFile) : ImageFile :=
  mkImageFile (id img) (file img) (preview img) (name img) (size img)
    (dimensions img) (uploadTime img) (rotation img) (brightness img)
    v (order img).

Definition adjustBrightnessHandler (wanted : string) (brightness : Z)
    (s : Session) : Session :=
  withState
    (setImages
       (List.map (fun img =>
                    if String.eqb (id img) wanted
                    then setBrightness (Editing.clampPercent brightness) img
                    else img)))
    s.

Definition adjustContrastHandler (wanted : string) (contrast : Z)
    (s : Session) : Session :=
  withState
    (setImages
       (List.map (fun img =>
                    if String.eqb (id img) wanted
                    then setContrast (Editing.clampPercent contrast) img
                    else img)))
    s.

Definition toggleEditing (wanted : string) (s : Session) : Session :=
  setEditingImage
    (match editingImage s with
     | Some current => if String.eqb current wanted then None else Some wanted
     | None => Some wanted
     end)
    s.

(** The [onClick] of the Reset All button of an image, as rendered for
    [image]: the three handlers in turn, with the arguments computed from
    the rendered image. *)
Definition resetAll (image : ImageFile) (s : Session) : Session :=
  let s := withState (rotateImageHandler (id image) (- rotation image)) s in
  let s := adjustBrightnessHandler (id image) (- brightness image) s in
  adjustContrastHandler (id image) (- contrast image) s.

(** *** The callbacks of the image loader started by [handleFileSelect] *)

Definition setDimensions (v : Dims Z) (img : ImageFile) : ImageFile :=
  mkImageFile (id img) (file img) (preview img) (name img) (size img)
    v (uploadTime img) (rotation img) (brightness img)
    (contrast img) (order img).

Definition imageLoaded (wanted : string) (w h : Z) (s : Session) : Session :=
  withState
    (setImages
       (List.map (fun p =>
                    if String.eqb (id p) wanted
                    then setDimensions (mkDims w h) p
                    else p)))
    s.

Definition imageFailed (imageName : string) (s : Session) : Session :=
  withState (setError (Some ("Failed to load image " ++ imageName)%string)) s.

(** *** Sorting *)

(** [Array.prototype.sort] with a comparator.  The sort is stable; it is
    modelled as the insertion sort that puts [a] before [b] unless the
    comparator says [b] comes first (a positive result).  For a comparator
    that is a consistent order this is the array every engine returns. *)
Fixpoint insertSorted {A} (compare : A -> A -> Z) (a : A) (l : list A)
  : list A :=
  match l with
  | [] => [a]
  | b :: rest =>
      if 0 <? compare a b then b :: insertSorted compare a rest
      else a :: b :: rest
  end.

Definition Array_sort {A} (compare : A -> A -> Z) (l : list A) : list A :=
  foldr (insertSorted compare) [] l.

Definition area (img : ImageFile) : Z :=
  width (dimensions img) * height (dimensions img).

Definition comparison (host : Host) (key : SortOption) (a b : ImageFile) : Z :=
  match key with
  | by_name => localeCompare host (name a) (name b)
  | by_size => size a - size b
  | by_date => uploadTime a - uploadTime b
  | by_dimensions => area a - area b
  | custom => 0
  end.

Definition sortedImages (host : Host) (s : Session) : list ImageFile :=
  match sortBy (state s) with
  | custom =>
      Array_sort (fun a b => order a - order b) (images (state s))
  | key =>
      Array_sort
        (fun a b =>
           match sortOrder s with
           | asc => comparison host key a b
           | desc => - comparison host key a b
           end)
        (images (state s))
  end.

(** *** Converting *)

(** [s.replace(pattern, replacement)] with a string pattern: the first
    occurrence only.  The replacements used here hold no [$]. *)
Definition replace (pattern replacement s : string) : string :=
  match String.index 0 pattern s with
  | Some i =>
      (String.substring 0 i s ++ replacement
       ++ String.substring (i + String.length pattern)
            (String.length s - (i + String.length pattern)) s)%string
  | None => s
  end.

(** [generateCustomFilename], a callback made anew whenever
    [preferences.customFilename] or [images.length] changes: what it
    returns for the template and the count it was made with. *)
Definition generateCustomFilename (host : Host) (customFilename : string)
    (imagesLength : nat) : string :=
  replace "{count}" (decimalOfNat imagesLength)
    (replace "{time}" (clock host)
       (replace "{date}" (today host) customFilename)).

Definition toImageData (img : ImageFile) : Converter.ImageData :=
  Converter.mkImageData (id img) (file img) (preview img) (name img)
    (dimensions img) (rotation img) (brightness img) (contrast img).

(** The [convertToPDF] of the page.  It is a [useCallback] whose
    dependencies are [images], the four settings and [sortedImages], but
    not [generateCustomFilename]: the callback keeps the
    [generateCustomFilename] of the render in which one of its
    dependencies last changed.  That one was made for the images of
    that render, which are the current ones, and for the
    [preferences.customFilename] of that render, [template]: a change of
    the preference alone does not reach this callback, so [template]
    need not be the [customFilename] of the session. *)
Definition convertToPDF (env : Converter.Browser) (host : Host)
    (template : string) (s : Session) : Session :=
  if (length (images (state s)) =? 0)%nat then s
  else
    let count := length (images (state s)) in
    let s := setIsConverting true s in
    let s := withState (setError None) s in
    let s := withState (setSuccess None) s in
    let imagesForConversion := List.map toImageData (sortedImages host s) in
    let s :=
      match Converter.convertImagesToPDF env imagesForConversion (settings s)
              (console s) with
      | (Converter.Return pdfBlob, log) =>
          let s := setConsole log s in
          let url := blobURL host pdfBlob in
          let s :=
            download (generateCustomFilename host template count ++ ".pdf")
                     pdfBlob s in
          let s := revokeObjectURLs [url] s in
          withState
            (setSuccess
               (Some ("Successfully converted " ++ decimalOfNat count
                      ++ " image" ++ (if (count =? 1)%nat then "" else "s")
                      ++ " to PDF")%string))
            s
      | (Converter.Throw message, log) =>
          let s :=
            setConsole (log ++ [("PDF conversion failed: " ++ message)%string])
                       s in
          withState
            (setError (Some ("PDF conversion failed: " ++ message)%string)) s
      end in
    setIsConverting false s.

(** *** Events *)

Inductive Event :=
| FileSelect (env : Platform) (files : option (list File))
| ImageLoaded (imageId : string) (w h : Z)
| ImageFailed (imageName : string)
| RemoveImage (imageId : string)
| ToggleImageSelection (imageId : string)
| RemoveSelectedImages
| ImageDragStart (imageId : string)
| ImageDragOver (imageId : string)
| ImageDragLeave
| ImageDrop (targetImageId : string)
| RotateImage (imageId : string) (degrees : Z)
| AdjustBrightness (imageId : string) (brightness : Z)
| AdjustContrast (imageId : string) (contrast : Z)
| ToggleEditing (imageId : string)
| ConvertToPDF (env : Converter.Browser) (host : Host) (template : string).

Definition handle (e : Event) (s : Session) : Session :=
  match e with
  | FileSelect env files => withState (handleFileSelect env files) s
  | ImageLoaded imageId w h => imageLoaded imageId w h s
  | ImageFailed imageName => imageFailed imageName s
  | RemoveImage imageId => removeImage imageId s
  | ToggleImageSelection imageId => toggleImageSelection imageId s
  | RemoveSelectedImages => removeSelectedImages s
  | ImageDragStart imageId => handleImageDragStart imageId s
  | ImageDragOver imageId => handleImageDragOver imageId s
  | ImageDragLeave => handleImageDragLeave s
  | ImageDrop targetImageId => withState (handleImageDrop targetImageId) s
  | RotateImage imageId degrees =>
      withState (rotateImageHandler imageId degrees) s
  | AdjustBrightness imageId brightness =>
      adjustBrightnessHandler imageId brightness s
  | AdjustContrast imageId contrast => adjustContrastHandler imageId contrast s
  | ToggleEditing imageId => toggleEditing imageId s
  | ConvertToPDF env host template => convertToPDF env host template s
  end.

(** The session after a sequence of events, oldest first. *)
Definition run (events : list Event) (s : Session) : Session :=
  fold_left (fun s e => handle e s) events s.

(** The component as mounted. *)
Definition initial (settings : Converter.PDFSettings) : Session :=
  mkSession (mkState [] custom None None None None) asc ∅ None false
    settings "converted-images-{date}" [] [] [].

End App.

(** ** Sample data *)

Module Samples.

Import Float64.

Definition photo : File := mkFile "a.png" "image/png" 2048.
Definition notes : File := mkFile "notes.txt" "text/plain" 12.
Definition huge : File := mkFile "big.jpg" "image/jpeg" (11 * 1024 * 1024).

Definition platform : Page.Platform :=
  Page.mkPlatform (fun index => String (ascii_of_nat (97 + index)) "")
                  (fun file => ("blob:" ++ file_name file)%string)
                  (fun index => Z.of_nat index).

Definition entry (name : string) (position rotation : Z) : Page.ImageFile :=
  Page.mkImageFile name photo ("blob:" ++ name)%string name 2048
    (mkDims 0 0) 0 rotation 0 0 position.

Definition emptySession : Page.State :=
  Page.mkState [] Page.custom None None None None.

Definition oneImage (rotation : Z) : Page.State :=
  Page.mkState [entry "a" 0 rotation] Page.custom None None None None.


Definition fresh (rotation : Z) : Converter.ImageData :=
  Converter.mkImageData "a" photo "blob:a" "a.png" (mkDims 0 0) rotation 0 0.

Definition pixel : Canvas := mkCanvas 1 1 [150; 150; 150; 255].

(** A canvas that stores its colours premultiplied by alpha, in eight
    bits: what comes back for the colour byte [c] of a pixel of alpha
    [a]. *)
Definition premultiplied (a c : Z) : Z :=
  if a =? 255 then c
  else if a =? 0 then 0
  else Z.min 255 ((((c * a + 127) / 255) * 255 + a / 2) / a).

Definition stored (data : list Z) : list Z :=
  imap (fun i c =>
          if (i mod 4 =? 3)%nat then c
          else match data !! (i - i mod 4 + 3)%nat with
               | Some a => premultiplied a c
               | None => c
               end)
       data.

Definition browser : Converter.Browser :=
  Converter.mkBrowser
    (fun url => if String.eqb url "blob:broken" then None else Some pixel)
    (fun canvas radians w h => canvas_data canvas)
    stored
    (fun imgData => true).

Definition a4 (layout : Converter.Layout) : Converter.PDFSettings :=
  Converter.mkSettings Converter.A4 Converter.portrait Converter.high layout.

Definition picture (name : string) : Converter.ImageData :=
  Converter.mkImageData name photo ("blob:" ++ name)%string name
    (mkDims 1 1) 0 0 0.

End Samples.

(** ** Vocabulary of the further properties *)

Module SpecExtras.

Import Float64 Converter Spec.

(** The 256 byte values. *)
Definition bytes : list Z := List.map Z.of_nat (List.seq 0 256).

(** The texts a document holds, page after page. *)
Definition textOf (op : DrawOp) : option string :=
  match op with
  | DrawText s _ _ _ _ => Some s
  | DrawImage _ _ _ _ _ _ => None
  end.

Definition texts (doc : jsPDF) : list string :=
  omap textOf (concat (pdf_pages doc)).

(** Whether an image rasterises. *)
Definition processes (env : Browser) (image : ImageData) : bool :=
  match processImage env image with
  | Return _ => true
  | Throw _ => false
  end.

(** The console line a failing image leaves, none for an image that is
    placed. *)
Definition failureLog (env : Browser) (settings : PDFSettings)
    (image : ImageData) : list string :=
  match processImage env image with
  | Return canvas =>
      if addImageAccepts env (encode settings canvas) then []
      else [("Error processing image " ++ name image
             ++ ": addImage: invalid image data")%string]
  | Throw e => [("Error processing image " ++ name image ++ ": " ++ e)%string]
  end.

(** An image drawn inside the margins of the page. *)
Definition withinMargins (settings : PDFSettings) (margin : number)
    (op : DrawOp) : bool :=
  match op with
  | DrawImage _ _ x y w h =>
      negb (ltb x margin) && negb (ltb y margin)
      && negb (gtb (add x w)
                   (sub (width (getPageDimensions settings)) margin))
      && negb (gtb (add y h)
                   (sub (height (getPageDimensions settings)) margin))
  | DrawText _ _ _ _ _ => true
  end.

(** The names of the images of a list whose grid slot is in the top row. *)
Definition topRowNames (first : nat) (images : list ImageData) : list string :=
  omap (fun o => o)
       (imap (fun n image =>
                if ((first + n) mod 4 <? 2)%nat then Some (name image)
                else None)
             images).

End SpecExtras.

(** ** Vocabulary of the further properties about the page *)

Module SessionSpec.

Import Page PageSpec App.

(** A file the upload filter keeps. *)
Definition accepted (f : File) : bool :=
  match rejectFile f with
  | None => true
  | Some _ => false
  end.

(** The entry [handleFileSelect] makes for the accepted file of a given
    index, after [base] images already stored. *)
Definition newImage (env : Platform) (base index : nat) (f : File)
  : ImageFile :=
  mkImageFile (randomId env index) f (createObjectURL env f) (file_name f)
    (file_size f) (mkDims 0 0) (now env index) 0 0 0
    (Z.of_nat (base + index)).

(** An image within the limits of the upload and of the editing
    controls. *)
Definition wellFormed (img : ImageFile) : Prop :=
  validImage img /\
  -100 <= brightness img <= 100 /\
  -100 <= contrast img <= 100 /\
  -360 < rotation img < 360.

(** What every handler of the page maintains. *)
Definition invariant (s : Session) : Prop :=
  Forall wellFormed (images (state s)) /\
  (length (images (state s)) <= 50)%nat.

(** The message the page shows after a conversion of [count] images. *)
Definition converted_message (count : nat) : string :=
  "Successfully converted " ++ decimalOfNat count ++ " image"
  ++ (if (count =? 1)%nat then "" else "s") ++ " to PDF".

(** The number by which [sortedImages] orders, for the numeric criteria:
    smaller comes first. *)
Definition sortKey (s : Session) (img : ImageFile) : Z :=
  match sortBy (state s) with
  | custom => order img
  | key =>
      let v := match key with
               | by_size => size img
               | by_date => uploadTime img
               | by_dimensions => area img
               | _ => 0
               end in
      match sortOrder s with
      | asc => v
      | desc => - v
      end
  end.

End SessionSpec.

Module MoreSamples.

Definition tall : Canvas := mkCanvas 1 3 [1; 2; 3; 255; 4; 5; 6; 255; 7; 8; 9; 255].

Definition gallery : Converter.Browser :=
  Converter.mkBrowser
    (fun url => if String.eqb url "blob:broken" then None else Some tall)
    (fun canvas radians w h => canvas_data canvas)
    Samples.stored
    (fun imgData => true).

Definition album : App.Session :=
  App.mkSession
    (Page.mkState [Samples.entry "a" 0 0; Samples.entry "b" 1 0;
                   Samples.entry "c" 2 0]
                  Page.custom None None None None)
    App.asc {[ "a"%string; "c"%string ]} None false
    (Samples.a4 Converter.one_per_page) "converted-images-{date}" [] [] [].

Definition host : App.Host :=
  App.mkHost (fun a b => 0) "2026-01-31" "10-15-00" (fun blob => "blob:pdf"%string).

End MoreSamples.

(** * Properties *)

(** ** Rounding in binary64

    What [SpecFloat] computes for the product and the quotient of two
    positive normal numbers, for the comparison of two such numbers and
    for sums of integers, read on exact values. *)

Module RoundingProofs.

Import Float64 NumberSpec.

Lemma digits2_pos_spec (m : positive) :
  2 ^ (Zpos (digits2_pos m) - 1) <= Zpos m < 2 ^ Zpos (digits2_pos m).
Proof.
  induction m as [p IH|p IH|]; cbn [digits2_pos].
  - rewrite Pos2Z.inj_succ.
    replace (Z.succ (Zpos (digits2_pos p)) - 1) with (Z.succ (Zpos (digits2_pos p) - 1)) by lia.
    rewrite !Z.pow_succ_r by lia. lia.
  - rewrite Pos2Z.inj_succ.
    replace (Z.succ (Zpos (digits2_pos p)) - 1) with (Z.succ (Zpos (digits2_pos p) - 1)) by lia.
    rewrite !Z.pow_succ_r by lia. lia.
  - simpl. lia.
Qed.

Lemma digits2_pos_unique (m : positive) (k : Z) :
  2 ^ (k - 1) <= Zpos m < 2 ^ k -> Zpos (digits2_pos m) = k.
Proof.
  intros [Hlo Hhi]. pose proof (digits2_pos_spec m) as [Hlo' Hhi'].
  assert (Hk : 0 < k).
  { destruct (Z.ltb_spec 0 k); [assumption|].
    assert (2 ^ k <= 1).
    { destruct (Z.eq_dec k 0) as [->|]; [simpl; lia|].
      rewrite Z.pow_neg_r by lia. lia. }
    lia. }
  set (d := Zpos (digits2_pos m)) in *.
  destruct (Z.lt_trichotomy d k) as [Hlt|[Heq|Hgt]]; [|exact Heq|].
  - assert (2 ^ d <= 2 ^ (k - 1)) by (apply Z.pow_le_mono_r; lia). lia.
  - assert (2 ^ k <= 2 ^ (d - 1)) by (apply Z.pow_le_mono_r; lia). lia.
Qed.

Lemma shr_1_inbetween (N T : Z) (mrs : shr_record) :
  0 < T -> 0 <= shr_m mrs ->
  inbetween N T mrs ->
  inbetween N (2 * T) (shr_1 mrs) /\ shr_m (shr_1 mrs) = shr_m mrs / 2.
Proof.
  intros HT Hm. destruct mrs as [m r s]. unfold inbetween.
  cbn [shr_m shr_r shr_s] in *. intros [Hb Hl].
  destruct m as [|[p|p|]|p]; try lia; cbn [shr_1 shr_m shr_r shr_s].
  - (* 0 *)
    split; [|reflexivity].
    destruct r, s; cbn [orb]; nia.
  - (* 2p+1 *)
    assert (E : Zpos p~1 = 2 * Zpos p + 1) by lia.
    rewrite E in *.
    split; [| rewrite Z.add_comm, Z.mul_comm, Z.div_add by lia; reflexivity].
    destruct r, s; cbn [orb]; nia.
  - assert (E : Zpos p~0 = 2 * Zpos p) by lia.
    rewrite E in *.
    split; [| rewrite Z.mul_comm, Z.div_mul by lia; reflexivity].
    destruct r, s; cbn [orb]; nia.
  - split; [|reflexivity].
    destruct r, s; cbn [orb]; nia.
Qed.

Lemma iter_pos_shr_1 (p : positive) :
  forall (N T : Z) (mrs : shr_record),
  0 < T -> 0 <= shr_m mrs ->
  inbetween N T mrs ->
  inbetween N (T * 2 ^ Zpos p) (SpecFloat.iter_pos shr_1 p mrs) /\
  shr_m (SpecFloat.iter_pos shr_1 p mrs) = shr_m mrs / 2 ^ Zpos p.
Proof.
  induction p as [p IH|p IH|]; intros N T mrs HT Hm Hin; cbn [SpecFloat.iter_pos].
  - destruct (shr_1_inbetween N T mrs HT Hm Hin) as [H1 E1].
    assert (Hm1 : 0 <= shr_m (shr_1 mrs)) by (rewrite E1; apply Z.div_pos; lia).
    assert (Hp : 0 < 2 ^ Zpos p) by (apply Z.pow_pos_nonneg; lia).
    destruct (IH N (2 * T) _ ltac:(lia) Hm1 H1) as [H2 E2].
    assert (Hm2 : 0 <= shr_m (SpecFloat.iter_pos shr_1 p (shr_1 mrs)))
      by (rewrite E2; apply Z.div_pos; lia).
    destruct (IH N (2 * T * 2 ^ Zpos p) _ ltac:(nia) Hm2 H2) as [H3 E3].
    replace (Zpos p~1) with (1 + Zpos p + Zpos p) by lia.
    rewrite !Z.pow_add_r by lia. change (2 ^ 1) with 2.
    split.
    + replace (T * (2 * 2 ^ Zpos p * 2 ^ Zpos p))
        with (2 * T * 2 ^ Zpos p * 2 ^ Zpos p) by ring. exact H3.
    + rewrite E3, E2, E1. rewrite !Z.div_div by lia. f_equal. ring.
  - assert (Hp : 0 < 2 ^ Zpos p) by (apply Z.pow_pos_nonneg; lia).
    destruct (IH N T _ HT Hm Hin) as [H2 E2].
    assert (Hm2 : 0 <= shr_m (SpecFloat.iter_pos shr_1 p mrs))
      by (rewrite E2; apply Z.div_pos; lia).
    destruct (IH N (T * 2 ^ Zpos p) _ ltac:(nia) Hm2 H2) as [H3 E3].
    replace (Zpos p~0) with (Zpos p + Zpos p) by lia.
    rewrite !Z.pow_add_r by lia.
    split.
    + replace (T * (2 ^ Zpos p * 2 ^ Zpos p))
        with (T * 2 ^ Zpos p * 2 ^ Zpos p) by ring. exact H3.
    + rewrite E3, E2. rewrite !Z.div_div by lia. f_equal.
  - destruct (shr_1_inbetween N T mrs HT Hm Hin) as [H1 E1].
    change (2 ^ 1) with 2. rewrite (Z.mul_comm T 2). split; assumption.
Qed.

(** Shifting right by [n >= 0] places. *)
Lemma shr_inbetween (N T : Z) (mrs : shr_record) (e n : Z) :
  0 < T -> 0 <= shr_m mrs -> 0 <= n ->
  inbetween N T mrs ->
  inbetween N (T * 2 ^ n) (fst (shr mrs e n)) /\
  shr_m (fst (shr mrs e n)) = shr_m mrs / 2 ^ n /\
  snd (shr mrs e n) = e + n.
Proof.
  intros HT Hm Hn Hin. destruct n as [|p|p]; [| |lia].
  - cbn [shr fst snd]. rewrite Z.mul_1_r, Z.div_1_r, Z.add_0_r. auto.
  - cbn [shr fst snd].
    destruct (iter_pos_shr_1 p N T mrs HT Hm Hin). auto.
Qed.

Lemma inbetween_of_loc_Exact (m : Z) : inbetween m 1 (shr_record_of_loc m loc_Exact).
Proof. unfold inbetween. cbn. lia. Qed.

(** Rounding to nearest, ties to even, of a bracketed value. *)
Lemma round_nearest_even_spec (N T : Z) (mrs : shr_record) :
  0 < T -> inbetween N T mrs ->
  let mr := round_nearest_even (shr_m mrs) (loc_of_shr_record mrs) in
  (2 * mr - 1) * T <= 2 * N <= (2 * mr + 1) * T /\
  (forall Y : Z, N <= Y * T -> mr <= Y) /\
  (forall Y : Z, Y * T <= N -> Y <= mr) /\
  shr_m mrs <= mr <= shr_m mrs + 1.
Proof.
  intros HT. destruct mrs as [m r s]. unfold inbetween.
  cbn [shr_m shr_r shr_s]. intros [Hb Hl].
  assert (Hc : forall Y, Y * T <= N -> Y <= m) by (intros Y HY; nia).
  assert (Hd : forall Y, N <= Y * T -> m <= Y) by (intros Y HY; nia).
  destruct r, s; cbn [loc_of_shr_record round_nearest_even];
    try destruct (Z.even m);
    repeat split; try nia;
    intros Y HY;
    first [ specialize (Hc Y HY); lia
          | specialize (Hd Y HY); lia
          | assert (m < Y) by nia; lia ].
Qed.

Lemma shr_m_of_loc (m : Z) (l : location) : shr_m (shr_record_of_loc m l) = m.
Proof. destruct l as [|[]]; reflexivity. Qed.

Lemma fexp_normal (e : Z) : -1074 <= e - 53 -> fexp 53 1024 e = e - 53.
Proof. intros H. unfold fexp, emin. lia. Qed.

(** The rounding step shared by the arithmetic operations, on a value
    [N / D * 2 ^ ex] with at least 53 significant bits whose result is a
    normal number. *)
Lemma binary_round_aux_spec (sx : bool) (mx : positive) (ex : Z)
    (lx : location) (N D : Z) :
  0 < D ->
  inbetween N D (shr_record_of_loc (Zpos mx) lx) ->
  let n := Zpos (digits2_pos mx) - 53 in
  0 <= n ->
  -1074 <= ex + n ->
  ex + n < 971 ->
  exists (m : positive) (e mr : Z),
    binary_round_aux 53 1024 sx (Zpos mx) ex lx = S754_finite sx m e /\
    Zpos (digits2_pos m) = 53 /\
    -1074 <= e <= 971 /\
    ((e = ex + n /\ Zpos m = mr) \/
     (e = ex + n + 1 /\ mr = 2 ^ 53 /\ Zpos m = 2 ^ 52)) /\
    2 ^ 52 * (D * 2 ^ n) <= N < 2 ^ 53 * (D * 2 ^ n) /\
    (2 * mr - 1) * (D * 2 ^ n) <= 2 * N <= (2 * mr + 1) * (D * 2 ^ n) /\
    (forall Y, N <= Y * (D * 2 ^ n) -> mr <= Y) /\
    (forall Y, Y * (D * 2 ^ n) <= N -> Y <= mr).
Proof.
  intros HD Hin n Hn Hlo Hhi.
  pose proof (digits2_pos_spec mx) as Hdig.
  set (d := Zpos (digits2_pos mx)) in *.
  assert (Hd : d = n + 53) by (subst n; lia).
  assert (Hpn : 0 < 2 ^ n) by (apply Z.pow_pos_nonneg; lia).
  assert (HT : 0 < D * 2 ^ n) by nia.
  unfold binary_round_aux, shr_fexp.
  cbn [Zdigits2]. fold d.
  rewrite fexp_normal by lia.
  replace (d + ex - 53 - ex) with n by lia.
  pose proof (shr_inbetween N D (shr_record_of_loc (Zpos mx) lx) ex n HD
                ltac:(rewrite shr_m_of_loc; lia) Hn Hin) as (H1 & Em1 & Ee1).
  destruct (shr (shr_record_of_loc (Zpos mx) lx) ex n) as [mrs1 e1].
  cbn [fst snd] in H1, Em1, Ee1. subst e1.
  rewrite shr_m_of_loc in Em1.
  assert (Hm1 : 2 ^ 52 <= shr_m mrs1 < 2 ^ 53).
  { rewrite Em1. rewrite Hd in Hdig.
    replace (n + 53 - 1) with (52 + n) in Hdig by lia.
    replace (n + 53) with (53 + n) in Hdig by lia.
    rewrite !Z.pow_add_r in Hdig by lia.
    split.
    - apply Z.div_le_lower_bound; lia.
    - apply Z.div_lt_upper_bound; lia. }
  destruct (round_nearest_even_spec N (D * 2 ^ n) mrs1 HT H1)
    as (Hr1 & Hr2 & Hr3 & Hr4).
  set (mr := round_nearest_even (shr_m mrs1) (loc_of_shr_record mrs1)) in *.
  assert (HN : 2 ^ 52 * (D * 2 ^ n) <= N < 2 ^ 53 * (D * 2 ^ n)).
  { destruct H1 as [[Ha Hb] _]. split; [nia|].
    assert (shr_m mrs1 + 1 <= 2 ^ 53) by lia. nia. }
  destruct (Z.eq_dec mr (2 ^ 53)) as [Heq|Hne].
  - (* the mantissa carries into the next binade *)
    rewrite Heq.
    change (Zdigits2 (2 ^ 53)) with 54.
    rewrite fexp_normal by lia.
    replace (54 + (ex + n) - 53 - (ex + n)) with 1 by lia.
    cbn [shr SpecFloat.iter_pos shr_record_of_loc].
    change (2 ^ 53) with (Zpos (xO (Pos.pow 2 52))).
    cbn [shr_1 shr_m orb].
    destruct (Z.leb_spec (ex + n + 1) (1024 - 53)); [|lia].
    exists (Pos.pow 2 52), (ex + n + 1), mr.
    split; [reflexivity|].
    split; [reflexivity|].
    split; [lia|].
    split; [right; repeat split; [exact Heq]|].
    repeat split; try tauto; apply Hr1.
  - assert (Hmr : 2 ^ 52 <= mr < 2 ^ 53) by lia.
    destruct mr as [|m|m] eqn:Emr; try lia.
    assert (Hdm : Zpos (digits2_pos m) = 53)
      by (apply digits2_pos_unique; exact Hmr).
    cbn [Zdigits2]. rewrite Hdm.
    rewrite fexp_normal by lia.
    replace (53 + (ex + n) - 53 - (ex + n)) with 0 by lia.
    cbn [shr shr_record_of_loc shr_m].
    destruct (Z.leb_spec (ex + n) (1024 - 53)); [|lia].
    exists m, (ex + n), (Zpos m).
    split; [reflexivity|].
    split; [exact Hdm|].
    split; [lia|].
    split; [left; split; reflexivity|].
    repeat split; try tauto; apply Hr1.
Qed.

Lemma pow2_pos (e : Z) : (0 < 2 ^ e)%Q.
Proof. apply Qpower_0_lt. reflexivity. Qed.

Lemma pow2_add (a b : Z) : (2 ^ (a + b) == 2 ^ a * 2 ^ b)%Q.
Proof. apply Qpower_plus. discriminate. Qed.

Lemma pow2_inject (n : Z) : 0 <= n -> (inject_Z (2 ^ n) == 2 ^ n)%Q.
Proof. intros H. apply (Zpower_Qpower 2 n H). Qed.

Lemma pow2_le (a b : Z) : a <= b -> (2 ^ a <= 2 ^ b)%Q.
Proof. intros H. apply Qpower_le_compat_l; [exact H | discriminate]. Qed.

Lemma value_pos (m : positive) (e : Z) : (0 < value m e)%Q.
Proof.
  unfold value. apply Qmult_lt_0_compat; [reflexivity | apply pow2_pos].
Qed.

Lemma value_bounds (m : positive) (e : Z) :
  Zpos (digits2_pos m) = 53 ->
  (2 ^ (52 + e) <= value m e /\ value m e < 2 ^ (53 + e))%Q.
Proof.
  intros Hd. pose proof (digits2_pos_spec m) as [Hlo Hhi]. rewrite Hd in *.
  change (53 - 1) with 52 in Hlo.
  unfold value. rewrite !pow2_add.
  pose proof (pow2_pos e).
  rewrite <- !pow2_inject by lia.
  rewrite Zle_Qle in Hlo. rewrite Zlt_Qlt in Hhi.
  split.
  - apply Qmult_le_compat_r; [exact Hlo | lra].
  - apply Qmult_lt_compat_r; [lra | exact Hhi].
Qed.

Lemma inject_Z_pos (T : Z) : 0 < T -> (0 < inject_Z T)%Q.
Proof. intros H. unfold Qlt. simpl. lia. Qed.

Lemma Qdiv_lower (a N T : Z) :
  0 < T -> a * T <= N -> (inject_Z a <= inject_Z N / inject_Z T)%Q.
Proof.
  intros HT H. apply Qle_shift_div_l.
  - apply inject_Z_pos. exact HT.
  - rewrite <- inject_Z_mult, <- Zle_Qle. exact H.
Qed.

Lemma Qdiv_upper (a N T : Z) :
  0 < T -> N <= a * T -> (inject_Z N / inject_Z T <= inject_Z a)%Q.
Proof.
  intros HT H. apply Qle_shift_div_r.
  - apply inject_Z_pos. exact HT.
  - rewrite <- inject_Z_mult, <- Zle_Qle. exact H.
Qed.

Lemma Qdiv_upper_inv (a N T : Z) :
  0 < T -> (inject_Z N / inject_Z T <= inject_Z a)%Q -> N <= a * T.
Proof.
  intros HT H.
  assert (HTq : (0 < inject_Z T)%Q) by (apply inject_Z_pos; exact HT).
  rewrite Zle_Qle, inject_Z_mult.
  apply (Qmult_le_compat_r _ _ (inject_Z T)) in H; [|lra].
  assert (E : (inject_Z N / inject_Z T * inject_Z T == inject_Z N)%Q)
    by (field; lra).
  rewrite E in H. exact H.
Qed.

(** The rounding step, read on values. *)
Lemma binary_round_aux_rounded (mx : positive) (ex : Z) (lx : location)
    (N D : Z) :
  0 < D ->
  inbetween N D (shr_record_of_loc (Zpos mx) lx) ->
  let n := Zpos (digits2_pos mx) - 53 in
  0 <= n ->
  -1074 <= ex + n ->
  ex + n < 971 ->
  rounded (inject_Z N / inject_Z D * 2 ^ ex)
          (binary_round_aux 53 1024 false (Zpos mx) ex lx)
          (ex + n) (ex + n + 1).
Proof.
  intros HD Hin n Hn Hlo Hhi.
  destruct (binary_round_aux_spec false mx ex lx N D HD Hin Hn Hlo Hhi)
    as (m & e & mr & Hz & Hdig & He & Hcase & HN & Hr & Hup & Hdown).
  fold n in Hz, Hcase, HN, Hr, Hup, Hdown.
  exists m, e. split; [exact Hz|]. split; [exact Hdig|].
  split; [destruct Hcase as [[-> _]|[-> _]]; lia|].
  assert (Hpn : 0 < 2 ^ n) by (apply Z.pow_pos_nonneg; lia).
  set (T := D * 2 ^ n) in *.
  assert (HT : 0 < T) by (subst T; nia).
  assert (HTq : (0 < inject_Z T)%Q) by (apply inject_Z_pos; exact HT).
  assert (HDq : (0 < inject_Z D)%Q) by (apply inject_Z_pos; exact HD).
  set (P := (2 ^ (ex + n))%Q).
  assert (HP : (0 < P)%Q) by apply pow2_pos.
  set (q := (inject_Z N / inject_Z T)%Q).
  assert (Hval : (value m e == inject_Z mr * P)%Q).
  { unfold value, P. destruct Hcase as [[-> ->]|(-> & -> & ->)]; [reflexivity|].
    rewrite (pow2_add (ex + n) 1).
    change (inject_Z (2 ^ 53)) with (inject_Z (2 ^ 52) * 2)%Q.
    change (2 ^ 1)%Q with 2%Q. ring. }
  assert (Ht : (inject_Z N / inject_Z D * 2 ^ ex == q * P)%Q).
  { unfold q, P, T. rewrite pow2_add, inject_Z_mult, pow2_inject by lia.
    pose proof (pow2_pos n). pose proof (pow2_pos ex).
    field. split; lra. }
  assert (Hq1 : (inject_Z mr - (1 # 2) <= q /\ q <= inject_Z mr + (1 # 2))%Q).
  { destruct Hr as [Ha Hb].
    apply Qdiv_lower in Ha; [|exact HT].
    apply Qdiv_upper in Hb; [|exact HT].
    replace (2 * mr - 1) with (2 * mr + -1) in Ha by lia.
    rewrite inject_Z_plus, !inject_Z_mult in Ha.
    rewrite inject_Z_plus, !inject_Z_mult in Hb.
    change (inject_Z 2) with 2%Q in *. change (inject_Z (-1)) with (-1)%Q in *.
    change (inject_Z 1) with 1%Q in *.
    assert (E : (2 * inject_Z N / inject_Z T == 2 * q)%Q)
      by (unfold q; field; lra).
    rewrite E in Ha, Hb. split; lra. }
  assert (Hq2 : (inject_Z (2 ^ 52) <= q)%Q).
  { apply Qdiv_lower; [exact HT | apply HN]. }
  assert (Hu : ((1 # 2) <= u * q)%Q).
  { unfold u. change (inject_Z (2 ^ 52)) with (4503599627370496 # 1)%Q in Hq2.
    change (2 ^ 53)%positive with 9007199254740992%positive. lra. }
  split.
  - rewrite Ht, Hval. split.
    + assert (E : ((1 - u) * (q * P) == (q - u * q) * P)%Q) by ring.
      rewrite E. apply Qmult_le_compat_r; lra.
    + assert (E : ((1 + u) * (q * P) == (q + u * q) * P)%Q) by ring.
      rewrite E. apply Qmult_le_compat_r; lra.
  - intros mw ew Hdw Hle. rewrite Ht in Hle. rewrite Hval.
    pose proof (value_bounds mw ew Hdw) as [Hwlo Hwhi].
    destruct (Z_lt_le_dec ew (ex + n)) as [Hlt|Hge].
    + (* a number of a lower binade is below the value rounded *)
      exfalso.
      assert (H1 : (2 ^ (53 + ew) <= 2 ^ (52 + (ex + n)))%Q)
        by (apply pow2_le; lia).
      rewrite (pow2_add 52 (ex + n)) in H1. fold P in H1.
      rewrite <- (pow2_inject 52) in H1 by lia.
      assert (H2 : (inject_Z (2 ^ 52) * P <= q * P)%Q)
        by (apply Qmult_le_compat_r; lra).
      lra.
    + set (Y := Zpos mw * 2 ^ (ew - (ex + n))).
      assert (HY : (value mw ew == inject_Z Y * P)%Q).
      { unfold value, Y, P. rewrite inject_Z_mult, pow2_inject by lia.
        replace ew with ((ew - (ex + n)) + (ex + n)) at 1 by lia.
        rewrite pow2_add. ring. }
      rewrite HY in Hle |- *.
      assert (Hq3 : (q <= inject_Z Y)%Q).
      { apply (Qmult_le_r _ _ P); assumption. }
      apply Qdiv_upper_inv in Hq3; [|exact HT].
      apply Hup in Hq3.
      apply Qmult_le_compat_r; [|lra].
      rewrite <- Zle_Qle. exact Hq3.
Qed.

Lemma rounded_ext (t t' : Q) (z : spec_float) (lo hi lo' hi' : Z) :
  (t == t')%Q -> lo' <= lo -> hi <= hi' ->
  rounded t z lo hi -> rounded t' z lo' hi'.
Proof.
  intros Ht Hlo Hhi (m & e & Hz & Hd & He & Hb & Hmono).
  exists m, e. repeat split; try assumption; try lia.
  - rewrite <- Ht. apply Hb.
  - rewrite <- Ht. apply Hb.
  - intros mw ew Hdw Hle. rewrite <- Ht in Hle. auto.
Qed.

Lemma digits2_pos_range (m : positive) (lo hi : Z) :
  0 <= lo -> 2 ^ lo <= Zpos m < 2 ^ hi -> lo < Zpos (digits2_pos m) <= hi.
Proof.
  intros Hlo [Ha Hb]. pose proof (digits2_pos_spec m) as [Hc Hd].
  set (d := Zpos (digits2_pos m)) in *.
  assert (0 < d) by (subst d; lia).
  split.
  - destruct (Z_lt_le_dec lo d); [assumption|].
    assert (2 ^ d <= 2 ^ lo) by (apply Z.pow_le_mono_r; lia). lia.
  - destruct (Z_le_gt_dec d hi); [assumption|].
    assert (0 <= hi).
    { destruct (Z_le_gt_dec 0 hi); [assumption|].
      rewrite Z.pow_neg_r in Hb by lia. lia. }
    assert (2 ^ hi <= 2 ^ (d - 1)) by (apply Z.pow_le_mono_r; lia). lia.
Qed.

(** Multiplication of two positive normal numbers. *)
Lemma mul_rounded (mx my : positive) (ex ey : Z) :
  Zpos (digits2_pos mx) = 53 -> Zpos (digits2_pos my) = 53 ->
  -1074 <= ex + ey + 52 -> ex + ey + 53 < 971 ->
  rounded (value mx ex * value my ey)
          (mul (S754_finite false mx ex) (S754_finite false my ey))
          (ex + ey + 52) (ex + ey + 54).
Proof.
  intros Hdx Hdy Hlo Hhi.
  pose proof (digits2_pos_spec mx) as Hx. rewrite Hdx in Hx.
  pose proof (digits2_pos_spec my) as Hy. rewrite Hdy in Hy.
  change (53 - 1) with 52 in Hx, Hy.
  assert (Hxy : 2 ^ 104 <= Zpos (mx * my) < 2 ^ 106).
  { rewrite Pos2Z.inj_mul.
    change (2 ^ 104) with (2 ^ 52 * 2 ^ 52).
    change (2 ^ 106) with (2 ^ 53 * 2 ^ 53). nia. }
  pose proof (digits2_pos_range (mx * my) 104 106 ltac:(lia) Hxy) as Hd.
  unfold mul, prec, emax. cbn [SFmul xorb].
  eapply rounded_ext;
    [ | | | apply (binary_round_aux_rounded (mx * my) (ex + ey) loc_Exact
                    (Zpos (mx * my)) 1 ltac:(lia)
                    (inbetween_of_loc_Exact _)); lia ].
  - unfold value. rewrite Pos2Z.inj_mul, inject_Z_mult, pow2_add.
    change (inject_Z 1) with 1%Q. field.
  - lia.
  - lia.
Qed.

(** The position of a quotient between two integers, from the
    remainder. *)
Lemma new_location_inbetween (D q r : Z) :
  0 < D -> 0 <= r < D ->
  inbetween (q * D + r) D (shr_record_of_loc q (new_location D r)).
Proof.
  intros HD Hr. unfold new_location.
  destruct (Z.even D) eqn:Heven.
  - unfold new_location_even.
    destruct (Z.eqb_spec r 0) as [->|Hr0].
    + unfold inbetween. cbn. lia.
    + destruct (Z.compare_spec (2 * r) D); unfold inbetween; cbn; nia.
  - unfold new_location_odd.
    assert (Hodd : Z.odd D = true) by (rewrite <- Z.negb_even, Heven; reflexivity).
    apply Z.odd_spec in Hodd as [k Hk].
    destruct (Z.eqb_spec r 0) as [->|Hr0].
    + unfold inbetween. cbn. lia.
    + destruct (Z.compare_spec (2 * r + 1) D); unfold inbetween; cbn; nia.
Qed.

(** Division of two positive normal numbers. *)
Lemma div_rounded (mx my : positive) (ex ey : Z) :
  Zpos (digits2_pos mx) = 53 -> Zpos (digits2_pos my) = 53 ->
  -1074 <= ex - ey - 53 -> ex - ey - 52 < 971 ->
  rounded (value mx ex / value my ey)
          (div (S754_finite false mx ex) (S754_finite false my ey))
          (ex - ey - 53) (ex - ey - 51).
Proof.
  intros Hdx Hdy Hlo Hhi.
  pose proof (digits2_pos_spec mx) as Hx. rewrite Hdx in Hx.
  pose proof (digits2_pos_spec my) as Hy. rewrite Hdy in Hy.
  change (53 - 1) with 52 in Hx, Hy.
  unfold div, prec, emax. cbn [SFdiv xorb]. unfold SFdiv_core_binary. cbn [Zdigits2].
  rewrite Hdx, Hdy.
  replace (53 + ex - (53 + ey)) with (ex - ey) by lia.
  rewrite fexp_normal by lia.
  rewrite Z.min_l by lia.
  replace (ex - ey - (ex - ey - 53)) with 53 by lia.
  rewrite Z.shiftl_mul_pow2 by lia.
  set (N := Zpos mx * 2 ^ 53).
  pose proof (Z.div_mod N (Zpos my) ltac:(lia)) as Hdm.
  pose proof (Z.mod_pos_bound N (Zpos my) ltac:(lia)) as Hmod.
  unfold Z.div, Z.modulo in Hdm, Hmod.
  destruct (Z.div_eucl N (Zpos my)) as [q r].
  assert (HN : 2 ^ 105 <= N < 2 ^ 106).
  { subst N. change (2 ^ 105) with (2 ^ 52 * 2 ^ 53).
    change (2 ^ 106) with (2 ^ 53 * 2 ^ 53). lia. }
  assert (Hq : 2 ^ 52 <= q < 2 ^ 54).
  { change (2 ^ 105) with (2 ^ 52 * 2 ^ 53) in HN.
    change (2 ^ 106) with (2 ^ 54 * 2 ^ 52) in HN. split; nia. }
  destruct q as [|mq|mq]; try lia.
  pose proof (digits2_pos_range mq 52 54 ltac:(lia) Hq) as Hdq.
  assert (Hin : inbetween N (Zpos my)
                  (shr_record_of_loc (Zpos mq) (new_location (Zpos my) r))).
  { rewrite Hdm, (Z.mul_comm (Zpos my)).
    apply new_location_inbetween; lia. }
  eapply rounded_ext;
    [ | | | apply (binary_round_aux_rounded mq (ex - ey - 53)
                    (new_location (Zpos my) r) N (Zpos my)
                    ltac:(lia) Hin); lia ].
  - unfold value, N. rewrite inject_Z_mult, pow2_inject by lia.
    replace (ex - ey - 53) with (ex + (- ey + -53)) by lia.
    rewrite !pow2_add.
    pose proof (pow2_pos ex). pose proof (pow2_pos ey).
    assert (E1 : (2 ^ (- ey) == / 2 ^ ey)%Q) by apply Qpower_opp.
    assert (E2 : (2 ^ (-53) * 2 ^ 53 == 1)%Q) by reflexivity.
    rewrite E1.
    assert (Hmy : (0 < inject_Z (Zpos my))%Q) by (apply inject_Z_pos; lia).
    set (a := (2 ^ ex)%Q) in *. set (b := (2 ^ ey)%Q) in *.
    set (c := (2 ^ 53)%Q) in *. set (c' := (2 ^ (-53))%Q) in *.
    assert (Hc : (c' == / c)%Q) by reflexivity.
    rewrite Hc.
    assert (Hcpos : (0 < c)%Q) by reflexivity.
    field. repeat split; lra.
  - lia.
  - lia.
Qed.

(** Comparison of two positive normal numbers. *)
Lemma ltb_value (ma mb : positive) (ea eb : Z) :
  Zpos (digits2_pos ma) = 53 -> Zpos (digits2_pos mb) = 53 ->
  ltb (S754_finite false ma ea) (S754_finite false mb eb) = true
  <-> (value ma ea < value mb eb)%Q.
Proof.
  intros Hda Hdb.
  pose proof (value_bounds ma ea Hda) as [Halo Hahi].
  pose proof (value_bounds mb eb Hdb) as [Hblo Hbhi].
  unfold ltb, SFltb, SFcompare.
  destruct (Z.compare_spec ea eb) as [->|Hlt|Hgt].
  - change (Pos.compare_cont Eq ma mb) with (Pos.compare ma mb).
    pose proof (pow2_pos eb) as HP.
    unfold value.
    destruct (Pos.compare_spec ma mb) as [->|Hm|Hm].
    + split; [discriminate | intros H; lra].
    + split; [intros _|reflexivity].
      apply Qmult_lt_compat_r; [exact HP|].
      rewrite <- Zlt_Qlt. lia.
    + split; [discriminate|]. intros H. exfalso.
      assert (inject_Z (Zpos mb) * 2 ^ eb < inject_Z (Zpos ma) * 2 ^ eb)%Q.
      { apply Qmult_lt_compat_r; [exact HP|]. rewrite <- Zlt_Qlt. lia. }
      lra.
  - split; [intros _|reflexivity].
    assert (2 ^ (53 + ea) <= 2 ^ (52 + eb))%Q by (apply pow2_le; lia).
    lra.
  - split; [discriminate|]. intros H. exfalso.
    assert (2 ^ (53 + eb) <= 2 ^ (52 + ea))%Q by (apply pow2_le; lia).
    lra.
Qed.

(** The exact value of a positive finite number. *)
Lemma exact_value (m : positive) (e : Z) :
  exists v : Q, exact (S754_finite false m e) = Some v /\ (v == value m e)%Q.
Proof.
  unfold exact, value. eexists. split; [reflexivity|].
  destruct (Z.leb_spec 0 e) as [He|He].
  - rewrite inject_Z_mult, pow2_inject by lia. reflexivity.
  - destruct e as [|p|p]; try lia.
    change (- Z.neg p) with (Zpos p). cbn [Z.to_pos].
    assert (E : (2 ^ Z.neg p == / inject_Z (2 ^ Zpos p))%Q).
    { rewrite pow2_inject by lia. apply (Qpower_opp 2 (Zpos p)). }
    rewrite E. rewrite <- Pos2Z.inj_pow.
    unfold Qeq, Qmult, Qinv, inject_Z. simpl. lia.
Qed.

Lemma moderate_spec (x : number) :
  moderate x = true ->
  exists (m : positive) (e : Z),
    x = S754_finite false m e /\ Zpos (digits2_pos m) = 53 /\ -300 <= e <= 196.
Proof.
  destruct x as [s|s| |[] m e]; try discriminate.
  unfold moderate. intros H.
  apply andb_prop in H as [H H3]. apply andb_prop in H as [H1 H2].
  exists m, e. split; [reflexivity|]. lia.
Qed.

(** *** Integers *)

Lemma iter_xO (k p : positive) :
  Zpos (Pos.iter xO p k) = Zpos p * 2 ^ Zpos k.
Proof.
  induction k as [|k IH] using Pos.peano_ind.
  - cbn [Pos.iter]. change (2 ^ 1) with 2. lia.
  - rewrite Pos.iter_succ, Pos2Z.inj_xO, IH, Pos2Z.inj_succ.
    rewrite Z.pow_succ_r by lia. ring.
Qed.

Lemma shl_align_spec (m : positive) (e e' : Z) :
  e' <= e ->
  Zpos (fst (shl_align m e e')) = Zpos m * 2 ^ (e - e') /\
  snd (shl_align m e e') = e'.
Proof.
  intros H. unfold shl_align.
  destruct (e' - e) as [|k|k] eqn:E; try lia; cbn [fst snd].
  - replace (e - e') with 0 by lia. split; lia.
  - rewrite iter_xO. replace (e - e') with (Zpos k) by lia. split; reflexivity.
Qed.

Lemma shl_align_id (m : positive) (e e' : Z) :
  e <= e' -> shl_align m e e' = (m, e).
Proof.
  intros H. unfold shl_align.
  destruct (e' - e) as [|k|k] eqn:E; try lia; reflexivity.
Qed.

(** Rounding a number that already has a full mantissa changes
    nothing. *)
Lemma binary_round_aux_normal (s : bool) (m : positive) (e : Z) :
  Zpos (digits2_pos m) = 53 -> -1074 <= e < 971 ->
  binary_round_aux 53 1024 s (Zpos m) e loc_Exact = S754_finite s m e.
Proof.
  intros Hd He.
  destruct (binary_round_aux_spec s m e loc_Exact (Zpos m) 1 ltac:(lia)
              (inbetween_of_loc_Exact _))
    as (m' & e' & mr & Hz & _ & _ & Hcase & HN & Hr & _); try lia.
  rewrite Hd in Hcase, HN, Hr. change (53 - 53) with 0 in *.
  change (1 * 2 ^ 0) with 1 in *.
  rewrite Hz. destruct Hcase as [[-> Hm]|(_ & Hm & _)]; [|lia].
  assert (m' = m) by lia. subst m'. f_equal. lia.
Qed.

(** Rounding the integer [V], given as [M * 2 ^ e] with [e <= 0], when
    [V] is below [2 ^ 53]: the result is [V], with a full mantissa. *)
Lemma binary_round_integer (s : bool) (M V : positive) (e : Z) :
  e <= 0 -> Zpos M = Zpos V * 2 ^ (- e) -> Zpos V < 2 ^ 53 ->
  exists (m : positive) (t : Z),
    binary_round 53 1024 s M e = S754_finite s m t /\
    Zpos (digits2_pos m) = 53 /\
    -52 <= t <= 0 /\
    Zpos m = Zpos V * 2 ^ (- t).
Proof.
  intros He HM HV.
  pose proof (digits2_pos_spec V) as HdV.
  set (dV := Zpos (digits2_pos V)) in *.
  assert (HdV1 : 1 <= dV <= 53).
  { split; [subst dV; lia|].
    destruct (Z_le_gt_dec dV 53); [assumption|].
    assert (2 ^ 53 <= 2 ^ (dV - 1)) by (apply Z.pow_le_mono_r; lia). lia. }
  assert (Hpe : 0 < 2 ^ (- e)) by (apply Z.pow_pos_nonneg; lia).
  assert (HdM : Zpos (digits2_pos M) = dV - e).
  { apply digits2_pos_unique. rewrite HM.
    replace (dV - e - 1) with ((dV - 1) + (- e)) by lia.
    replace (dV - e) with (dV + (- e)) by lia.
    rewrite !Z.pow_add_r by lia. nia. }
  remember (dV - 53) as t eqn:Ht.
  assert (Hpt : 0 < 2 ^ (- t)) by (apply Z.pow_pos_nonneg; lia).
  assert (HY : 2 ^ 52 <= Zpos V * 2 ^ (- t) < 2 ^ 53).
  { replace 52 with ((dV - 1) + (- t)) by lia.
    replace (2 ^ 53) with (2 ^ (dV + (- t))) by (f_equal; lia).
    rewrite !Z.pow_add_r by lia. nia. }
  destruct (Zpos V * 2 ^ (- t)) as [|Y|Y] eqn:EY; try lia.
  exists Y, t.
  assert (HdY : Zpos (digits2_pos Y) = 53)
    by (apply digits2_pos_unique; exact HY).
  split; [|split; [exact HdY|split; [lia|symmetry; exact EY]]].
  unfold binary_round. rewrite HdM.
  rewrite fexp_normal by lia.
  replace (dV - e + e - 53) with t by lia.
  destruct (Z_lt_le_dec t e) as [Hlt|Hge].
  - (* fewer than 53 bits: the mantissa is shifted left *)
    pose proof (shl_align_spec M e t ltac:(lia)) as [Hm Hs].
    destruct (shl_align M e t) as [mz ez]. cbn [fst snd] in Hm, Hs. subst ez.
    assert (mz = Y).
    { apply Pos2Z.inj. rewrite Hm, HM, <- Z.mul_assoc, <- Z.pow_add_r by lia.
      replace (- e + (e - t)) with (- t) by lia. exact EY. }
    subst mz. apply binary_round_aux_normal; [exact HdY | lia].
  - (* at least 53 bits: the mantissa is shifted right, exactly *)
    rewrite shl_align_id by lia.
    destruct (binary_round_aux_spec s M e loc_Exact (Zpos M) 1 ltac:(lia)
                (inbetween_of_loc_Exact _))
      as (m' & e' & mr & Hz & _ & _ & Hcase & _ & _ & Hup & Hdown);
      try (rewrite HdM; lia).
    rewrite HdM in Hcase, Hup, Hdown.
    replace (dV - e - 53) with (t - e) in * by lia.
    assert (HMY : Zpos M = Zpos Y * (1 * 2 ^ (t - e))).
    { rewrite HM, <- EY, Z.mul_1_l, <- Z.mul_assoc, <- Z.pow_add_r by lia.
      replace (- t + (t - e)) with (- e) by lia. reflexivity. }
    assert (Hmr : mr = Zpos Y).
    { apply Z.le_antisymm; [apply Hup | apply Hdown]; lia. }
    rewrite Hz. destruct Hcase as [[-> Hm]|(_ & Hm & _)]; [|lia].
    assert (m' = Y) by lia. subst m'. f_equal. lia.
Qed.

(** [ofZ] of a positive integer below [2 ^ 53]. *)
Lemma ofZ_positive (n : Z) :
  0 < n < 2 ^ 53 ->
  exists (m : positive) (e : Z),
    ofZ n = S754_finite false m e /\
    Zpos (digits2_pos m) = 53 /\
    -52 <= e <= 0 /\
    Zpos m = n * 2 ^ (- e).
Proof.
  intros Hn. destruct n as [|p|p]; try lia.
  unfold ofZ, prec, emax. cbn [binary_normalize].
  apply binary_round_integer; [lia | simpl; lia | lia].
Qed.

Lemma ofZ_moderate (n : Z) :
  0 < n < 2 ^ 53 ->
  moderate (ofZ n) = true /\
  exists v : Q, exact (ofZ n) = Some v /\ (v == inject_Z n)%Q.
Proof.
  intros Hn. destruct (ofZ_positive n Hn) as (m & e & -> & Hd & He & Hm).
  split.
  - unfold moderate. rewrite Hd. cbn.
    destruct (Z.leb_spec (-300) e); [|lia].
    destruct (Z.leb_spec e 196); [|lia]. reflexivity.
  - destruct (exact_value m e) as (v & Ev & Hv).
    exists v. split; [exact Ev|]. rewrite Hv. unfold value.
    rewrite Hm, inject_Z_mult, pow2_inject by lia.
    assert (E : (2 ^ (- e) == / 2 ^ e)%Q) by apply Qpower_opp.
    rewrite E. pose proof (pow2_pos e). field. lra.
Qed.

Lemma truncate_integer (s : bool) (m : positive) (t V : Z) :
  t <= 0 -> Zpos m = V * 2 ^ (- t) ->
  truncate (S754_finite s m t) = if s then - V else V.
Proof.
  intros Ht Hm. unfold truncate.
  assert (Hp : 0 < 2 ^ (- t)) by (apply Z.pow_pos_nonneg; lia).
  destruct (Z.leb_spec 0 t).
  - replace t with 0 in * by lia. change (2 ^ (- 0)) with 1 in Hm.
    change (2 ^ 0) with 1. destruct s; lia.
  - rewrite Hm, Z.div_mul by lia. reflexivity.
Qed.

(** [ofZ] of an integer other than 0, below [2 ^ 53] in magnitude. *)
Lemma ofZ_integer (a : Z) :
  a <> 0 -> Z.abs a < 2 ^ 53 ->
  exists (m : positive) (e : Z),
    ofZ a = S754_finite (a <? 0) m e /\
    -52 <= e <= 0 /\
    Zpos m = Z.abs a * 2 ^ (- e).
Proof.
  intros Ha Hlt. unfold ofZ, prec, emax.
  destruct a as [|p|p]; [congruence| |]; cbn [binary_normalize Z.ltb Z.compare].
  - destruct (binary_round_integer false p p 0) as (m & e & -> & _ & He & Hm);
      [lia | simpl; lia | simpl in Hlt; lia |].
    exists m, e. repeat split; first [lia | exact Hm].
  - destruct (binary_round_integer true p p 0) as (m & e & -> & _ & He & Hm);
      [lia | simpl; lia | simpl in Hlt; lia |].
    exists m, e. repeat split; first [lia | exact Hm].
Qed.

Lemma truncate_ofZ (a : Z) : Z.abs a < 2 ^ 53 -> truncate (ofZ a) = a.
Proof.
  intros Ha. destruct (Z.eq_dec a 0) as [->|Hne]; [reflexivity|].
  destruct (ofZ_integer a Hne Ha) as (m & e & -> & He & Hm).
  rewrite (truncate_integer _ m e (Z.abs a)) by (lia || exact Hm).
  destruct (Z.ltb_spec a 0); lia.
Qed.

(** The sum of two integers is exact as long as the operands and the
    result stay below [2 ^ 53] in magnitude. *)
Lemma add_ofZ (a b : Z) :
  Z.abs a < 2 ^ 53 -> Z.abs b < 2 ^ 53 -> Z.abs (a + b) < 2 ^ 53 ->
  truncate (add (ofZ a) (ofZ b)) = a + b.
Proof.
  intros Ha Hb Hab.
  destruct (Z.eq_dec a 0) as [->|Hna].
  { change (ofZ 0) with (S754_zero false).
    destruct (Z.eq_dec b 0) as [->|Hnb]; [reflexivity|].
    destruct (ofZ_integer b Hnb Hb) as (m & e & Eb & _).
    unfold add. rewrite Eb. cbn [SFadd]. rewrite <- Eb.
    apply truncate_ofZ. exact Hb. }
  destruct (Z.eq_dec b 0) as [->|Hnb].
  { change (ofZ 0) with (S754_zero false).
    destruct (ofZ_integer a Hna Ha) as (m & e & Ea & _).
    unfold add. rewrite Ea. cbn [SFadd]. rewrite <- Ea, Z.add_0_r.
    apply truncate_ofZ. exact Ha. }
  destruct (ofZ_integer a Hna Ha) as (ma & ea & -> & Hea & Hma).
  destruct (ofZ_integer b Hnb Hb) as (mb & eb & -> & Heb & Hmb).
  unfold add, prec, emax. cbn [SFadd].
  set (ez := Z.min ea eb).
  assert (Hez : -52 <= ez <= 0) by (subst ez; lia).
  assert (Hp : 0 < 2 ^ (- ez)) by (apply Z.pow_pos_nonneg; lia).
  destruct (shl_align_spec ma ea ez ltac:(subst ez; lia)) as [HA _].
  destruct (shl_align_spec mb eb ez ltac:(subst ez; lia)) as [HB _].
  rewrite HA, HB, Hma, Hmb.
  rewrite <- !Z.mul_assoc, <- !Z.pow_add_r by lia.
  replace (- ea + (ea - ez)) with (- ez) by lia.
  replace (- eb + (eb - ez)) with (- ez) by lia.
  assert (HS : cond_Zopp (a <? 0) (Z.abs a * 2 ^ (- ez))
               + cond_Zopp (b <? 0) (Z.abs b * 2 ^ (- ez))
               = (a + b) * 2 ^ (- ez)).
  { unfold cond_Zopp.
    destruct (Z.ltb_spec a 0), (Z.ltb_spec b 0); nia. }
  rewrite HS.
  destruct ((a + b) * 2 ^ (- ez)) as [|M|M] eqn:ES; cbn [binary_normalize].
  - assert (E : a + b = 0) by nia. rewrite E. reflexivity.
  - assert (Hpos : 0 < a + b) by nia.
    destruct (a + b) as [|V|V] eqn:EV; try lia.
    destruct (binary_round_integer false M V ez) as (m & t & -> & _ & Ht & Hm);
      [lia | lia | simpl in Hab; lia |].
    rewrite (truncate_integer _ m t (Zpos V)) by (lia || exact Hm).
    reflexivity.
  - assert (Hneg : a + b < 0) by nia.
    destruct (a + b) as [|V|V] eqn:EV; try lia.
    destruct (binary_round_integer true M V ez) as (m & t & -> & _ & Ht & Hm);
      [lia | lia | simpl in Hab; lia |].
    rewrite (truncate_integer _ m t (Zpos V)) by (lia || exact Hm).
    reflexivity.
Qed.

End RoundingProofs.


(** ** [calculateImageDimensions] *)

Module DimensionsProofs.

Import Float64 Converter NumberSpec RoundingProofs.

Lemma Qdiv_pos (a b : Q) : (0 < a -> 0 < b -> 0 < a / b)%Q.
Proof.
  intros Ha Hb. unfold Qdiv. apply Qmult_lt_0_compat; [exact Ha|].
  apply Qinv_lt_0_compat. exact Hb.
Qed.

Lemma Qdiv_swap_le (k p r h : Q) :
  (0 < r -> 0 < h -> k * (p / r) <= h -> k * (p / h) <= r)%Q.
Proof.
  intros Hr Hh H.
  assert (H1 : (k * p <= h * r)%Q).
  { apply (Qmult_le_compat_r _ _ r) in H; [|lra].
    assert (E : (k * (p / r) * r == k * p)%Q) by (field; lra).
    rewrite E in H. exact H. }
  assert (E : (k * (p / h) == k * p / h)%Q) by (field; lra).
  rewrite E. apply Qle_shift_div_r; [exact Hh | lra].
Qed.

Lemma Qdiv_swap_ge (k p r h : Q) :
  (0 < r -> 0 < h -> h <= k * (p / r) -> r <= k * (p / h))%Q.
Proof.
  intros Hr Hh H.
  assert (H1 : (h * r <= k * p)%Q).
  { apply (Qmult_le_compat_r _ _ r) in H; [|lra].
    assert (E : (k * (p / r) * r == k * p)%Q) by (field; lra).
    rewrite E in H. exact H. }
  assert (E : (k * (p / h) == k * p / h)%Q) by (field; lra).
  rewrite E. apply Qle_shift_div_l; [exact Hh | lra].
Qed.

(** The scaling of one moderate size into another. *)
Lemma calculateImageDimensions_moderate
    (imgWidth imgHeight maxWidth maxHeight : number) :
  moderate imgWidth = true -> moderate imgHeight = true ->
  moderate maxWidth = true -> moderate maxHeight = true ->
  let d := calculateImageDimensions imgWidth imgHeight maxWidth maxHeight in
  (width d = maxWidth \/ height d = maxHeight) /\
  exists w h a b mw mh : Q,
    exact (width d) = Some w /\ exact (height d) = Some h /\
    exact imgWidth = Some a /\ exact imgHeight = Some b /\
    exact maxWidth = Some mw /\ exact maxHeight = Some mh /\
    (0 < w /\ w <= mw)%Q /\
    (0 < h /\ h <= mh)%Q /\
    (Qabs (w / h - a / b) <= (1 # 2 ^ 51) * (a / b))%Q.
Proof.
  intros Hiw Hih Hmw Hmh.
  destruct (moderate_spec _ Hiw) as (mi & ei & -> & Hdi & Hei).
  destruct (moderate_spec _ Hih) as (mj & ej & -> & Hdj & Hej).
  destruct (moderate_spec _ Hmw) as (mW & eW & -> & HdW & HeW).
  destruct (moderate_spec _ Hmh) as (mH & eH & -> & HdH & HeH).
  cbv zeta. unfold calculateImageDimensions.
  destruct (div_rounded mi mj ei ej Hdi Hdj ltac:(lia) ltac:(lia))
    as (mr & er & Hr & Hdr & Her & Hrb & _).
  rewrite Hr.
  destruct (div_rounded mW mr eW er HdW Hdr ltac:(lia) ltac:(lia))
    as (mh1 & eh1 & Hh & Hdh & Heh & Hhb & Hhmono).
  rewrite Hh.
  destruct (mul_rounded mH mr eH er HdH Hdr ltac:(lia) ltac:(lia))
    as (mw2 & ew2 & Hw & Hdw & Hew & Hwb & Hwmono).
  destruct (exact_value mi ei) as (a & Ea & Ha).
  destruct (exact_value mj ej) as (b & Eb & Hb).
  destruct (exact_value mW eW) as (mw & Emw & HMW).
  destruct (exact_value mH eH) as (mh & Emh & HMH).
  destruct (exact_value mh1 eh1) as (h1 & Eh1 & HH1).
  destruct (exact_value mw2 ew2) as (w2 & Ew2 & HW2).
  pose proof (value_pos mi ei) as Pa. pose proof (value_pos mj ej) as Pb.
  pose proof (value_pos mW eW) as PW. pose proof (value_pos mH eH) as PH.
  pose proof (value_pos mr er) as PR. pose proof (value_pos mh1 eh1) as Ph1.
  pose proof (value_pos mw2 ew2) as Pw2.
  set (A := value mi ei) in *. set (B := value mj ej) in *.
  set (MW := value mW eW) in *. set (MH := value mH eH) in *.
  set (R := value mr er) in *. set (H1 := value mh1 eh1) in *.
  set (W2 := value mw2 ew2) in *.
  assert (Pc : (0 < A / B)%Q) by (apply Qdiv_pos; assumption).
  set (c := (A / B)%Q) in *.
  assert (Hu : (u == 1 # 9007199254740992)%Q) by reflexivity.
  assert (H51 : ((1 # 2 ^ 51) == 1 # 2251799813685248)%Q) by reflexivity.
  destruct (gtb (S754_finite false mh1 eh1) (S754_finite false mH eH)) eqn:Hg.
  - (* the height exceeds the content area: scale by the height *)
    assert (Hgt : (MH < H1)%Q) by (apply (ltb_value mH mh1 eH eh1 HdH Hdh); exact Hg).
    rewrite Hw. cbn [width height].
    split; [right; reflexivity|].
    exists w2, mh, a, b, mw, mh.
    repeat (split; [assumption|]).
    assert (HRW : (MH * R <= MW)%Q).
    { destruct (Qlt_le_dec MW (MH * R)) as [Hlt|Hle]; [|exact Hle].
      exfalso.
      assert (Hq : (MW / R <= MH)%Q).
      { apply Qle_shift_div_r; [exact PR | lra]. }
      specialize (Hhmono mH eH HdH Hq). fold H1 MH in Hhmono. lra. }
    specialize (Hwmono mW eW HdW HRW). fold W2 MW in Hwmono.
    rewrite HW2, HMW, HMH, Ha, Hb. fold c.
    split; [split; lra|]. split; [split; lra|].
    assert (Hx : ((1 - u) * R <= W2 / MH /\ W2 / MH <= (1 + u) * R)%Q).
    { destruct Hwb as [Hlo Hhi]. split.
      - apply Qle_shift_div_l; [exact PH|].
        assert (E : ((1 - u) * R * MH == (1 - u) * (MH * R))%Q) by ring.
        rewrite E. exact Hlo.
      - apply Qle_shift_div_r; [exact PH|].
        assert (E : ((1 + u) * R * MH == (1 + u) * (MH * R))%Q) by ring.
        rewrite E. exact Hhi. }
    set (x := (W2 / MH)%Q) in *.
    apply Qabs_Qle_condition. rewrite H51. rewrite Hu in *. lra.
  - (* the height fits: the width is the width of the content area *)
    assert (Hle : (H1 <= MH)%Q).
    { destruct (Qlt_le_dec MH H1) as [Hlt|Hle]; [|exact Hle].
      apply (ltb_value mH mh1 eH eh1 HdH Hdh) in Hlt.
      unfold gtb in Hg. unfold ltb in Hlt. congruence. }
    cbn [width height].
    split; [left; reflexivity|].
    exists mw, h1, a, b, mw, mh.
    repeat (split; [assumption|]).
    rewrite HH1, HMW, HMH, Ha, Hb. fold c.
    split; [split; lra|]. split; [split; lra|].
    assert (Hx : ((1 - u) * (MW / H1) <= R /\ R <= (1 + u) * (MW / H1))%Q).
    { destruct Hhb as [Hlo Hhi]. split.
      - apply Qdiv_swap_le; assumption.
      - apply Qdiv_swap_ge; assumption. }
    set (x := (MW / H1)%Q) in *.
    apply Qabs_Qle_condition. rewrite H51. rewrite Hu in *. lra.
Qed.

(** Every content area the program scales into is of moderate size. *)
Lemma content_area_is_moderate (settings : PDFSettings) :
  moderate (Spec.contentWidth settings (ofZ 20)) = true /\
  moderate (Spec.contentHeight settings (ofZ 20)) = true.
Proof.
  destruct settings as [ps o q l]; destruct ps, o; vm_compute;
    split; reflexivity.
Qed.

(** C1, as amended: in the arithmetic of the program the scaled image
    fits the content area and touches one of its sides, and its aspect
    ratio is that of the image up to the two roundings on the way, a
    relative error of at most [2^-51]. *)
Theorem calculateImageDimensions_fits (imgWidth imgHeight : Z)
    (maxWidth maxHeight : number) :
  0 < imgWidth < 2 ^ 53 -> 0 < imgHeight < 2 ^ 53 ->
  moderate maxWidth = true -> moderate maxHeight = true ->
  let d := calculateImageDimensions (ofZ imgWidth) (ofZ imgHeight)
                                    maxWidth maxHeight in
  (width d = maxWidth \/ height d = maxHeight) /\
  exists w h mw mh : Q,
    exact (width d) = Some w /\ exact (height d) = Some h /\
    exact maxWidth = Some mw /\ exact maxHeight = Some mh /\
    (0 < w /\ w <= mw)%Q /\
    (0 < h /\ h <= mh)%Q /\
    (Qabs (w / h - inject_Z imgWidth / inject_Z imgHeight)
     <= (1 # 2 ^ 51) * (inject_Z imgWidth / inject_Z imgHeight))%Q.
Proof.
  intros Hw Hh Hmw Hmh.
  destruct (ofZ_moderate imgWidth Hw) as (Hiw & a & Ea & Ha).
  destruct (ofZ_moderate imgHeight Hh) as (Hih & b & Eb & Hb).
  destruct (calculateImageDimensions_moderate _ _ _ _ Hiw Hih Hmw Hmh)
    as (Hside & w & h & a' & b' & mw & mh & Ew & Eh & Ea' & Eb' & Emw & Emh
        & Hwb & Hhb & Hratio).
  cbv zeta. split; [exact Hside|].
  exists w, h, mw, mh.
  repeat (split; [assumption|]).
  rewrite Ea in Ea'. injection Ea' as <-.
  rewrite Eb in Eb'. injection Eb' as <-.
  rewrite Ha, Hb in Hratio. exact Hratio.
Qed.

Lemma calculateImageDimensions_fits_witness :
  0 < 6 < 2 ^ 53 /\ 0 < 5 < 2 ^ 53 /\
  moderate (ofZ 170) = true /\ moderate (ofZ 257) = true /\
  let d := calculateImageDimensions (ofZ 6) (ofZ 5) (ofZ 170) (ofZ 257) in
  (width d = ofZ 170 \/ height d = ofZ 257) /\
  exists w h mw mh : Q,
    exact (width d) = Some w /\ exact (height d) = Some h /\
    exact (ofZ 170) = Some mw /\ exact (ofZ 257) = Some mh /\
    (0 < w /\ w <= mw)%Q /\
    (0 < h /\ h <= mh)%Q /\
    (Qabs (w / h - inject_Z 6 / inject_Z 5)
     <= (1 # 2 ^ 51) * (inject_Z 6 / inject_Z 5))%Q.
Proof.
  assert (H6 : 0 < 6 < 2 ^ 53) by (split; reflexivity).
  assert (H5 : 0 < 5 < 2 ^ 53) by (split; reflexivity).
  assert (Hmw : moderate (ofZ 170) = true) by reflexivity.
  assert (Hmh : moderate (ofZ 257) = true) by reflexivity.
  repeat (split; [assumption|]).
  apply (calculateImageDimensions_fits 6 5 (ofZ 170) (ofZ 257) H6 H5 Hmw Hmh).
Defined.

(** C1 as stated fails in the program's arithmetic: for a 6 x 5 image in
    the 170 x 257 content area of an A4 portrait page the result is
    170 x 141.66666666666669, whose quotient is not 6/5, neither as
    computed by [/] nor exactly. *)
Lemma calculateImageDimensions_ratio_rounds :
  let d := calculateImageDimensions (ofZ 6) (ofZ 5) (ofZ 170) (ofZ 257) in
  width d = ofZ 170 /\
  height d = S754_finite false 4984452712584534 (-45) /\
  div (width d) (height d) <> div (ofZ 6) (ofZ 5) /\
  (forall w h : Q, exact (width d) = Some w -> exact (height d) = Some h ->
      ~ (w / h == 6 / 5)%Q).
Proof.
  vm_compute. repeat split; try discriminate.
  intros w h Ew Eh. injection Ew as <-. injection Eh as <-.
  vm_compute. discriminate.
Qed.

End DimensionsProofs.

(** ** [adjustBrightnessContrast] *)

Module PixelProofs.

Import Float64 Converter Spec.

Local Open Scope nat_scope.

(** A store of a function of the byte read at the same offset updates
    that byte, and does nothing past the end of the array. *)
Lemma write_read_alter (F : number -> number) (data : list Z) (i : nat) :
  writeByte data i (F (readByte data i))
  = alter (fun c => ToUint8Clamp (F (ofZ c))) i data.
Proof.
  unfold writeByte, readByte.
  revert i. induction data as [|c data IH]; intros [|i]; simpl; try reflexivity.
  f_equal. apply IH.
Qed.

Section Loop.

Variables brightness contrast : Z.

Local Abbreviation brightnessFactor := (factor brightness).
Local Abbreviation contrastFactor := (factor contrast).
Local Abbreviation h := (adjustByte brightness contrast).

Lemma adjustPixel_alter (data : list Z) (i : nat) :
  adjustPixel brightnessFactor contrastFactor data i
  = alter h i (alter h (i + 1) (alter h (i + 2) data)).
Proof.
  unfold adjustPixel, brighten, stretch.
  rewrite !(write_read_alter (fun v => clamp255 (mul v brightnessFactor))).
  rewrite !(write_read_alter
              (fun v => clamp255 (add (mul (sub v (ofZ 128)) contrastFactor)
                                      (ofZ 128)))).
  apply list_eq. intros j.
  destruct (decide (j = i)) as [->|];
    [| destruct (decide (j = i + 1)) as [->|];
       [| destruct (decide (j = i + 2)) as [->|]]];
    repeat first [ rewrite list_lookup_alter_eq
                 | rewrite list_lookup_alter_ne by lia ];
    try reflexivity;
    match goal with |- context [data !! ?k] => destruct (data !! k) end;
    reflexivity.
Qed.

(** Past the end of the array the loop stops. *)
Lemma adjustLoop_done (fuel i : nat) (data : list Z) :
  length data <= i ->
  adjustLoop fuel brightnessFactor contrastFactor i data = data.
Proof.
  intros Hi. destruct fuel; simpl; [reflexivity|].
  destruct (Nat.ltb_spec i (length data)); [lia | reflexivity].
Qed.

Lemma adjustAt_period (i : nat) (c : Z) :
  adjustAt brightness contrast (4 + i) c = adjustAt brightness contrast i c.
Proof.
  unfold adjustAt.
  replace ((4 + i) mod 4) with (i mod 4); [reflexivity|].
  change 4 with (1 * 4) at 2. rewrite Nat.add_comm.
  symmetry. apply Nat.Div0.mod_add.
Qed.

(** With the offsets below [length done] already treated, the loop
    treats the rest. *)
Lemma adjustLoop_imap (fuel : nat) (done rest : list Z) :
  length rest <= fuel ->
  adjustLoop fuel brightnessFactor contrastFactor (length done) (done ++ rest)
  = done ++ imap (adjustAt brightness contrast) rest.
Proof.
  revert done rest. induction fuel as [|fuel IH]; intros done rest Hfuel.
  - destruct rest; [reflexivity | simpl in Hfuel; lia].
  - simpl.
    destruct rest as [|c0 rest].
    { simpl. rewrite !app_nil_r.
      destruct (Nat.ltb_spec (length done) (length done)); [lia|].
      reflexivity. }
    destruct (Nat.ltb_spec (length done) (length (done ++ c0 :: rest)))
      as [_|Hge]; [|rewrite length_app in Hge; simpl in Hge; lia].
    rewrite adjustPixel_alter.
    rewrite (alter_app_r h done _ 2), (alter_app_r h done _ 1).
    rewrite (alter_app_r_alt h done _ (length done)) by lia.
    rewrite Nat.sub_diag.
    destruct rest as [|c1 [|c2 [|c3 rest]]]; simpl.
    + apply adjustLoop_done. rewrite length_app. simpl. lia.
    + apply adjustLoop_done. rewrite length_app. simpl. lia.
    + apply adjustLoop_done. rewrite length_app. simpl. lia.
    + specialize (IH (done ++ [h c0; h c1; h c2; c3]) rest).
      rewrite length_app in IH. simpl in IH.
      rewrite <- app_assoc in IH. simpl in IH.
      rewrite IH by (simpl in Hfuel; lia).
      rewrite <- app_assoc. simpl.
      apply (f_equal (app done)).
      do 4 (apply (f_equal2 cons); [reflexivity|]).
      apply imap_ext. intros i c _. simpl.
      symmetry. apply (adjustAt_period i c).
Qed.

End Loop.

(** What the loop leaves in the array. *)
Lemma adjustedPixels_imap (data : list Z) (b k : Z) :
  adjustedPixels data b k = imap (adjustAt b k) data.
Proof.
  apply (adjustLoop_imap b k (length data) [] data). reflexivity.
Qed.

(** The alpha byte of a pixel is at an offset the loop leaves alone. *)
Lemma alpha_offset (i : nat) : (i - i mod 4 + 3) mod 4 = 3.
Proof.
  pose proof (Nat.div_mod_eq i 4) as Hi.
  pose proof (Nat.mod_upper_bound i 4 ltac:(lia)) as Hm.
  replace (i - i mod 4 + 3) with (3 + i / 4 * 4) by lia.
  rewrite Nat.Div0.mod_add. reflexivity.
Qed.

Lemma adjustedPixels_opaque (data : list Z) (b k : Z) (i : nat) :
  opaque data i -> opaque (adjustedPixels data b k) i.
Proof.
  unfold opaque. rewrite adjustedPixels_imap, list_lookup_imap.
  intros ->. cbn [fmap option_fmap option_map]. unfold adjustAt.
  rewrite alpha_offset. reflexivity.
Qed.

(** In a browser that keeps opaque pixels, an opaque pixel of the canvas
    returned holds what the loop wrote. *)
Lemma adjustBrightnessContrast_opaque (env : Browser) (canvas : Canvas)
    (b k : Z) (i : nat) :
  keepsOpaquePixels env ->
  opaque (canvas_data canvas) i ->
  canvas_data (adjustBrightnessContrast env canvas b k) !! i
  = adjustAt b k i <$> canvas_data canvas !! i.
Proof.
  intros Hkeeps Hopaque. unfold adjustBrightnessContrast. cbn [canvas_data].
  rewrite (Hkeeps _ i (adjustedPixels_opaque _ b k i Hopaque)).
  rewrite adjustedPixels_imap, list_lookup_imap. reflexivity.
Qed.

(** The sample browser keeps opaque pixels. *)
Lemma stored_keeps_opaque : keepsOpaquePixels Samples.browser.
Proof.
  intros data i Hopaque. unfold opaque in Hopaque.
  cbn [putImageData Samples.browser]. unfold Samples.stored.
  rewrite list_lookup_imap, Hopaque.
  destruct (data !! i) as [c|]; [|reflexivity].
  cbn [fmap option_fmap option_map].
  destruct (i mod 4 =? 3); reflexivity.
Qed.




(** A pixel that is not opaque: the loop writes the same bytes, and a
    canvas that stores them premultiplied by its alpha of 63 gives 174
    back for 176. *)
Lemma translucent_pixel_comes_back_rounded :
  adjustedPixels [150; 150; 150; 63]%Z 1 100 = [176; 176; 176; 63]%Z /\
  canvas_data (adjustBrightnessContrast Samples.browser
                 (mkCanvas 1 1 [150; 150; 150; 63]) 1 100)%Z
  = [174; 174; 174; 63]%Z.
Proof. vm_compute. split; reflexivity. Qed.

End PixelProofs.

(** ** [rotateCanvas] *)

Module RotationProofs.

Import Float64 Converter.

(** The size of the rotated canvas is the bounding box as the source
    computes it, in binary64, with [Math.cos] and [Math.sin] of the
    rounded angle. *)
Lemma rotateCanvas_bounding_box (env : Browser) (canvas : Canvas) (d : Z) :
  let t := div (mul (ofZ d) Math_PI) (ofZ 180) in
  let w := ofZ (canvas_width canvas) in
  let h := ofZ (canvas_height canvas) in
  let rotated := rotateCanvas env canvas d in
  canvas_width rotated
  = toUnsignedLong
      (Math_ceil (add (mul w (Math_abs (Math_cos t)))
                      (mul h (Math_abs (Math_sin t))))) /\
  canvas_height rotated
  = toUnsignedLong
      (Math_ceil (add (mul w (Math_abs (Math_sin t)))
                      (mul h (Math_abs (Math_cos t))))).
Proof. split; reflexivity. Qed.

(** The values of the trigonometric functions at the quarter turns: none
    of the zeros is an exact zero. *)
Lemma quarter_turn_values :
  Math_cos (div (mul (ofZ 90) Math_PI) (ofZ 180))
  = S754_finite false 4967757600021511 (-106) /\
  Math_sin (div (mul (ofZ 180) Math_PI) (ofZ 180))
  = S754_finite false 4967757600021511 (-105) /\
  Math_cos (div (mul (ofZ 270) Math_PI) (ofZ 180))
  = S754_finite true 7451636400032266 (-105).
Proof. vm_compute. repeat split. Qed.

(** C3 at the right angles: the rounding residue of the cosine and sine
    is lifted to a whole pixel by [Math.ceil].  A half turn of a
    100 x 100 canvas gives 101 x 101, a quarter turn of a 4000 x 3000
    canvas gives 3001 x 4000 and three quarter turns of a 1920 x 1080
    canvas give 1081 x 1921. *)
Theorem rotateCanvas_right_angles_off_by_one (env : Browser)
    (data : list Z) :
  let size c := (canvas_width c, canvas_height c) in
  size (rotateCanvas env (mkCanvas 100 100 data) 180) = (101, 101) /\
  size (rotateCanvas env (mkCanvas 4000 3000 data) 90) = (3001, 4000) /\
  size (rotateCanvas env (mkCanvas 1920 1080 data) 270) = (1081, 1921).
Proof. vm_compute. repeat split. Qed.

End RotationProofs.

(** ** [rotateImage] and [rotateImageHandler] *)

Module RotateImageProofs.

(** What [rotateImage] computes: the truncated remainder of the
    binary64 sum, every other field untouched. *)
Lemma rotateImage_fields (img : Converter.ImageData) (d : Z) :
  let img' := Converter.rotateImage img d in
  Converter.rotation img'
  = Z.rem (Float64.truncate
             (Float64.add (Float64.ofZ (Converter.rotation img))
                          (Float64.ofZ d))) 360 /\
  Converter.id img' = Converter.id img /\
  Converter.file img' = Converter.file img /\
  Converter.preview img' = Converter.preview img /\
  Converter.name img' = Converter.name img /\
  Converter.dimensions img' = Converter.dimensions img /\
  Converter.brightness img' = Converter.brightness img /\
  Converter.contrast img' = Converter.contrast img.
Proof. repeat split; reflexivity. Qed.

(** Below [2 ^ 53] the sum is the sum of the integers. *)
Lemma rotateImage_exact (img : Converter.ImageData) (d : Z) :
  Z.abs (Converter.rotation img) < 2 ^ 53 -> Z.abs d < 2 ^ 53 ->
  Z.abs (Converter.rotation img + d) < 2 ^ 53 ->
  Converter.rotation (Converter.rotateImage img d)
  = Z.rem (Converter.rotation img + d) 360.
Proof.
  intros Hr Hd Hsum. unfold Converter.rotateImage. cbn [Converter.rotation].
  rewrite RoundingProofs.add_ofZ by assumption. reflexivity.
Qed.

(** For an increment that does not take the sum below zero the remainder
    is the residue modulo 360. *)
Lemma rotateImage_nonnegative (img : Converter.ImageData) (d : Z) :
  Z.abs (Converter.rotation img) < 2 ^ 53 -> Z.abs d < 2 ^ 53 ->
  0 <= Converter.rotation img + d < 2 ^ 53 ->
  Converter.rotation (Converter.rotateImage img d)
  = (Converter.rotation img + d) mod 360.
Proof.
  intros Hr Hd H. rewrite rotateImage_exact by lia.
  apply Z.rem_mod_nonneg; lia.
Qed.

(** From [2 ^ 53] on the sum is rounded: the rotation 1 and the
    increment [2 ^ 53] give 32, the remainder of [2 ^ 53], where the
    sum of the integers would give 33. *)
Lemma rotateImage_rounds_large_sums :
  Converter.rotation (Converter.rotateImage (Samples.fresh 1) (2 ^ 53)) = 32 /\
  Z.rem (1 + 2 ^ 53) 360 = 33.
Proof. vm_compute. split; reflexivity. Qed.

(** C9 at the counter-clockwise button: on an image that is not rotated,
    the increment -90 leaves the rotation at -90, outside [0, 360), where
    the residue modulo 360 is 270. *)
Theorem rotate_counter_clockwise_goes_negative :
  Converter.rotation (Converter.rotateImage (Samples.fresh 0) (-90)) = -90 /\
  Page.rotation
    <$> Page.images (Page.rotateImageHandler "a" (-90) (Samples.oneImage 0))
  = [-90] /\
  (0 + -90) mod 360 = 270.
Proof. vm_compute. repeat split. Qed.

End RotateImageProofs.

(** ** The conversion loops *)

Module LayoutProofs.

Import Float64 Converter Spec.

Section Runs.

Variable env : Browser.
Variable settings : PDFSettings.

Lemma onePerPageStep_run (i : nat) (image : ImageData) (w : World) :
  exists w',
    onePerPageStep env settings (getPageDimensions settings) (ofZ 20)
      (contentWidth settings (ofZ 20)) (contentHeight settings (ofZ 20))
      i image w = (Return tt, w') /\
    pdf_pages (pdf w')
    = onePerPagePages env settings i image (pdf_pages (pdf w)).
Proof.
  unfold onePerPageStep, onePerPagePages, tryCatch, bind, lift.
  destruct (processImage env image) as [canvas|e].
  2: { unfold logFailure, console_error. eexists; split; reflexivity. }
  change (toDataURL canvas "image/jpeg" (getQualityValue settings))
    with (encode settings canvas).
  unfold addImage, onePerPageOps, centred, caption.
  fold (fitted settings canvas).
  fold (centredX settings canvas). fold (centredY settings canvas).
  destruct (0 <? i)%nat; cbn [when addPage updatePdf ret];
    (destruct (addImageAccepts env (encode settings canvas));
     [|unfold throw, logFailure, console_error; eexists; split; reflexivity]).
  all: destruct (ltb _ _); simpl; eexists; split; reflexivity.
Qed.

Lemma convertOnePerPage_run (images : list ImageData) :
  forall (i : nat) (w : World),
  exists w',
    forEachIndexed
      (onePerPageStep env settings (getPageDimensions settings) (ofZ 20)
         (contentWidth settings (ofZ 20)) (contentHeight settings (ofZ 20)))
      i images w = (Return tt, w') /\
    pdf_pages (pdf w')
    = onePerPageRun env settings i images (pdf_pages (pdf w)).
Proof.
  induction images as [|image rest IH]; intros i w; simpl.
  - eexists; split; reflexivity.
  - destruct (onePerPageStep_run i image w) as (w1 & Hrun & Hpages).
    destruct (IH (S i) w1) as (w' & Hrest & Hpages').
    exists w'. unfold bind. rewrite Hrun, Hrest, Hpages', Hpages.
    split; reflexivity.
Qed.

Lemma multiplePerPageTurn_run (i : nat) (image : ImageData)
    (currentPage k : Z) (w : World) :
  exists currentPage' w',
    multiplePerPageTurn env settings (getPageDimensions settings) (ofZ 15)
      (cellWidth settings) (cellHeight settings) 2 2 i image currentPage k w
    = (Return (currentPage',
               snd (gridStep env settings i image (pdf_pages (pdf w), k))),
       w') /\
    pdf_pages (pdf w')
    = fst (gridStep env settings i image (pdf_pages (pdf w), k)).
Proof.
  unfold multiplePerPageTurn, gridStep, placeInGrid, tryCatch, bind, lift.
  cbn [fst snd].
  destruct (processImage env image) as [canvas|e].
  2: { unfold logFailure, console_error.
       destruct (k =? 0); [destruct (0 <? i)%nat|]; simpl;
         do 2 eexists; split; reflexivity. }
  change (toDataURL canvas "image/jpeg" (getQualityValue settings))
    with (encode settings canvas).
  unfold addImage, gridOps, inCell, caption.
  fold (cellX settings (Z.rem k 2)). fold (cellY settings (k / 2)).
  destruct (k =? 0); [destruct (0 <? i)%nat|];
    cbn [when addPage updatePdf ret];
    (destruct (addImageAccepts env (encode settings canvas));
     [|unfold throw, logFailure, console_error;
       do 2 eexists; split; reflexivity]).
  all: destruct (ltb _ _); simpl; do 2 eexists; split; reflexivity.
Qed.

Lemma multiplePerPageLoop_run (images : list ImageData) :
  forall (i : nat) (currentPage k : Z) (w : World),
  exists w',
    multiplePerPageLoop env settings (getPageDimensions settings) (ofZ 15)
      (cellWidth settings) (cellHeight settings) 2 2 i images currentPage k w
    = (Return tt, w') /\
    pdf_pages (pdf w')
    = fst (gridRun env settings i images (pdf_pages (pdf w), k)).
Proof.
  induction images as [|image rest IH]; intros i currentPage k w; simpl.
  - eexists; split; reflexivity.
  - destruct (multiplePerPageTurn_run i image currentPage k w)
      as (cp' & w1 & Hrun & Hpages).
    destruct (IH (S i) cp'
                 (snd (gridStep env settings i image (pdf_pages (pdf w), k)))
                 w1) as (w' & Hrest & Hpages').
    exists w'. unfold bind. rewrite Hrun. cbn [fst snd].
    rewrite Hrest, Hpages', Hpages.
    split; [reflexivity|].
    rewrite <- surjective_pairing. reflexivity.
Qed.

(** The grid cells of the source are those of the vocabulary:
    [margin * (cols - 1)] is the margin itself. *)
Lemma gutter_is_margin : mul (ofZ 15) (sub (ofZ 2) (ofZ 1)) = ofZ 15.
Proof. vm_compute. reflexivity. Qed.

Lemma convertToPDF_run (images : list ImageData) (log : list string) :
  images <> [] ->
  exists blob log',
    convertToPDF env settings images log = (Return blob, log') /\
    pdf_pages (blob_document blob) = converted env settings images.
Proof.
  intros Hne. unfold convertToPDF, converted.
  destruct images as [|image rest]; [congruence|].
  cbn [length Nat.eqb].
  destruct (layout settings).
  - destruct (convertOnePerPage_run (image :: rest) 0
                (mkWorld (createPDFDocument settings) log))
      as (w' & Hrun & Hpages).
    unfold convertOnePerPage.
    fold (contentWidth settings (ofZ 20)).
    fold (contentHeight settings (ofZ 20)).
    rewrite Hrun. do 2 eexists. split; [reflexivity|]. exact Hpages.
  - destruct (multiplePerPageLoop_run (image :: rest) 0 0 0
                (mkWorld (createPDFDocument settings) log))
      as (w' & Hrun & Hpages).
    unfold convertMultiplePerPage.
    rewrite gutter_is_margin.
    fold (contentWidth settings (ofZ 15)).
    fold (contentHeight settings (ofZ 15)).
    fold (cellWidth settings). fold (cellHeight settings).
    rewrite Hrun. do 2 eexists. split; [reflexivity|]. exact Hpages.
Qed.

(** *** Pages *)

Lemma drawOnCurrentPage_last (op : DrawOp) (before : list (list DrawOp))
    (page : list DrawOp) :
  drawOnCurrentPage op (before ++ [page]) = before ++ [page ++ [op]].
Proof.
  unfold drawOnCurrentPage. rewrite rev_app_distr. simpl.
  rewrite rev_involutive. reflexivity.
Qed.

Lemma drawAll_last (ops : list DrawOp) (before : list (list DrawOp))
    (page : list DrawOp) :
  drawAll ops (before ++ [page]) = before ++ [page ++ ops].
Proof.
  revert page. induction ops as [|op ops IH]; intros page; simpl.
  - rewrite app_nil_r. reflexivity.
  - rewrite drawOnCurrentPage_last. unfold drawAll in IH. rewrite IH.
    rewrite <- app_assoc. reflexivity.
Qed.

Lemma concat_drawOnCurrentPage (op : DrawOp) (pages : list (list DrawOp)) :
  concat (drawOnCurrentPage op pages) = concat pages ++ [op].
Proof.
  destruct pages as [|p pages _] using rev_ind; [reflexivity|].
  rewrite drawOnCurrentPage_last, !concat_app. simpl.
  rewrite !app_nil_r, app_assoc. reflexivity.
Qed.

Lemma concat_drawAll (ops : list DrawOp) (pages : list (list DrawOp)) :
  concat (drawAll ops pages) = concat pages ++ ops.
Proof.
  revert pages. induction ops as [|op ops IH]; intros pages; simpl.
  - rewrite app_nil_r. reflexivity.
  - unfold drawAll in IH. rewrite IH, concat_drawOnCurrentPage.
    rewrite <- app_assoc. reflexivity.
Qed.

Lemma concat_new_page (pages : list (list DrawOp)) :
  concat (pages ++ [[]]) = concat pages.
Proof. rewrite concat_app. simpl. apply app_nil_r. Qed.

Lemma caption_no_image (margin gap : number) (fontSize : Z)
    (image : ImageData) (x y h : number) :
  omap imageData (caption settings margin gap fontSize image x y h) = [].
Proof. unfold caption. destruct (ltb _ _); reflexivity. Qed.

Lemma caption_not_image (margin gap : number) (fontSize : Z)
    (image : ImageData) (x y h : number) :
  imagesOn (caption settings margin gap fontSize image x y h) = [].
Proof. unfold caption. destruct (ltb _ _); reflexivity. Qed.

(** *** Failed images leave no image behind *)

Lemma onePerPagePages_placed (i : nat) (image : ImageData)
    (pages : list (list DrawOp)) :
  omap imageData (concat (onePerPagePages env settings i image pages))
  = omap imageData (concat pages) ++ option_list (placed env settings image).
Proof.
  unfold onePerPagePages, placed.
  destruct (processImage env image) as [canvas|e];
    [|rewrite app_nil_r; reflexivity].
  assert (Hpages : concat (if (0 <? i)%nat then pages ++ [[]] else pages)
                   = concat pages)
    by (destruct (0 <? i)%nat; [apply concat_new_page | reflexivity]).
  destruct (addImageAccepts env (encode settings canvas)).
  - rewrite concat_drawAll, Hpages, omap_app. f_equal.
    unfold onePerPageOps, centred. cbn [omap list_omap imageData].
    rewrite caption_no_image. reflexivity.
  - rewrite Hpages, app_nil_r. reflexivity.
Qed.

Lemma onePerPageRun_placed (images : list ImageData) :
  forall (i : nat) (pages : list (list DrawOp)),
  omap imageData (concat (onePerPageRun env settings i images pages))
  = omap imageData (concat pages) ++ omap (placed env settings) images.
Proof.
  induction images as [|image rest IH]; intros i pages; simpl.
  - rewrite app_nil_r. reflexivity.
  - rewrite IH, onePerPagePages_placed, <- app_assoc. f_equal.
    destruct (placed env settings image); reflexivity.
Qed.

Lemma gridStep_placed (i : nat) (image : ImageData)
    (s : list (list DrawOp) * Z) :
  omap imageData (concat (fst (gridStep env settings i image s)))
  = omap imageData (concat (fst s)) ++ option_list (placed env settings image).
Proof.
  unfold gridStep, placed.
  set (pages := if snd s =? 0 then _ else _).
  assert (Hpages : concat pages = concat (fst s)).
  { subst pages. destruct (snd s =? 0); [|reflexivity].
    destruct (0 <? i)%nat; [apply concat_new_page | reflexivity]. }
  destruct (processImage env image) as [canvas|e]; cbn [fst];
    [|rewrite Hpages, app_nil_r; reflexivity].
  destruct (addImageAccepts env (encode settings canvas)); cbn [fst].
  - rewrite concat_drawAll, Hpages, omap_app. f_equal.
    unfold gridOps, inCell. cbn [omap list_omap imageData].
    rewrite caption_no_image. reflexivity.
  - rewrite Hpages, app_nil_r. reflexivity.
Qed.

Lemma gridRun_placed (images : list ImageData) :
  forall (i : nat) (s : list (list DrawOp) * Z),
  omap imageData (concat (fst (gridRun env settings i images s)))
  = omap imageData (concat (fst s)) ++ omap (placed env settings) images.
Proof.
  induction images as [|image rest IH]; intros i s; simpl.
  - rewrite app_nil_r. reflexivity.
  - rewrite IH, gridStep_placed, <- app_assoc. f_equal.
    destruct (placed env settings image); reflexivity.
Qed.

(** C4: whatever fails on single images, a list that is not empty
    converts to a document, and the images the document holds are
    exactly the successfully processed ones, in the order of the
    list. *)
Theorem convertToPDF_skips_failed_images (images : list ImageData)
    (log : list string) :
  images <> [] ->
  exists blob log',
    convertToPDF env settings images log = (Return blob, log') /\
    placedImages (blob_document blob) = omap (placed env settings) images.
Proof.
  intros Hne.
  destruct (convertToPDF_run images log Hne) as (blob & log' & Hrun & Hpages).
  exists blob, log'. split; [exact Hrun|].
  unfold placedImages. rewrite Hpages. unfold converted.
  destruct (layout settings).
  - rewrite onePerPageRun_placed. reflexivity.
  - rewrite gridRun_placed. reflexivity.
Qed.

(** C10: the promise rejects with the message of the empty list exactly
    when the list is empty, and resolves with a document otherwise. *)
Theorem convertToPDF_rejects_exactly_empty (images : list ImageData)
    (log : list string) :
  (fst (convertToPDF env settings images log)
   = Throw "No images provided for conversion" <-> images = []) /\
  (images <> [] ->
   exists blob, fst (convertToPDF env settings images log) = Return blob).
Proof.
  split; [split|].
  - intros Hthrow. destruct images as [|image rest]; [reflexivity|].
    destruct (convertToPDF_run (image :: rest) log) as (blob & log' & Hrun & _);
      [discriminate|].
    rewrite Hrun in Hthrow. discriminate.
  - intros ->. reflexivity.
  - intros Hne.
    destruct (convertToPDF_run images log Hne) as (blob & log' & Hrun & _).
    exists blob. rewrite Hrun. reflexivity.
Qed.

(** *** One image per page *)

Lemma placed_inv (image : ImageData) :
  is_Some (placed env settings image) ->
  exists canvas,
    processImage env image = Return canvas /\
    addImageAccepts env (encode settings canvas) = true.
Proof.
  unfold placed. intros [u Hu].
  destruct (processImage env image) as [canvas|e]; [|discriminate].
  exists canvas. split; [reflexivity|].
  destruct (addImageAccepts env (encode settings canvas));
    [reflexivity | discriminate].
Qed.

Lemma onePerPagePages_success (i : nat) (image : ImageData)
    (pages : list (list DrawOp)) :
  is_Some (placed env settings image) ->
  onePerPagePages env settings i image pages
  = drawAll (pageOf env settings image)
            (if (0 <? i)%nat then pages ++ [[]] else pages).
Proof.
  intros Hok. destruct (placed_inv image Hok) as (canvas & Hc & Ha).
  unfold onePerPagePages, pageOf. rewrite Hc, Ha. reflexivity.
Qed.

Lemma onePerPageRun_later (images : list ImageData) :
  Forall (fun image => is_Some (placed env settings image)) images ->
  forall (i : nat) (pages : list (list DrawOp)),
  (0 < i)%nat ->
  onePerPageRun env settings i images pages
  = pages ++ List.map (pageOf env settings) images.
Proof.
  induction 1 as [|image rest Hok _ IH]; intros i pages Hi; simpl.
  - rewrite app_nil_r. reflexivity.
  - rewrite onePerPagePages_success by exact Hok.
    destruct (Nat.ltb_spec 0 i) as [_|]; [|lia].
    rewrite drawAll_last, IH by lia.
    rewrite <- app_assoc. reflexivity.
Qed.

Lemma onePerPageRun_all (images : list ImageData) :
  Forall (fun image => is_Some (placed env settings image)) images ->
  images <> [] ->
  onePerPageRun env settings 0 images [[]]
  = List.map (pageOf env settings) images.
Proof.
  intros Hall Hne. destruct Hall as [|image rest Hok Hrest]; [congruence|].
  simpl. rewrite onePerPagePages_success by exact Hok. simpl.
  rewrite (drawAll_last _ [] []). simpl.
  rewrite onePerPageRun_later by (assumption || lia). reflexivity.
Qed.

Lemma imagesOn_pageOf (image : ImageData) (canvas : Canvas) :
  processImage env image = Return canvas ->
  imagesOn (pageOf env settings image) = [centred settings canvas].
Proof.
  intros Hc. unfold pageOf, onePerPageOps. rewrite Hc.
  unfold imagesOn. cbn [List.filter isImage centred].
  f_equal. apply caption_not_image.
Qed.

(** C5: when every image processes successfully under the
    one-per-page layout, the document has as many pages as the list
    has images, and page [i + 1] holds the image of index [i] alone,
    scaled to the content area of the 20 mm margins and centred in
    it. *)
Theorem convertOnePerPage_one_centred_image_per_page
    (images : list ImageData) (log : list string) :
  layout settings = one_per_page ->
  images <> [] ->
  Forall (fun image => is_Some (placed env settings image)) images ->
  exists blob log',
    convertToPDF env settings images log = (Return blob, log') /\
    length (pdf_pages (blob_document blob)) = length images /\
    forall (i : nat) (image : ImageData),
      images !! i = Some image ->
      exists canvas page,
        processImage env image = Return canvas /\
        pdf_pages (blob_document blob) !! i = Some page /\
        imagesOn page = [centred settings canvas].
Proof.
  intros Hlayout Hne Hall.
  destruct (convertToPDF_run images log Hne) as (blob & log' & Hrun & Hpages).
  exists blob, log'. split; [exact Hrun|].
  unfold converted in Hpages. rewrite Hlayout in Hpages.
  rewrite onePerPageRun_all in Hpages by assumption.
  rewrite Hpages. split; [apply length_map|].
  intros i image Hi.
  assert (Hok : is_Some (placed env settings image)).
  { rewrite Forall_forall in Hall. apply Hall.
    eapply list_elem_of_lookup_2. exact Hi. }
  destruct (placed_inv image Hok) as (canvas & Hc & _).
  exists canvas, (pageOf env settings image).
  split; [exact Hc|]. split.
  - change (List.map (pageOf env settings) images)
      with (pageOf env settings <$> images).
    rewrite list_lookup_fmap, Hi. reflexivity.
  - apply imagesOn_pageOf. exact Hc.
Qed.

(** *** Four images per page *)

Lemma gridRun_snoc (images : list ImageData) :
  forall (i : nat) (s : list (list DrawOp) * Z) (image : ImageData),
  gridRun env settings i (images ++ [image]) s
  = gridStep env settings (i + length images) image
      (gridRun env settings i images s).
Proof.
  induction images as [|x rest IH]; intros i s image; simpl.
  - rewrite Nat.add_0_r. reflexivity.
  - rewrite IH. f_equal. lia.
Qed.

Lemma gridStep_success (i : nat) (image : ImageData) (canvas : Canvas)
    (pages : list (list DrawOp)) (k : Z) :
  processImage env image = Return canvas ->
  addImageAccepts env (encode settings canvas) = true ->
  gridStep env settings i image (pages, k)
  = (drawAll (gridOps settings k image canvas)
       (if k =? 0 then (if (0 <? i)%nat then pages ++ [[]] else pages)
        else pages),
     if 4 <=? k + 1 then 0 else k + 1).
Proof.
  intros Hc Ha. unfold gridStep. cbn [fst snd]. rewrite Hc, Ha. reflexivity.
Qed.

Lemma imagesOn_app (page ops : list DrawOp) :
  imagesOn (page ++ ops) = imagesOn page ++ imagesOn ops.
Proof. apply List.filter_app. Qed.

Lemma imagesOn_gridOps (k : Z) (image : ImageData) (canvas : Canvas) :
  imagesOn (gridOps settings k image canvas)
  = [inCell settings canvas (Z.rem k 2) (k / 2)].
Proof.
  unfold gridOps, imagesOn. cbn [List.filter isImage inCell].
  f_equal. apply caption_not_image.
Qed.

(** Drawing on the last page keeps every image already drawn where it
    is. *)
Lemma draw_keeps (before : list (list DrawOp)) (last ops : list DrawOp)
    (p q : nat) (page : list DrawOp) (op : DrawOp) :
  (before ++ [last]) !! p = Some page ->
  imagesOn page !! q = Some op ->
  exists page',
    (before ++ [last ++ ops]) !! p = Some page' /\
    imagesOn page' !! q = Some op.
Proof.
  intros Hp Hq.
  destruct (decide (p < length before)%nat) as [Hlt|Hge].
  - exists page. split; [|exact Hq].
    rewrite lookup_app_l in Hp |- * by exact Hlt. exact Hp.
  - assert (p = length before) as ->.
    { apply lookup_lt_Some in Hp. rewrite length_app in Hp. simpl in Hp. lia. }
    rewrite list_lookup_middle in Hp by reflexivity.
    injection Hp as <-.
    exists (last ++ ops). split.
    + apply list_lookup_middle. reflexivity.
    + rewrite imagesOn_app. apply lookup_app_l_Some. exact Hq.
Qed.

Ltac divmod4 n :=
  pose proof (Nat.div_mod_eq n 4);
  pose proof (Nat.mod_upper_bound n 4 ltac:(lia)).

(** The state of the loop after a list of images that all process
    successfully: the slot counter, the shape of the pages, and where each
    image is. *)
Lemma gridRun_all (images : list ImageData) :
  Forall (fun image => is_Some (placed env settings image)) images ->
  let s := gridRun env settings 0 images ([[]], 0) in
  snd s = Z.of_nat (length images mod 4) /\
  (exists before last,
      fst s = before ++ [last] /\
      length before = ((length images - 1) / 4)%nat /\
      length (imagesOn last) = (length images - 4 * length before)%nat) /\
  (forall (j : nat) (image : ImageData),
      images !! j = Some image ->
      exists canvas page,
        processImage env image = Return canvas /\
        fst s !! (j / 4)%nat = Some page /\
        imagesOn page !! (j mod 4)%nat
        = Some (inCell settings canvas
                  (Z.of_nat (j mod 4 mod 2)) (Z.of_nat (j mod 4 / 2)))).
Proof.
  induction images as [|x l IH] using rev_ind; intros Hall.
  - simpl. split; [reflexivity|]. split.
    + exists [], []. repeat split.
    + intros j image Hj. rewrite lookup_nil in Hj. discriminate.
  - apply Forall_app in Hall as [Hl Hx].
    rewrite Forall_singleton in Hx.
    specialize (IH Hl). cbv zeta in IH |- *.
    rewrite gridRun_snoc. rewrite Nat.add_0_l.
    destruct (gridRun env settings 0 l ([[]], 0)) as [pages k].
    cbn [fst snd] in IH.
    destruct IH as (Hk & (before & last & Hpages & Hbefore & Hlast) & Hlook).
    destruct (placed_inv x Hx) as (canvas & Hc & Ha).
    rewrite (gridStep_success _ _ canvas) by assumption.
    cbn [fst snd]. rewrite length_app. cbn [length].
    set (n := length l) in *.
    divmod4 n. divmod4 (n - 1)%nat. divmod4 (n + 1)%nat.
    pose proof (Nat.div_mod_eq (n mod 4) 2) as Hrow.
    pose proof (Nat.mod_upper_bound (n mod 4) 2 ltac:(lia)) as Hcol.
    assert (Hop : inCell settings canvas (Z.rem k 2) (k / 2)
                  = inCell settings canvas
                      (Z.of_nat (n mod 4 mod 2)) (Z.of_nat (n mod 4 / 2))).
    { subst k. f_equal.
      - rewrite Z.rem_mod_nonneg by lia.
        change 2 with (Z.of_nat 2). rewrite <- Nat2Z.inj_mod. reflexivity.
      - change 2 with (Z.of_nat 2). rewrite <- Nat2Z.inj_div. reflexivity. }
    (* The pages the image is drawn on, and the page it lands on. *)
    assert (Hdrawn : exists before1 last1,
               (if k =? 0
                then (if (0 <? n)%nat then pages ++ [[]] else pages)
                else pages) = before1 ++ [last1] /\
               length before1 = (n / 4)%nat /\
               length (imagesOn last1) = (n mod 4)%nat /\
               forall p q page op,
                 pages !! p = Some page ->
                 imagesOn page !! q = Some op ->
                 forall ops, exists page',
                   (before1 ++ [last1 ++ ops]) !! p = Some page' /\
                   imagesOn page' !! q = Some op).
    { destruct (Z.eqb_spec k 0) as [Hz|Hnz].
      - destruct (Nat.ltb_spec 0 n) as [Hpos|Hzero].
        + exists pages, []. split; [reflexivity|].
          split; [rewrite Hpages, length_app; cbn [length]; lia|].
          split; [cbn [imagesOn List.filter length]; lia|].
          intros p q page op Hp Hq ops. exists page. split; [|exact Hq].
          apply lookup_app_l_Some. exact Hp.
        + exists before, last. split; [exact Hpages|].
          split; [lia|]. split; [lia|].
          intros p q page op Hp Hq ops. rewrite Hpages in Hp.
          eapply draw_keeps; eassumption.
      - exists before, last. split; [exact Hpages|].
        split; [lia|]. split; [lia|].
        intros p q page op Hp Hq ops. rewrite Hpages in Hp.
        eapply draw_keeps; eassumption. }
    destruct Hdrawn as (before1 & last1 & -> & Hb1 & Hl1 & Hkeep).
    rewrite drawAll_last.
    split; [|split].
    + destruct (Z.leb_spec 4 (k + 1)); lia.
    + exists before1, (last1 ++ gridOps settings k x canvas).
      split; [reflexivity|]. split; [replace (n + 1 - 1)%nat with n; lia|].
      rewrite imagesOn_app, length_app, imagesOn_gridOps. cbn [length]. lia.
    + intros j image Hj.
      destruct (decide (j < n)%nat) as [Hlt|Hge].
      * rewrite lookup_app_l in Hj by exact Hlt.
        destruct (Hlook j image Hj) as (c & page & Hpc & Hp & Hq).
        destruct (Hkeep _ _ _ _ Hp Hq (gridOps settings k x canvas))
          as (page' & Hp' & Hq').
        exists c, page'. split; [exact Hpc|]. split; assumption.
      * assert (j = n) as ->.
        { apply lookup_lt_Some in Hj. rewrite length_app in Hj.
          simpl in Hj. fold n in Hj. lia. }
        rewrite list_lookup_middle in Hj by reflexivity.
        injection Hj as <-.
        exists canvas, (last1 ++ gridOps settings k x canvas).
        split; [exact Hc|]. split.
        -- apply list_lookup_middle. symmetry. exact Hb1.
        -- rewrite imagesOn_app, imagesOn_gridOps, Hop.
           apply list_lookup_middle. symmetry. exact Hl1.
Qed.

(** C6: when every image processes successfully under the
    multiple-per-page layout, the image of index [i] is the image number
    [i mod 4] of page [i / 4 + 1], drawn in the cell of column
    [(i mod 4) mod 2] and row [(i mod 4) / 2] of the 2 x 2 grid, every
    cell being [(maxWidth - margin) / 2] wide and
    [(maxHeight - margin) / 2] high for the 15 mm margin; the document
    has [ceil (n / 4)] pages. *)
Theorem convertMultiplePerPage_grid (images : list ImageData)
    (log : list string) :
  layout settings = multiple_per_page ->
  images <> [] ->
  Forall (fun image => is_Some (placed env settings image)) images ->
  exists blob log',
    convertToPDF env settings images log = (Return blob, log') /\
    length (pdf_pages (blob_document blob)) = ((length images + 3) / 4)%nat /\
    forall (i : nat) (image : ImageData),
      images !! i = Some image ->
      exists canvas page,
        processImage env image = Return canvas /\
        pdf_pages (blob_document blob) !! (i / 4)%nat = Some page /\
        imagesOn page !! (i mod 4)%nat
        = Some (DrawImage (encode settings canvas) "JPEG"
                  (cellX settings (Z.of_nat (i mod 4 mod 2)))
                  (cellY settings (Z.of_nat (i mod 4 / 2)))
                  (div (sub (contentWidth settings (ofZ 15)) (ofZ 15)) (ofZ 2))
                  (div (sub (contentHeight settings (ofZ 15)) (ofZ 15)) (ofZ 2))).
Proof.
  intros Hlayout Hne Hall.
  destruct (convertToPDF_run images log Hne) as (blob & log' & Hrun & Hpages).
  exists blob, log'. split; [exact Hrun|].
  unfold converted in Hpages. rewrite Hlayout in Hpages.
  destruct (gridRun_all images Hall)
    as (_ & (before & last & Hshape & Hbefore & _) & Hlook).
  rewrite Hpages. split.
  - rewrite Hshape, length_app, Hbefore. cbn [length].
    destruct images as [|image rest]; [congruence|]. cbn [length].
    divmod4 (S (length rest) - 1)%nat. divmod4 (S (length rest) + 3)%nat.
    lia.
  - exact Hlook.
Qed.

End Runs.

Lemma convertToPDF_skips_failed_images_witness :
  let images := [Samples.picture "a"; Samples.picture "broken";
                 Samples.picture "c"] in
  let settings := Samples.a4 one_per_page in
  images <> [] /\
  exists blob log',
    convertToPDF Samples.browser settings images [] = (Return blob, log') /\
    placedImages (blob_document blob)
    = omap (placed Samples.browser settings) images.
Proof.
  split; [discriminate|].
  apply (convertToPDF_skips_failed_images Samples.browser
           (Samples.a4 one_per_page)).
  discriminate.
Defined.

Lemma convertToPDF_rejects_exactly_empty_witness :
  let images := [Samples.picture "a"] in
  let settings := Samples.a4 multiple_per_page in
  images <> [] /\
  exists blob,
    fst (convertToPDF Samples.browser settings images []) = Return blob.
Proof.
  split; [discriminate|].
  apply (convertToPDF_rejects_exactly_empty Samples.browser
           (Samples.a4 multiple_per_page)).
  discriminate.
Defined.

Lemma convertOnePerPage_one_centred_image_per_page_witness :
  let images := [Samples.picture "a"; Samples.picture "b"] in
  let settings := Samples.a4 one_per_page in
  layout settings = one_per_page /\
  images <> [] /\
  Forall (fun image => is_Some (placed Samples.browser settings image)) images /\
  exists blob log',
    convertToPDF Samples.browser settings images [] = (Return blob, log') /\
    length (pdf_pages (blob_document blob)) = length images /\
    forall (i : nat) (image : ImageData),
      images !! i = Some image ->
      exists canvas page,
        processImage Samples.browser image = Return canvas /\
        pdf_pages (blob_document blob) !! i = Some page /\
        imagesOn page = [centred settings canvas].
Proof.
  assert (H : Forall (fun image =>
                        is_Some (placed Samples.browser
                                   (Samples.a4 one_per_page) image))
                     [Samples.picture "a"; Samples.picture "b"]).
  { repeat (apply List.Forall_cons; [eexists; vm_compute; reflexivity|]).
    apply List.Forall_nil. }
  split; [reflexivity|]. split; [discriminate|]. split; [exact H|].
  apply (convertOnePerPage_one_centred_image_per_page Samples.browser
           (Samples.a4 one_per_page)
           [Samples.picture "a"; Samples.picture "b"] [] eq_refl);
    [discriminate | exact H].
Defined.

Lemma convertMultiplePerPage_grid_witness :
  let images := [Samples.picture "a"; Samples.picture "b"; Samples.picture "c";
                 Samples.picture "d"; Samples.picture "e"] in
  let settings := Samples.a4 multiple_per_page in
  layout settings = multiple_per_page /\
  images <> [] /\
  Forall (fun image => is_Some (placed Samples.browser settings image)) images /\
  exists blob log',
    convertToPDF Samples.browser settings images [] = (Return blob, log') /\
    length (pdf_pages (blob_document blob)) = 2%nat.
Proof.
  assert (H : Forall (fun image =>
                        is_Some (placed Samples.browser
                                   (Samples.a4 multiple_per_page) image))
                     [Samples.picture "a"; Samples.picture "b";
                      Samples.picture "c"; Samples.picture "d";
                      Samples.picture "e"]).
  { repeat (apply List.Forall_cons; [eexists; vm_compute; reflexivity|]).
    apply List.Forall_nil. }
  split; [reflexivity|]. split; [discriminate|]. split; [exact H|].
  destruct (convertMultiplePerPage_grid Samples.browser
              (Samples.a4 multiple_per_page)
              [Samples.picture "a"; Samples.picture "b"; Samples.picture "c";
               Samples.picture "d"; Samples.picture "e"] [] eq_refl)
    as (blob & log' & Hrun & Hlen & _); [discriminate | exact H |].
  exists blob, log'. split; [exact Hrun | exact Hlen].
Defined.

End LayoutProofs.

(** ** Upload validation *)

Module UploadProofs.

Import Page PageSpec.

Lemma rejectFile_None (f : File) :
  rejectFile f = None ->
  String.prefix "image/" (file_type f) = true /\ file_size f <= 10 * 1024 * 1024.
Proof.
  unfold rejectFile.
  destruct (String.prefix "image/" (file_type f)); simpl; [|discriminate].
  destruct (Z.ltb_spec (10 * 1024 * 1024) (file_size f)); [discriminate|].
  intros _. split; [reflexivity | lia].
Qed.

(** The filter keeps accepted files only, and no more files than it was
    given. *)
Lemma filterFiles_kept (files : list File) :
  forall error : option string,
  Forall (fun f => rejectFile f = None) (fst (filterFiles files error)) /\
  (length (fst (filterFiles files error)) <= length files)%nat.
Proof.
  induction files as [|f rest IH]; intros error; simpl.
  - split; [constructor | lia].
  - destruct (rejectFile f) eqn:Hf.
    + destruct (IH (Some s)) as [Hall Hlen]. split; [exact Hall | lia].
    + destruct (IH error) as [Hall Hlen].
      destruct (filterFiles rest error) as [validFiles error'].
      simpl in *. split; [constructor; assumption | lia].
Qed.

(** C7: [handleFileSelect] keeps the session invariant (every stored image
    has a MIME type starting with [image/] and at most 10 MiB, and there are
    at most 50 images), and a batch whose file count would take the total
    past 50 adds nothing. *)
Theorem handleFileSelect_keeps_invariant (env : Platform)
    (files : option (list File)) (st : State) :
  sessionInvariant (images st) ->
  sessionInvariant (images (handleFileSelect env files st)) /\
  (forall batch : list File,
      files = Some batch ->
      (50 < length (images st) + length batch)%nat ->
      images (handleFileSelect env files st) = images st).
Proof.
  intros [Hvalid Hcount].
  destruct files as [batch|]; simpl.
  2: { split; [split; assumption | intros batch [=]]. }
  destruct (Nat.ltb_spec 50 (length (images st) + length batch)) as [Hover|Hfits].
  - simpl. split; [split; assumption | reflexivity].
  - destruct (filterFiles_kept batch None) as [Hkept Hlen].
    destruct (filterFiles batch None) as [validFiles error'].
    simpl in Hkept, Hlen.
    split; [|intros b [= <-] Hb; lia].
    destruct (Nat.eqb_spec (length validFiles) 0) as [Hnone|Hsome]; simpl.
    + split; assumption.
    + split.
      * apply Forall_app. split; [exact Hvalid|].
        apply Forall_lookup. intros i img Hi.
        apply list_lookup_imap_Some in Hi as (f & Hf & ->).
        rewrite Forall_lookup in Hkept.
        destruct (rejectFile_None f (Hkept i f Hf)) as [Htype Hsize].
        split; simpl; assumption.
      * rewrite length_app, length_imap. lia.
Qed.

Lemma handleFileSelect_keeps_invariant_witness :
  sessionInvariant (images Samples.emptySession) /\
  sessionInvariant
    (images (handleFileSelect Samples.platform
               (Some [Samples.photo; Samples.notes; Samples.huge])
               Samples.emptySession)) /\
  (forall batch : list File,
      Some [Samples.photo; Samples.notes; Samples.huge] = Some batch ->
      (50 < length (images Samples.emptySession) + length batch)%nat ->
      images (handleFileSelect Samples.platform
                (Some [Samples.photo; Samples.notes; Samples.huge])
                Samples.emptySession)
      = images Samples.emptySession).
Proof.
  assert (H : sessionInvariant (images Samples.emptySession)).
  { split; [constructor | simpl; lia]. }
  split; [exact H|].
  apply (handleFileSelect_keeps_invariant Samples.platform
           (Some [Samples.photo; Samples.notes; Samples.huge])
           Samples.emptySession H).
Defined.

End UploadProofs.

(** ** Reordering by drag and drop *)

Module ReorderProofs.

Import Page PageSpec.

Lemma findIndexFrom_Some {A} (p : A -> bool) (l : list A) (x : A) :
  find p l = Some x ->
  forall k : Z,
  exists i : nat,
    findIndexFrom p l k = k + Z.of_nat i /\ l !! i = Some x /\ p x = true.
Proof.
  unfold find.
  induction l as [|a rest IH]; simpl; [discriminate|].
  destruct (p a) eqn:Ha; intros Hfind k.
  - injection Hfind as <-. exists 0%nat. repeat split; [lia | exact Ha].
  - destruct (IH Hfind (k + 1)) as (i & Hi & Hx & Hp).
    exists (S i). repeat split; [lia | exact Hx | exact Hp].
Qed.

Lemma findIndex_Some {A} (p : A -> bool) (l : list A) (x : A) :
  find p l = Some x ->
  exists i : nat,
    findIndex p l = Z.of_nat i /\ l !! i = Some x /\ p x = true.
Proof.
  intros Hfind. destruct (findIndexFrom_Some p l x Hfind 0) as (i & Hi & H).
  exists i. split; [exact Hi | exact H].
Qed.

(** [splice] removing one element, and [splice] inserting one. *)
Lemma splice_remove {A} (l : list A) (i : nat) :
  (i < length l)%nat ->
  splice l (Z.of_nat i) 1 [] = delete i l.
Proof.
  intros Hi. unfold splice.
  destruct (Z.ltb_spec (Z.of_nat i) 0); [lia|].
  rewrite Z.min_l by lia. rewrite Z.max_l by lia. rewrite Z.min_l by lia.
  rewrite Nat2Z.id. replace (Z.to_nat (Z.of_nat i + 1)) with (S i) by lia.
  simpl. symmetry. apply delete_take_drop.
Qed.

Lemma splice_insert {A} (l : list A) (i : nat) (x : A) :
  (i <= length l)%nat ->
  splice l (Z.of_nat i) 0 [x] = take i l ++ x :: drop i l.
Proof.
  intros Hi. unfold splice.
  destruct (Z.ltb_spec (Z.of_nat i) 0); [lia|].
  rewrite Z.min_l by lia. rewrite Z.max_l by lia. rewrite Z.min_l by lia.
  rewrite Z.add_0_r, Nat2Z.id. reflexivity.
Qed.

Lemma unordered_setOrder (i : nat) (img : ImageFile) :
  unordered (setOrder i img) = unordered img.
Proof. reflexivity. Qed.

Lemma unordered_imap (l : list ImageFile) :
  unordered <$> imap setOrder l = unordered <$> l.
Proof.
  apply list_eq. intros i.
  rewrite !list_lookup_fmap, list_lookup_imap.
  destruct (l !! i); reflexivity.
Qed.

(** The list the updater of [handleImageDrop] returns. *)
Lemma reorder_shape (dragged target : string) (prev : list ImageFile)
    (draggedImg targetImg : ImageFile) :
  dragged <> target ->
  find (hasId dragged) prev = Some draggedImg ->
  find (hasId target) prev = Some targetImg ->
  exists di ti : nat,
    findIndex (hasId dragged) prev = Z.of_nat di /\
    findIndex (hasId target) prev = Z.of_nat ti /\
    prev !! di = Some draggedImg /\
    prev !! ti = Some targetImg /\
    (ti <= length (delete di prev))%nat /\
    reorder dragged target prev
    = imap setOrder (take ti (delete di prev)
                     ++ draggedImg :: drop ti (delete di prev)).
Proof.
  intros Hne Hd Ht.
  destruct (findIndex_Some _ _ _ Hd) as (di & Hdi & Hdl & Hdp).
  destruct (findIndex_Some _ _ _ Ht) as (ti & Hti & Htl & Htp).
  exists di, ti.
  assert (Hdlt : (di < length prev)%nat) by (eapply lookup_lt_Some; eassumption).
  assert (Htlt : (ti < length prev)%nat) by (eapply lookup_lt_Some; eassumption).
  assert (Hlen : length (delete di prev) = (length prev - 1)%nat)
    by (apply length_delete; eauto).
  assert (Hle : (ti <= length (delete di prev))%nat) by lia.
  repeat (split; [assumption|]).
  unfold reorder. rewrite Hd, Ht, Hdi, Hti.
  rewrite splice_remove by exact Hdlt.
  rewrite splice_insert by exact Hle.
  reflexivity.
Qed.



End ReorderProofs.

(** * Further properties *)

(** ** Pixels *)

Module PixelExtras.

Import Float64 Converter Spec SpecExtras.

Lemma ToUint8Clamp_range (x : number) : 0 <= ToUint8Clamp x <= 255.
Proof.
  unfold ToUint8Clamp.
  destruct x as [s|s| |s m e]; try destruct s; try lia.
  destruct (Z.leb_spec 0 e).
  - assert (0 < 2 ^ e) by (apply Z.pow_pos_nonneg; lia). nia.
  - assert (Hd : 0 < 2 ^ (- e)) by (apply Z.pow_pos_nonneg; lia).
    pose proof (Z.div_pos (Z.pos m) (2 ^ (- e)) ltac:(lia) Hd).
    destruct (Z.leb_spec 255 (Z.pos m / 2 ^ (- e))); [lia|].
    destruct (2 * (Z.pos m mod 2 ^ (- e)) ?= 2 ^ (- e)); try lia.
    destruct (Z.even _); lia.
Qed.

(** A property checked on the 256 byte values holds of every byte. *)
Lemma forall_bytes (P : Z -> bool) :
  forallb P bytes = true -> forall c : Z, 0 <= c <= 255 -> P c = true.
Proof.
  intros Hall c Hc. rewrite forallb_forall in Hall. apply Hall.
  unfold bytes. apply List.in_map_iff. exists (Z.to_nat c).
  split; [lia|]. apply List.in_seq. lia.
Qed.

Lemma adjustByte_range (b k c : Z) : 0 <= adjustByte b k c <= 255.
Proof. unfold adjustByte. apply ToUint8Clamp_range. Qed.

(** X1: whatever the settings and whatever the array held, every colour
    byte [adjustBrightnessContrast] writes is a byte. *)
Theorem adjusted_colours_are_bytes (canvas : Canvas) (b k : Z)
    (i : nat) (v : Z) :
  adjustedPixels (canvas_data canvas) b k !! i = Some v ->
  (i mod 4 <> 3)%nat ->
  0 <= v <= 255.
Proof.
  rewrite PixelProofs.adjustedPixels_imap, list_lookup_imap. intros Hv Hi.
  destruct (canvas_data canvas !! i) as [c|]; [|discriminate].
  injection Hv as <-. unfold adjustAt.
  destruct (Nat.eqb_spec (i mod 4) 3); [contradiction|].
  apply adjustByte_range.
Qed.

Lemma adjusted_colours_are_bytes_witness :
  adjustedPixels (canvas_data (mkCanvas 1 1 [300; -7; 12; 255])) 80 40
    !! 0%nat = Some 255 /\
  (0 mod 4 <> 3)%nat /\
  0 <= 255 <= 255.
Proof.
  assert (H : adjustedPixels (canvas_data (mkCanvas 1 1 [300; -7; 12; 255]))
                80 40 !! 0%nat = Some 255) by (vm_compute; reflexivity).
  split; [exact H|]. split; [discriminate|].
  apply (adjusted_colours_are_bytes _ _ _ _ _ H). discriminate.
Defined.

Lemma neutral_byte (c : Z) : 0 <= c <= 255 -> adjustByte 0 0 c = c.
Proof.
  intros Hc.
  apply Z.eqb_eq.
  apply (forall_bytes (fun c => adjustByte 0 0 c =? c)); [|exact Hc].
  vm_compute. reflexivity.
Qed.

(** X2: with brightness 0 and contrast 0 the loop writes back the bytes
    it read, so the adjustment leaves a canvas of bytes exactly as it
    is, in a browser where putting back what was read changes
    nothing. *)
Theorem neutral_settings_change_nothing (env : Browser) (canvas : Canvas) :
  Forall (fun c => 0 <= c <= 255) (canvas_data canvas) ->
  adjustedPixels (canvas_data canvas) 0 0 = canvas_data canvas /\
  (putImageData env (canvas_data canvas) = canvas_data canvas ->
   adjustBrightnessContrast env canvas 0 0 = canvas).
Proof.
  intros Hbytes.
  assert (Hdata : adjustedPixels (canvas_data canvas) 0 0
                  = canvas_data canvas).
  { rewrite PixelProofs.adjustedPixels_imap. apply list_eq. intros i.
    rewrite list_lookup_imap.
    destruct (canvas_data canvas !! i) as [c|] eqn:Hc; [|reflexivity].
    simpl. f_equal. unfold adjustAt.
    destruct (i mod 4 =? 3)%nat; [reflexivity|].
    apply neutral_byte. rewrite Forall_lookup in Hbytes. eauto. }
  split; [exact Hdata|]. intros Hput.
  destruct canvas as [w h data]. unfold adjustBrightnessContrast.
  cbn [canvas_data canvas_width canvas_height] in *.
  rewrite Hdata, Hput. reflexivity.
Qed.

Lemma neutral_settings_change_nothing_witness :
  Forall (fun c => 0 <= c <= 255) (canvas_data Samples.pixel) /\
  putImageData Samples.browser (canvas_data Samples.pixel)
  = canvas_data Samples.pixel /\
  adjustBrightnessContrast Samples.browser Samples.pixel 0 0 = Samples.pixel.
Proof.
  assert (H : Forall (fun c => 0 <= c <= 255) (canvas_data Samples.pixel)).
  { repeat (apply List.Forall_cons; [lia|]). apply List.Forall_nil. }
  assert (Hput : putImageData Samples.browser (canvas_data Samples.pixel)
                 = canvas_data Samples.pixel) by reflexivity.
  split; [exact H|]. split; [exact Hput|].
  apply (proj2 (neutral_settings_change_nothing Samples.browser _ H) Hput).
Defined.

Lemma flat_byte (b c : Z) : adjustByte b (-100) c = 128.
Proof.
  unfold adjustByte.
  set (c1 := ToUint8Clamp (clamp255 (mul (ofZ c) (factor b)))).
  assert (Hc1 : 0 <= c1 <= 255) by apply ToUint8Clamp_range.
  apply Z.eqb_eq.
  apply (forall_bytes
           (fun c1 => ToUint8Clamp
                        (clamp255 (add (mul (sub (ofZ c1) (ofZ 128))
                                            (factor (-100)))
                                       (ofZ 128))) =? 128));
    [|exact Hc1].
  vm_compute. reflexivity.
Qed.

(** X3: at contrast -100 every colour byte the loop writes is 128,
    whatever the brightness and whatever the pixel was, and alpha is
    kept; in a browser that keeps opaque pixels, every opaque pixel of
    the canvas returned is that grey. *)
Theorem minimum_contrast_is_flat_grey (env : Browser) (canvas : Canvas)
    (b : Z) :
  adjustedPixels (canvas_data canvas) b (-100)
  = imap (fun i c => if (i mod 4 =? 3)%nat then c else 128)
         (canvas_data canvas) /\
  (keepsOpaquePixels env ->
   forall (i : nat) (c : Z),
     canvas_data canvas !! i = Some c ->
     opaque (canvas_data canvas) i ->
     canvas_data (adjustBrightnessContrast env canvas b (-100)) !! i
     = Some (if (i mod 4 =? 3)%nat then c else 128)).
Proof.
  split.
  - rewrite PixelProofs.adjustedPixels_imap. apply imap_ext. intros i c _.
    unfold adjustAt. destruct (i mod 4 =? 3)%nat; [reflexivity|].
    apply flat_byte.
  - intros Hkeeps i c Hc Hopaque.
    rewrite (PixelProofs.adjustBrightnessContrast_opaque env canvas b (-100) i
               Hkeeps Hopaque), Hc.
    cbn [fmap option_fmap option_map]. f_equal.
    unfold adjustAt. destruct (i mod 4 =? 3)%nat; [reflexivity|].
    apply flat_byte.
Qed.

Lemma minimum_contrast_is_flat_grey_witness :
  keepsOpaquePixels Samples.browser /\
  canvas_data Samples.pixel !! 1%nat = Some 150 /\
  opaque (canvas_data Samples.pixel) 1 /\
  canvas_data (adjustBrightnessContrast Samples.browser Samples.pixel
                 40 (-100)) !! 1%nat = Some 128.
Proof.
  assert (Hc : canvas_data Samples.pixel !! 1%nat = Some 150) by reflexivity.
  assert (Ho : opaque (canvas_data Samples.pixel) 1) by reflexivity.
  split; [exact PixelProofs.stored_keeps_opaque|].
  split; [exact Hc|]. split; [exact Ho|].
  apply (proj2 (minimum_contrast_is_flat_grey Samples.browser Samples.pixel 40)
               PixelProofs.stored_keeps_opaque 1%nat 150 Hc Ho).
Defined.

Lemma dark_byte (c : Z) :
  0 <= c <= 255 ->
  ToUint8Clamp (clamp255 (mul (ofZ c) (factor (-100)))) = 0.
Proof.
  intros Hc. apply Z.eqb_eq.
  apply (forall_bytes
           (fun c => ToUint8Clamp (clamp255 (mul (ofZ c) (factor (-100))))
                     =? 0));
    [|exact Hc].
  vm_compute. reflexivity.
Qed.

(** X4: at brightness -100 the colour of a pixel no longer matters: every
    colour byte the loop writes for a canvas of bytes is what the byte 0
    becomes, which for contrast 0 is 0 (black); in a browser that keeps
    opaque pixels, every opaque pixel of the canvas returned has that
    colour. *)
Theorem minimum_brightness_is_uniform (env : Browser) (canvas : Canvas)
    (k : Z) :
  Forall (fun c => 0 <= c <= 255) (canvas_data canvas) ->
  adjustedPixels (canvas_data canvas) (-100) k
  = imap (fun i c => if (i mod 4 =? 3)%nat then c
                     else adjustByte (-100) k 0)
         (canvas_data canvas) /\
  adjustByte (-100) 0 0 = 0 /\
  (keepsOpaquePixels env ->
   forall (i : nat) (c : Z),
     canvas_data canvas !! i = Some c ->
     opaque (canvas_data canvas) i ->
     canvas_data (adjustBrightnessContrast env canvas (-100) k) !! i
     = Some (if (i mod 4 =? 3)%nat then c else adjustByte (-100) k 0)).
Proof.
  intros Hbytes.
  assert (Hbyte : forall c, 0 <= c <= 255 ->
                    adjustByte (-100) k c = adjustByte (-100) k 0).
  { intros c Hc. unfold adjustByte.
    rewrite !dark_byte; [reflexivity | lia | exact Hc]. }
  split; [|split; [vm_compute; reflexivity|]].
  - rewrite PixelProofs.adjustedPixels_imap. apply list_eq. intros i.
    rewrite !list_lookup_imap.
    destruct (canvas_data canvas !! i) as [c|] eqn:Hc; [|reflexivity].
    unfold adjustAt. cbv beta.
    destruct (i mod 4 =? 3)%nat; [reflexivity|].
    cbn [fmap option_fmap option_map]. f_equal.
    apply Hbyte. rewrite Forall_lookup in Hbytes. eauto.
  - intros Hkeeps i c Hc Hopaque.
    rewrite (PixelProofs.adjustBrightnessContrast_opaque env canvas (-100) k i
               Hkeeps Hopaque), Hc.
    cbn [fmap option_fmap option_map]. f_equal.
    unfold adjustAt. destruct (i mod 4 =? 3)%nat; [reflexivity|].
    apply Hbyte. rewrite Forall_lookup in Hbytes. eauto.
Qed.

Lemma minimum_brightness_is_uniform_witness :
  Forall (fun c => 0 <= c <= 255) (canvas_data Samples.pixel) /\
  keepsOpaquePixels Samples.browser /\
  adjustedPixels (canvas_data Samples.pixel) (-100) 0 = [0; 0; 0; 255] /\
  canvas_data (adjustBrightnessContrast Samples.browser Samples.pixel
                 (-100) 0) !! 0%nat = Some 0.
Proof.
  assert (H : Forall (fun c => 0 <= c <= 255) (canvas_data Samples.pixel)).
  { repeat (apply List.Forall_cons; [lia|]). apply List.Forall_nil. }
  assert (Hc : canvas_data Samples.pixel !! 0%nat = Some 150) by reflexivity.
  assert (Ho : opaque (canvas_data Samples.pixel) 0) by reflexivity.
  split; [exact H|]. split; [exact PixelProofs.stored_keeps_opaque|].
  destruct (minimum_brightness_is_uniform Samples.browser Samples.pixel 0 H)
    as (-> & Hzero & Hcanvas).
  split; [simpl; rewrite Hzero; reflexivity|].
  rewrite (Hcanvas PixelProofs.stored_keeps_opaque 0%nat 150 Hc Ho).
  simpl. rewrite Hzero. reflexivity.
Defined.

End PixelExtras.

(** ** Layout *)

Module LayoutExtras.

Import Float64 Converter Spec SpecExtras LayoutProofs.

Section Layouts.

Variable env : Browser.
Variable settings : PDFSettings.

Lemma slots (k : Z) : 0 <= k < 4 -> k = 0 \/ k = 1 \/ k = 2 \/ k = 3.
Proof. lia. Qed.

Lemma next_slot (k : Z) :
  0 <= k < 4 -> 0 <= (if 4 <=? k + 1 then 0 else k + 1) < 4.
Proof. intros Hk. destruct (Z.leb_spec 4 (k + 1)); lia. Qed.

(** The caption test of the grid, computed for every page geometry. *)
Lemma grid_caption_texts (k : Z) (image : ImageData) (canvas : Canvas) :
  0 <= k < 4 ->
  omap textOf (gridOps settings k image canvas)
  = if k <? 2 then [name image] else [].
Proof.
  intros Hk. unfold gridOps, caption.
  destruct settings as [ps o q l]; destruct ps, o;
    destruct (slots k Hk) as [-> | [-> | [-> | -> ] ] ];
    vm_compute; reflexivity.
Qed.

Lemma grid_cells_within_margins (k : Z) (image : ImageData) (canvas : Canvas) :
  0 <= k < 4 ->
  forallb (withinMargins settings (ofZ 15)) (gridOps settings k image canvas)
  = true.
Proof.
  intros Hk. unfold gridOps, caption.
  destruct settings as [ps o q l]; destruct ps, o;
    destruct (slots k Hk) as [-> | [-> | [-> | -> ] ] ];
    vm_compute; reflexivity.
Qed.

Lemma concat_grid_pages (i : nat) (pages : list (list DrawOp)) (k : Z) :
  concat (if k =? 0 then (if (0 <? i)%nat then pages ++ [[]] else pages)
          else pages)
  = concat pages.
Proof.
  destruct (k =? 0); [|reflexivity].
  destruct (0 <? i)%nat; [apply concat_new_page | reflexivity].
Qed.

(** *** Captions of the grid *)

Lemma gridRun_texts (images : list ImageData) :
  Forall (fun image => is_Some (placed env settings image)) images ->
  forall (i j : nat) (pages : list (list DrawOp)),
  omap textOf
       (concat (fst (gridRun env settings i images (pages, Z.of_nat (j mod 4)))))
  = omap textOf (concat pages) ++ topRowNames j images.
Proof.
  induction 1 as [|image rest Hok _ IH]; intros i j pages.
  - simpl. rewrite app_nil_r. reflexivity.
  - destruct (placed_inv env settings image Hok) as (canvas & Hc & Ha).
    cbn [gridRun].
    rewrite (gridStep_success env settings i image canvas) by assumption.
    pose proof (Nat.mod_upper_bound j 4 ltac:(lia)) as Hj.
    pose proof (Nat.div_mod_eq j 4) as Hdj.
    pose proof (Nat.mod_upper_bound (S j) 4 ltac:(lia)) as HSj.
    pose proof (Nat.div_mod_eq (S j) 4) as HdSj.
    replace (if 4 <=? Z.of_nat (j mod 4) + 1 then 0
             else Z.of_nat (j mod 4) + 1)
      with (Z.of_nat (S j mod 4))
      by (destruct (Z.leb_spec 4 (Z.of_nat (j mod 4) + 1)); lia).
    rewrite IH.
    rewrite concat_drawAll, concat_grid_pages, omap_app, <- app_assoc.
    f_equal.
    rewrite grid_caption_texts by lia.
    unfold topRowNames. rewrite imap_cons. cbn [omap list_omap].
    rewrite Nat.add_0_r.
    assert (Himap : imap ((fun (n : nat) (image0 : ImageData) =>
                             if ((j + n) mod 4 <? 2)%nat
                             then Some (name image0) else None) ∘ S) rest
                    = imap (fun (n : nat) (image0 : ImageData) =>
                              if ((S j + n) mod 4 <? 2)%nat
                              then Some (name image0) else None) rest).
    { apply imap_ext. intros n x _. simpl.
      replace (j + S n)%nat with (S (j + n)) by lia. reflexivity. }
    rewrite Himap.
    destruct (Z.ltb_spec (Z.of_nat (j mod 4)) 2);
      destruct (Nat.ltb_spec (j mod 4) 2); try lia; reflexivity.
Qed.

(** X5: in the grid layout only the images of the top row get their name
    printed: when every image processes successfully, the texts of the
    document are the names of the images of index [i] with
    [i mod 4 < 2], in order. *)
Theorem grid_captions_top_row_only (images : list ImageData)
    (log : list string) :
  layout settings = multiple_per_page ->
  images <> [] ->
  Forall (fun image => is_Some (placed env settings image)) images ->
  exists blob log',
    convertToPDF env settings images log = (Return blob, log') /\
    texts (blob_document blob) = topRowNames 0 images.
Proof.
  intros Hlayout Hne Hall.
  destruct (convertToPDF_run env settings images log Hne)
    as (blob & log' & Hrun & Hpages).
  exists blob, log'. split; [exact Hrun|].
  unfold texts. rewrite Hpages. unfold converted. rewrite Hlayout.
  apply (gridRun_texts images Hall 0 0 [[]]).
Qed.

(** *** The grid and the margins *)

Lemma gridStep_within (i : nat) (image : ImageData)
    (pages : list (list DrawOp)) (k : Z) :
  0 <= k < 4 ->
  forallb (withinMargins settings (ofZ 15)) (concat pages) = true ->
  forallb (withinMargins settings (ofZ 15))
          (concat (fst (gridStep env settings i image (pages, k)))) = true /\
  0 <= snd (gridStep env settings i image (pages, k)) < 4.
Proof.
  intros Hk Hpages. unfold gridStep. cbn [fst snd].
  destruct (processImage env image) as [canvas|e]; cbn [fst snd].
  2: { rewrite concat_grid_pages. split; assumption. }
  destruct (addImageAccepts env (encode settings canvas)); cbn [fst snd].
  - rewrite concat_drawAll, concat_grid_pages, forallb_app, Hpages.
    rewrite grid_cells_within_margins by exact Hk.
    split; [reflexivity | apply next_slot; exact Hk].
  - rewrite concat_grid_pages. split; assumption.
Qed.

Lemma gridRun_within (images : list ImageData) :
  forall (i : nat) (pages : list (list DrawOp)) (k : Z),
  0 <= k < 4 ->
  forallb (withinMargins settings (ofZ 15)) (concat pages) = true ->
  forallb (withinMargins settings (ofZ 15))
          (concat (fst (gridRun env settings i images (pages, k)))) = true.
Proof.
  induction images as [|image rest IH]; intros i pages k Hk Hpages.
  - exact Hpages.
  - cbn [gridRun].
    destruct (gridStep_within i image pages k Hk Hpages) as [Hw Hk'].
    destruct (gridStep env settings i image (pages, k)) as [pages' k'].
    apply IH; assumption.
Qed.

(** X6: in the grid layout no image is ever drawn outside the 15 mm
    margins of the page, whichever images fail. *)
Theorem grid_images_within_margins (images : list ImageData)
    (log : list string) :
  layout settings = multiple_per_page ->
  images <> [] ->
  exists blob log',
    convertToPDF env settings images log = (Return blob, log') /\
    forall (page : list DrawOp) (op : DrawOp),
      page ∈ pdf_pages (blob_document blob) ->
      op ∈ page ->
      withinMargins settings (ofZ 15) op = true.
Proof.
  intros Hlayout Hne.
  destruct (convertToPDF_run env settings images log Hne)
    as (blob & log' & Hrun & Hpages).
  exists blob, log'. split; [exact Hrun|].
  intros page op Hpage Hop.
  pose proof (gridRun_within images 0 [[]] 0 ltac:(lia) eq_refl) as Hall.
  unfold converted in Hpages. rewrite Hlayout in Hpages.
  rewrite <- Hpages in Hall.
  rewrite forallb_forall in Hall. apply Hall.
  apply List.in_concat. exists page.
  split; apply list_elem_of_In; assumption.
Qed.

(** *** Captions, one image per page *)

Lemma no_room_for_caption (image : ImageData) (canvas : Canvas) :
  height (fitted settings canvas) = contentHeight settings (ofZ 20) ->
  caption settings (ofZ 20) (ofZ 10) 10 image
    (centredX settings canvas) (centredY settings canvas)
    (height (fitted settings canvas)) = [].
Proof.
  intros Hfull. unfold caption, centredY. rewrite Hfull.
  destruct settings as [ps o q l]; destruct ps, o; vm_compute; reflexivity.
Qed.

(** X7: one image per page, an image scaled to the full height of the
    content area gets no caption: its page holds the image and nothing
    else. *)
Theorem full_height_image_has_no_caption (images : list ImageData)
    (log : list string) (i : nat) (image : ImageData) (canvas : Canvas) :
  layout settings = one_per_page ->
  Forall (fun image => is_Some (placed env settings image)) images ->
  images !! i = Some image ->
  processImage env image = Return canvas ->
  height (fitted settings canvas) = contentHeight settings (ofZ 20) ->
  exists blob log',
    convertToPDF env settings images log = (Return blob, log') /\
    pdf_pages (blob_document blob) !! i = Some [centred settings canvas].
Proof.
  intros Hlayout Hall Hi Hc Hfull.
  assert (Hne : images <> []) by (intros ->; discriminate).
  destruct (convertToPDF_run env settings images log Hne)
    as (blob & log' & Hrun & Hpages).
  exists blob, log'. split; [exact Hrun|].
  rewrite Hpages. unfold converted. rewrite Hlayout.
  rewrite onePerPageRun_all by assumption.
  change (List.map (pageOf env settings) images)
    with (pageOf env settings <$> images).
  rewrite list_lookup_fmap, Hi. simpl. f_equal.
  unfold pageOf. rewrite Hc. unfold onePerPageOps.
  rewrite no_room_for_caption by exact Hfull. reflexivity.
Qed.

(** *** Pages, one image per page, with failures *)

Lemma length_drawAll (ops : list DrawOp) (pages : list (list DrawOp)) :
  (0 < length pages)%nat -> length (drawAll ops pages) = length pages.
Proof.
  intros Hne. destruct pages as [|p pages _] using rev_ind;
    [simpl in Hne; lia|].
  rewrite drawAll_last, !length_app. reflexivity.
Qed.

Lemma onePerPagePages_length (i : nat) (image : ImageData)
    (pages : list (list DrawOp)) :
  (0 < length pages)%nat ->
  (0 < i)%nat ->
  length (onePerPagePages env settings i image pages)
  = (length pages + (if processes env image then 1 else 0))%nat.
Proof.
  intros Hne Hi. unfold onePerPagePages, processes.
  destruct (Nat.ltb_spec 0 i) as [_|]; [|lia].
  destruct (processImage env image) as [canvas|e]; [|lia].
  destruct (addImageAccepts env (encode settings canvas)).
  - rewrite length_drawAll; rewrite length_app; cbn [length]; lia.
  - rewrite length_app. cbn [length]. lia.
Qed.

Lemma onePerPageRun_length (images : list ImageData) :
  forall (i : nat) (pages : list (list DrawOp)),
  (0 < length pages)%nat ->
  (0 < i)%nat ->
  length (onePerPageRun env settings i images pages)
  = (length pages + length (List.filter (processes env) images))%nat.
Proof.
  induction images as [|image rest IH]; intros i pages Hne Hi;
    cbn [onePerPageRun List.filter length].
  - lia.
  - pose proof (onePerPagePages_length i image pages Hne Hi) as Hlen.
    rewrite IH by lia. rewrite Hlen.
    destruct (processes env image); cbn [length]; lia.
Qed.

(** X8: one image per page, the first image is drawn on the page the
    document starts with and every later image that rasterises opens a page
    of its own, so the document has one page plus one for each later image
    that rasterises; a first image that fails leaves the first page
    blank. *)
Theorem onePerPage_page_count (first : ImageData) (rest : list ImageData)
    (log : list string) :
  layout settings = one_per_page ->
  exists blob log',
    convertToPDF env settings (first :: rest) log = (Return blob, log') /\
    length (pdf_pages (blob_document blob))
    = (1 + length (List.filter (processes env) rest))%nat /\
    (processes env first = false ->
     pdf_pages (blob_document blob) !! 0%nat = Some []).
Proof.
  intros Hlayout.
  destruct (convertToPDF_run env settings (first :: rest) log)
    as (blob & log' & Hrun & Hpages); [discriminate|].
  exists blob, log'. split; [exact Hrun|].
  rewrite Hpages. unfold converted. rewrite Hlayout. cbn [onePerPageRun].
  assert (Hfirst : exists page,
             onePerPagePages env settings 0 first [[]] = [page] /\
             (processes env first = false -> page = [])).
  { unfold onePerPagePages, processes.
    destruct (processImage env first) as [canvas|e];
      [|exists []; split; [reflexivity | reflexivity]].
    cbn [Nat.ltb Nat.leb].
    destruct (addImageAccepts env (encode settings canvas)).
    - rewrite (drawAll_last _ [] []). eexists. split; [reflexivity|].
      discriminate.
    - exists []. split; [reflexivity | discriminate]. }
  destruct Hfirst as (page & -> & Hblank).
  split.
  - rewrite onePerPageRun_length by (cbn [length]; lia). reflexivity.
  - intros Hfail. rewrite (Hblank Hfail).
    clear Hpages Hrun Hblank.
    assert (Hkeep : forall images i pages,
               (0 < i)%nat ->
               onePerPageRun env settings i images ([] :: pages) !! 0%nat
               = Some []).
    { induction images as [|image images IH]; intros i pages Hi; simpl.
      - reflexivity.
      - unfold onePerPagePages.
        destruct (Nat.ltb_spec 0 i) as [_|]; [|lia].
        destruct (processImage env image) as [canvas|e];
          [|apply IH; lia].
        destruct (addImageAccepts env (encode settings canvas)).
        + change (([] :: pages) ++ [[]]) with (([] :: pages) ++ [[]]).
          rewrite drawAll_last. simpl. apply IH. lia.
        + simpl. apply IH. lia. }
    apply Hkeep. lia.
Qed.

(** *** Capacity of a grid page *)

Lemma gridStep_capacity (i : nat) (image : ImageData)
    (before : list (list DrawOp)) (last : list DrawOp) (k : Z) :
  0 <= k < 4 ->
  Forall (fun page => (length (imagesOn page) <= 4)%nat) before ->
  (k <> 0 -> length (imagesOn last) = Z.to_nat k) ->
  (k = 0 -> i = 0%nat -> imagesOn last = []) ->
  (length (imagesOn last) <= 4)%nat ->
  exists before' last',
    fst (gridStep env settings i image (before ++ [last], k))
    = before' ++ [last'] /\
    Forall (fun page => (length (imagesOn page) <= 4)%nat) before' /\
    (length (imagesOn last') <= 4)%nat /\
    0 <= snd (gridStep env settings i image (before ++ [last], k)) < 4 /\
    (snd (gridStep env settings i image (before ++ [last], k)) <> 0 ->
     length (imagesOn last')
     = Z.to_nat (snd (gridStep env settings i image (before ++ [last], k)))).
Proof.
  intros Hk Hbefore Hcount Hstart Hlast.
  assert (Hpages : exists before1 last1,
             (if k =? 0
              then (if (0 <? i)%nat then (before ++ [last]) ++ [[]]
                    else before ++ [last])
              else before ++ [last]) = before1 ++ [last1] /\
             Forall (fun page => (length (imagesOn page) <= 4)%nat) before1 /\
             length (imagesOn last1) = Z.to_nat k).
  { destruct (Z.eqb_spec k 0) as [->|Hnz].
    - destruct (Nat.ltb_spec 0 i) as [Hpos|Hzero].
      + exists (before ++ [last]), []. split; [reflexivity|].
        split; [|reflexivity].
        apply Forall_app. split; [exact Hbefore|].
        apply Forall_singleton. exact Hlast.
      + exists before, last. split; [reflexivity|]. split; [exact Hbefore|].
        rewrite Hstart by lia. reflexivity.
    - exists before, last. split; [reflexivity|]. split; [exact Hbefore|].
      apply Hcount. exact Hnz. }
  destruct Hpages as (before1 & last1 & Hshape & Hb1 & Hl1).
  unfold gridStep. cbn [fst snd]. rewrite Hshape.
  destruct (processImage env image) as [canvas|e]; cbn [fst snd].
  2: { exists before1, last1. repeat split; try assumption; lia. }
  destruct (addImageAccepts env (encode settings canvas)); cbn [fst snd].
  2: { exists before1, last1. repeat split; try assumption; lia. }
  rewrite drawAll_last.
  exists before1, (last1 ++ gridOps settings k image canvas).
  assert (Hnew : length (imagesOn (last1 ++ gridOps settings k image canvas))
                 = S (Z.to_nat k)).
  { rewrite LayoutProofs.imagesOn_app, length_app,
      (LayoutProofs.imagesOn_gridOps settings).
    simpl. lia. }
  split; [reflexivity|]. split; [exact Hb1|].
  rewrite Hnew.
  destruct (Z.leb_spec 4 (k + 1)); repeat split; lia.
Qed.

Lemma gridRun_capacity (images : list ImageData) :
  forall (i : nat) (before : list (list DrawOp)) (last : list DrawOp) (k : Z),
  0 <= k < 4 ->
  Forall (fun page => (length (imagesOn page) <= 4)%nat) before ->
  (k <> 0 -> length (imagesOn last) = Z.to_nat k) ->
  (k = 0 -> i = 0%nat -> imagesOn last = []) ->
  (length (imagesOn last) <= 4)%nat ->
  Forall (fun page => (length (imagesOn page) <= 4)%nat)
         (fst (gridRun env settings i images (before ++ [last], k))).
Proof.
  induction images as [|image rest IH];
    intros i before last k Hk Hbefore Hcount Hstart Hlast.
  - simpl. apply Forall_app. split; [exact Hbefore|].
    apply Forall_singleton. exact Hlast.
  - cbn [gridRun].
    destruct (gridStep_capacity i image before last k
                Hk Hbefore Hcount Hstart Hlast)
      as (before' & last' & Hshape & Hb' & Hl' & Hk' & Hcount').
    destruct (gridStep env settings i image (before ++ [last], k))
      as [pages' k'].
    cbn [fst snd] in *. subst pages'.
    apply IH; try assumption. intros _ Hi. discriminate.
Qed.

(** X9: in the grid layout no page ever holds more than four images,
    whichever images fail. *)
Theorem grid_page_holds_at_most_four (images : list ImageData)
    (log : list string) :
  layout settings = multiple_per_page ->
  images <> [] ->
  exists blob log',
    convertToPDF env settings images log = (Return blob, log') /\
    Forall (fun page => (length (imagesOn page) <= 4)%nat)
           (pdf_pages (blob_document blob)).
Proof.
  intros Hlayout Hne.
  destruct (convertToPDF_run env settings images log Hne)
    as (blob & log' & Hrun & Hpages).
  exists blob, log'. split; [exact Hrun|].
  rewrite Hpages. unfold converted. rewrite Hlayout.
  apply (gridRun_capacity images 0 [] [] 0); try lia.
  - constructor.
  - reflexivity.
  - simpl. lia.
Qed.

(** *** The console *)

Lemma onePerPageStep_console (i : nat) (image : ImageData) (w : World) :
  Converter.console
    (snd (onePerPageStep env settings (getPageDimensions settings) (ofZ 20)
            (contentWidth settings (ofZ 20)) (contentHeight settings (ofZ 20))
            i image w))
  = Converter.console w ++ failureLog env settings image.
Proof.
  unfold onePerPageStep, failureLog, tryCatch, bind, lift.
  destruct (processImage env image) as [canvas|e].
  2: { reflexivity. }
  change (toDataURL canvas "image/jpeg" (getQualityValue settings))
    with (encode settings canvas).
  unfold addImage.
  destruct (0 <? i)%nat; cbn [when addPage updatePdf ret];
    (destruct (addImageAccepts env (encode settings canvas));
     [|reflexivity]).
  all: destruct (ltb _ _); simpl; rewrite app_nil_r; reflexivity.
Qed.

Lemma convertOnePerPage_console (images : list ImageData) :
  forall (i : nat) (w : World),
  Converter.console
    (snd (forEachIndexed
            (onePerPageStep env settings (getPageDimensions settings) (ofZ 20)
               (contentWidth settings (ofZ 20))
               (contentHeight settings (ofZ 20)))
            i images w))
  = Converter.console w ++ concat (List.map (failureLog env settings) images).
Proof.
  induction images as [|image rest IH]; intros i w; cbn [forEachIndexed].
  - simpl. rewrite app_nil_r. reflexivity.
  - pose proof (onePerPageStep_console i image w) as Hlog.
    destruct (onePerPageStep_run env settings i image w) as (w1 & Hrun & _).
    unfold bind. rewrite Hrun in Hlog |- *. cbn [snd] in Hlog.
    rewrite IH, Hlog. cbn [List.map concat].
    rewrite app_assoc. reflexivity.
Qed.

Lemma multiplePerPageTurn_console (i : nat) (image : ImageData)
    (currentPage k : Z) (w : World) :
  Converter.console
    (snd (multiplePerPageTurn env settings (getPageDimensions settings)
            (ofZ 15) (cellWidth settings) (cellHeight settings) 2 2
            i image currentPage k w))
  = Converter.console w ++ failureLog env settings image.
Proof.
  unfold multiplePerPageTurn, failureLog, placeInGrid, tryCatch, bind, lift.
  destruct (processImage env image) as [canvas|e].
  2: { destruct (k =? 0); [destruct (0 <? i)%nat|]; reflexivity. }
  change (toDataURL canvas "image/jpeg" (getQualityValue settings))
    with (encode settings canvas).
  unfold addImage.
  destruct (k =? 0); [destruct (0 <? i)%nat|];
    cbn [when addPage updatePdf ret];
    (destruct (addImageAccepts env (encode settings canvas));
     [|reflexivity]).
  all: destruct (ltb _ _); simpl; rewrite app_nil_r; reflexivity.
Qed.

Lemma multiplePerPageLoop_console (images : list ImageData) :
  forall (i : nat) (currentPage k : Z) (w : World),
  Converter.console
    (snd (multiplePerPageLoop env settings (getPageDimensions settings)
            (ofZ 15) (cellWidth settings) (cellHeight settings) 2 2
            i images currentPage k w))
  = Converter.console w ++ concat (List.map (failureLog env settings) images).
Proof.
  induction images as [|image rest IH]; intros i currentPage k w;
    cbn [multiplePerPageLoop].
  - simpl. rewrite app_nil_r. reflexivity.
  - pose proof (multiplePerPageTurn_console i image currentPage k w) as Hlog.
    destruct (multiplePerPageTurn_run env settings i image currentPage k w)
      as (cp' & w1 & Hrun & _).
    unfold bind. rewrite Hrun in Hlog |- *. cbn [snd] in Hlog.
    rewrite IH, Hlog. cbn [List.map concat].
    rewrite app_assoc. reflexivity.
Qed.

(** X10: a conversion writes to the console one line for each image that
    fails, naming the image and the failure, in the order of the list, and
    nothing for the images it places; an empty list writes nothing. *)
Theorem convertToPDF_logs_each_failure (images : list ImageData)
    (log : list string) :
  snd (convertToPDF env settings images log)
  = log ++ concat (List.map (failureLog env settings) images).
Proof.
  unfold convertToPDF.
  destruct images as [|image rest].
  { simpl. rewrite app_nil_r. reflexivity. }
  cbn [length Nat.eqb].
  destruct (layout settings).
  - pose proof (convertOnePerPage_console (image :: rest) 0
                  (mkWorld (createPDFDocument settings) log)) as Hlog.
    destruct (convertOnePerPage_run env settings (image :: rest) 0
                (mkWorld (createPDFDocument settings) log))
      as (w' & Hrun & _).
    unfold convertOnePerPage.
    fold (contentWidth settings (ofZ 20)).
    fold (contentHeight settings (ofZ 20)).
    rewrite Hrun in Hlog |- *. exact Hlog.
  - pose proof (multiplePerPageLoop_console (image :: rest) 0 0 0
                  (mkWorld (createPDFDocument settings) log)) as Hlog.
    destruct (multiplePerPageLoop_run env settings (image :: rest) 0 0 0
                (mkWorld (createPDFDocument settings) log))
      as (w' & Hrun & _).
    unfold convertMultiplePerPage.
    rewrite gutter_is_margin.
    fold (contentWidth settings (ofZ 15)).
    fold (contentHeight settings (ofZ 15)).
    fold (cellWidth settings). fold (cellHeight settings).
    rewrite Hrun in Hlog |- *. exact Hlog.
Qed.

End Layouts.

Lemma grid_captions_top_row_only_witness :
  let images := [Samples.picture "a"; Samples.picture "b"; Samples.picture "c";
                 Samples.picture "d"; Samples.picture "e"] in
  let settings := Samples.a4 multiple_per_page in
  layout settings = multiple_per_page /\
  images <> [] /\
  Forall (fun image => is_Some (placed Samples.browser settings image)) images /\
  exists blob log',
    convertToPDF Samples.browser settings images [] = (Return blob, log') /\
    texts (blob_document blob) = ["a"; "b"; "e"]%string.
Proof.
  assert (H : Forall (fun image =>
                        is_Some (placed Samples.browser
                                   (Samples.a4 multiple_per_page) image))
                     [Samples.picture "a"; Samples.picture "b";
                      Samples.picture "c"; Samples.picture "d";
                      Samples.picture "e"]).
  { repeat (apply List.Forall_cons; [eexists; vm_compute; reflexivity|]).
    apply List.Forall_nil. }
  split; [reflexivity|]. split; [discriminate|]. split; [exact H|].
  destruct (grid_captions_top_row_only Samples.browser
              (Samples.a4 multiple_per_page)
              [Samples.picture "a"; Samples.picture "b"; Samples.picture "c";
               Samples.picture "d"; Samples.picture "e"] [] eq_refl)
    as (blob & log' & Hrun & Htexts); [discriminate | exact H |].
  exists blob, log'. split; [exact Hrun | exact Htexts].
Defined.

Lemma grid_images_within_margins_witness :
  let images := [Samples.picture "a"; Samples.picture "broken"] in
  let settings := Samples.a4 multiple_per_page in
  layout settings = multiple_per_page /\
  images <> [] /\
  exists blob log',
    convertToPDF Samples.browser settings images [] = (Return blob, log') /\
    forall (page : list DrawOp) (op : DrawOp),
      page ∈ pdf_pages (blob_document blob) ->
      op ∈ page ->
      withinMargins settings (ofZ 15) op = true.
Proof.
  split; [reflexivity|]. split; [discriminate|].
  apply (grid_images_within_margins Samples.browser
           (Samples.a4 multiple_per_page)
           [Samples.picture "a"; Samples.picture "broken"] [] eq_refl).
  discriminate.
Defined.

Lemma full_height_image_has_no_caption_witness :
  let images := [Samples.picture "a"] in
  let settings := Samples.a4 one_per_page in
  layout settings = one_per_page /\
  Forall (fun image => is_Some (placed MoreSamples.gallery settings image))
         images /\
  images !! 0%nat = Some (Samples.picture "a") /\
  processImage MoreSamples.gallery (Samples.picture "a")
  = Return MoreSamples.tall /\
  height (fitted settings MoreSamples.tall) = contentHeight settings (ofZ 20) /\
  exists blob log',
    convertToPDF MoreSamples.gallery settings images [] = (Return blob, log') /\
    pdf_pages (blob_document blob) !! 0%nat
    = Some [centred settings MoreSamples.tall].
Proof.
  assert (H : Forall (fun image =>
                        is_Some (placed MoreSamples.gallery
                                   (Samples.a4 one_per_page) image))
                     [Samples.picture "a"]).
  { repeat (apply List.Forall_cons; [eexists; vm_compute; reflexivity|]).
    apply List.Forall_nil. }
  assert (Hfull : height (fitted (Samples.a4 one_per_page) MoreSamples.tall)
                  = contentHeight (Samples.a4 one_per_page) (ofZ 20))
    by (vm_compute; reflexivity).
  split; [reflexivity|]. split; [exact H|]. split; [reflexivity|].
  split; [reflexivity|]. split; [exact Hfull|].
  apply (full_height_image_has_no_caption MoreSamples.gallery
           (Samples.a4 one_per_page) [Samples.picture "a"] [] 0
           (Samples.picture "a") MoreSamples.tall
           eq_refl H eq_refl eq_refl Hfull).
Defined.

Lemma onePerPage_page_count_witness :
  let settings := Samples.a4 one_per_page in
  layout settings = one_per_page /\
  exists blob log',
    convertToPDF Samples.browser settings
      (Samples.picture "broken"
       :: [Samples.picture "a"; Samples.picture "broken"; Samples.picture "b"])
      [] = (Return blob, log') /\
    length (pdf_pages (blob_document blob)) = 3%nat /\
    pdf_pages (blob_document blob) !! 0%nat = Some [].
Proof.
  split; [reflexivity|].
  destruct (onePerPage_page_count Samples.browser (Samples.a4 one_per_page)
              (Samples.picture "broken")
              [Samples.picture "a"; Samples.picture "broken";
               Samples.picture "b"] [] eq_refl)
    as (blob & log' & Hrun & Hlen & Hblank).
  exists blob, log'. split; [exact Hrun|]. split; [exact Hlen|].
  apply Hblank. reflexivity.
Defined.

Lemma grid_page_holds_at_most_four_witness :
  let images := [Samples.picture "a"; Samples.picture "broken"] in
  let settings := Samples.a4 multiple_per_page in
  layout settings = multiple_per_page /\
  images <> [] /\
  exists blob log',
    convertToPDF Samples.browser settings images [] = (Return blob, log') /\
    Forall (fun page => (length (imagesOn page) <= 4)%nat)
           (pdf_pages (blob_document blob)).
Proof.
  split; [reflexivity|]. split; [discriminate|].
  apply (grid_page_holds_at_most_four Samples.browser
           (Samples.a4 multiple_per_page)
           [Samples.picture "a"; Samples.picture "broken"] [] eq_refl).
  discriminate.
Defined.

End LayoutExtras.

(** ** Rotation and editing *)

Module EditingExtras.

Import Page App.

Lemma rem_360 (a : Z) :
  -360 < Z.rem a 360 < 360 /\ (Z.rem a 360 - a) mod 360 = 0.
Proof.
  split.
  - pose proof (Z.rem_bound_abs a 360 ltac:(lia)). lia.
  - pose proof (Z.quot_rem' a 360) as H.
    replace (Z.rem a 360 - a) with ((- (a ÷ 360)) * 360) by lia.
    apply Z.mod_mul. lia.
Qed.



(** X12: the Reset All button sets the rotation of its image to 0 but
    negates its brightness and its contrast: it resets them only when they
    are 0 already. *)
Theorem resetAll_negates_brightness_and_contrast (s : Session) (i : nat)
    (image : ImageFile) :
  images (state s) !! i = Some image ->
  -100 <= brightness image <= 100 ->
  -100 <= contrast image <= 100 ->
  exists image',
    images (state (resetAll image s)) !! i = Some image' /\
    rotation image' = 0 /\
    brightness image' = - brightness image /\
    contrast image' = - contrast image.
Proof.
  intros Hi Hb Hc. unfold resetAll, adjustContrastHandler,
    adjustBrightnessHandler, rotateImageHandler, withState. simpl.
  change (@List.map) with (@fmap list _).
  rewrite !list_lookup_fmap, Hi.
  cbn [fmap option_fmap option_map]. rewrite String.eqb_refl.
  cbn [id setRotation]. rewrite String.eqb_refl.
  cbn [id setBrightness]. rewrite String.eqb_refl.
  eexists. split; [reflexivity|].
  cbn [rotation brightness contrast setContrast setBrightness setRotation].
  rewrite Z.add_opp_diag_r. unfold Editing.clampPercent.
  repeat split; lia.
Qed.

Lemma resetAll_negates_brightness_and_contrast_witness :
  let image := Samples.entry "a" 0 90 in
  let bright := setBrightness 40 image in
  let s := mkSession (mkState [bright] custom None None None None) asc ∅ None
             false (Samples.a4 Converter.one_per_page) "x" [] [] [] in
  images (state s) !! 0%nat = Some bright /\
  -100 <= brightness bright <= 100 /\
  -100 <= contrast bright <= 100 /\
  exists image',
    images (state (resetAll bright s)) !! 0%nat = Some image' /\
    rotation image' = 0 /\
    brightness image' = -40 /\
    contrast image' = 0.
Proof.
  cbv zeta.
  split; [reflexivity|]. split; [simpl; lia|]. split; [simpl; lia|].
  apply (resetAll_negates_brightness_and_contrast
           (mkSession (mkState [setBrightness 40 (Samples.entry "a" 0 90)]
                         custom None None None None) asc ∅ None
              false (Samples.a4 Converter.one_per_page) "x" [] [] [])
           0 (setBrightness 40 (Samples.entry "a" 0 90)) eq_refl);
    simpl; lia.
Defined.

End EditingExtras.

(** ** The session *)

Module SessionExtras.

Import Page PageSpec App SessionSpec.

(** *** Uploads *)

Lemma filterFiles_filter (files : list File) :
  forall e : option string,
  fst (filterFiles files e) = List.filter accepted files.
Proof.
  induction files as [|f rest IH]; intros e; simpl; [reflexivity|].
  unfold accepted at 1. destruct (rejectFile f) as [m|].
  - apply IH.
  - specialize (IH e). destruct (filterFiles rest e) as [v e'].
    simpl in *. f_equal. exact IH.
Qed.

Lemma last_cons_or {A} (x : A) (l : list A) :
  last (x :: l) = match last l with Some y => Some y | None => Some x end.
Proof.
  destruct l as [|y l]; [reflexivity|].
  change (last (x :: y :: l)) with (last (y :: l)).
  destruct (last (y :: l)) eqn:E; [reflexivity|].
  apply last_None in E. discriminate.
Qed.

Lemma filterFiles_error (files : list File) :
  forall e : option string,
  snd (filterFiles files e)
  = match last (omap rejectFile files) with
    | Some m => Some m
    | None => e
    end.
Proof.
  induction files as [|f rest IH]; intros e; [reflexivity|].
  assert (Homap : omap rejectFile (f :: rest)
                  = match rejectFile f with
                    | Some m => m :: omap rejectFile rest
                    | None => omap rejectFile rest
                    end) by reflexivity.
  rewrite Homap. cbn [filterFiles].
  destruct (rejectFile f) as [m|].
  - rewrite IH, last_cons_or.
    destruct (last (omap rejectFile rest)); reflexivity.
  - specialize (IH e). destruct (filterFiles rest e) as [v e'].
    cbn [snd] in *. exact IH.
Qed.

Lemma handleFileSelect_images (env : Platform) (batch : list File)
    (st : State) :
  (length (images st) + length batch <= 50)%nat ->
  images (handleFileSelect env (Some batch) st)
  = images st
    ++ imap (newImage env (length (images st))) (List.filter accepted batch).
Proof.
  intros Hfits. unfold handleFileSelect.
  cbn [images error setError setSuccess].
  destruct (Nat.ltb_spec 50 (length (images st) + length batch)); [lia|].
  pose proof (filterFiles_filter batch None) as Hvalid.
  destruct (filterFiles batch None) as [validFiles error'].
  cbn [fst] in Hvalid. subst validFiles.
  destruct (Nat.eqb_spec (length (List.filter accepted batch)) 0) as [Hnone|_].
  - apply length_zero_iff_nil in Hnone. rewrite Hnone. simpl.
    rewrite app_nil_r. reflexivity.
  - reflexivity.
Qed.

(** X13: an upload within the limit never touches the images already
    stored: it appends one entry for each accepted file of the batch, in
    the order of the batch, with rotation, brightness and contrast 0 and
    the next free positions as [order]. *)
Theorem upload_appends_the_accepted_files (env : Platform)
    (batch : list File) (st : State) :
  (length (images st) + length batch <= 50)%nat ->
  images (handleFileSelect env (Some batch) st)
  = images st
    ++ imap (newImage env (length (images st))) (List.filter accepted batch).
Proof. apply handleFileSelect_images. Qed.

Lemma upload_appends_the_accepted_files_witness :
  let batch := [Samples.notes; Samples.photo; Samples.huge; Samples.photo] in
  (length (images (Samples.oneImage 0)) + length batch <= 50)%nat /\
  file <$> images (handleFileSelect Samples.platform (Some batch)
                     (Samples.oneImage 0))
  = [Samples.photo; Samples.photo; Samples.photo] /\
  order <$> images (handleFileSelect Samples.platform (Some batch)
                      (Samples.oneImage 0))
  = [0; 1; 2].
Proof.
  cbv zeta.
  assert (H : (length (images (Samples.oneImage 0))
               + length [Samples.notes; Samples.photo; Samples.huge;
                         Samples.photo] <= 50)%nat) by (simpl; lia).
  split; [exact H|].
  rewrite (upload_appends_the_accepted_files Samples.platform _ _ H).
  split; reflexivity.
Defined.

(** X14: after an upload within the limit the error shown is the message
    of the last rejected file of the batch, none if every file was
    accepted; the accepted files are stored all the same, and the success
    message is shown exactly when at least one file was accepted. *)
Theorem upload_reports_the_last_rejected_file (env : Platform)
    (batch : list File) (st : State) :
  (length (images st) + length batch <= 50)%nat ->
  error (handleFileSelect env (Some batch) st)
  = last (omap rejectFile batch) /\
  (success (handleFileSelect env (Some batch) st) = None
   <-> List.filter accepted batch = []).
Proof.
  intros Hfits. unfold handleFileSelect.
  cbn [images error setError setSuccess].
  destruct (Nat.ltb_spec 50 (length (images st) + length batch)); [lia|].
  pose proof (filterFiles_filter batch None) as Hvalid.
  pose proof (filterFiles_error batch None) as Herror.
  destruct (filterFiles batch None) as [validFiles error'].
  cbn [fst snd] in Hvalid, Herror. subst validFiles.
  assert (He : error' = last (omap rejectFile batch))
    by (rewrite Herror; destruct (last (omap rejectFile batch)); reflexivity).
  destruct (Nat.eqb_spec (length (List.filter accepted batch)) 0) as [Hnone|Hsome].
  - cbn [error success setError]. split; [exact He|].
    apply length_zero_iff_nil in Hnone. split; [intros _; exact Hnone|].
    reflexivity.
  - cbn [error success setError setSuccess setImages]. split; [exact He|].
    split; [discriminate|].
    intros Hnil. rewrite Hnil in Hsome. contradiction.
Qed.

Lemma upload_reports_the_last_rejected_file_witness :
  let batch := [Samples.notes; Samples.photo; Samples.huge] in
  (length (images Samples.emptySession) + length batch <= 50)%nat /\
  error (handleFileSelect Samples.platform (Some batch) Samples.emptySession)
  = Some "File big.jpg exceeds 10MB limit"%string /\
  success (handleFileSelect Samples.platform (Some batch) Samples.emptySession)
  = Some "Successfully uploaded 1 image"%string.
Proof.
  cbv zeta.
  assert (H : (length (images Samples.emptySession)
               + length [Samples.notes; Samples.photo; Samples.huge]
               <= 50)%nat) by (simpl; lia).
  split; [exact H|].
  destruct (upload_reports_the_last_rejected_file Samples.platform
              [Samples.notes; Samples.photo; Samples.huge]
              Samples.emptySession H) as [-> _].
  split; reflexivity.
Defined.

(** *** Selection and removal *)

(** X15: selecting is a toggle: the same checkbox twice leaves the session
    as it was. *)
Theorem toggleImageSelection_twice (wanted : string) (s : Session) :
  toggleImageSelection wanted (toggleImageSelection wanted s) = s.
Proof.
  destruct s as [st so sel ed conv pdf name rev con dl].
  unfold toggleImageSelection, setSelectedImages. cbn.
  f_equal.
  destruct (decide (wanted ∈ sel)) as [Hin|Hout].
  - rewrite (bool_decide_eq_true_2 _ Hin).
    rewrite bool_decide_eq_false_2 by set_solver.
    apply set_eq. intros x. destruct (decide (x = wanted)); set_solver.
  - rewrite (bool_decide_eq_false_2 _ Hout).
    rewrite bool_decide_eq_true_2 by set_solver.
    set_solver.
Qed.

Lemma same_id_same_image (l : list ImageFile) (a b : ImageFile) :
  NoDup (id <$> l) -> a ∈ l -> b ∈ l -> id a = id b -> a = b.
Proof.
  intros Hnodup Ha Hb Hid.
  apply list_elem_of_lookup in Ha as [i Hi].
  apply list_elem_of_lookup in Hb as [j Hj].
  assert (i = j).
  { apply (NoDup_lookup (id <$> l) i j (id a)); [exact Hnodup| |].
    - rewrite list_lookup_fmap, Hi. reflexivity.
    - rewrite list_lookup_fmap, Hj, Hid. reflexivity. }
  subst j. congruence.
Qed.

(** X16: [removeImage] leaves no image with the given identifier, keeps
    every other image, deselects the identifier and, when identifiers are
    unique, releases the preview of the image it removes. *)
Theorem removeImage_removes_and_releases (wanted : string) (s : Session) :
  let s' := removeImage wanted s in
  (forall img, img ∈ images (state s') <->
               img ∈ images (state s) /\ id img <> wanted) /\
  (wanted ∉ selectedImages s') /\
  (NoDup (id <$> images (state s)) ->
   forall img, img ∈ images (state s) -> img ∉ images (state s') ->
               preview img ∈ revoked s').
Proof.
  cbv zeta. unfold removeImage. cbn.
  assert (Hmem : forall img,
             img ∈ List.filter (fun img => negb (hasId wanted img))
                               (images (state s))
             <-> img ∈ images (state s) /\ id img <> wanted).
  { intros img. rewrite !list_elem_of_In, List.filter_In.
    unfold hasId. destruct (String.eqb_spec (id img) wanted); simpl.
    - split; [intros [_ H]; discriminate | intros [_ H]; contradiction].
    - split; intros [H _]; split; auto. }
  split; [exact Hmem|]. split; [set_solver|].
  intros Hnodup img Hin Hgone.
  assert (Hid : id img = wanted).
  { destruct (String.eqb_spec (id img) wanted) as [E|N]; [exact E|].
    exfalso. apply Hgone. apply Hmem. split; assumption. }
  destruct (find (hasId wanted) (images (state s))) as [first|] eqn:Hfind.
  - unfold find in Hfind. apply List.find_some in Hfind as [Hfirst Hhas].
    unfold hasId in Hhas. apply String.eqb_eq in Hhas.
    assert (first = img) as ->.
    { apply (same_id_same_image (images (state s))); try assumption.
      - apply list_elem_of_In. exact Hfirst.
      - congruence. }
    set_solver.
  - unfold find in Hfind.
    pose proof (List.find_none _ _ Hfind img
                  (proj1 (list_elem_of_In _ _) Hin)) as Hno.
    unfold hasId in Hno. rewrite Hid, String.eqb_refl in Hno. discriminate.
Qed.

(** X17: [removeSelectedImages] removes exactly the selected images,
    releases the preview of each of them and empties the selection. *)
Theorem removeSelectedImages_removes_and_releases (s : Session) :
  let s' := removeSelectedImages s in
  (forall img, img ∈ images (state s') <->
               img ∈ images (state s) /\ id img ∉ selectedImages s) /\
  (forall img, img ∈ images (state s) -> id img ∈ selectedImages s ->
               preview img ∈ revoked s') /\
  selectedImages s' = ∅.
Proof.
  cbv zeta. unfold removeSelectedImages. cbn.
  split; [|split; [|reflexivity]].
  - intros img. rewrite !list_elem_of_In, List.filter_In.
    unfold isSelected.
    destruct (decide (id img ∈ selectedImages s)) as [Hin|Hout].
    + rewrite (bool_decide_eq_true_2 _ Hin). simpl.
      split; [intros [_ H]; discriminate | intros [_ H]; contradiction].
    + rewrite (bool_decide_eq_false_2 _ Hout). simpl.
      split; intros [H _]; split; auto.
  - intros img Hin Hsel. apply elem_of_app. right.
    apply list_elem_of_In, List.in_map, List.filter_In.
    split; [apply list_elem_of_In; exact Hin|].
    unfold isSelected. apply bool_decide_eq_true_2. exact Hsel.
Qed.

Lemma removeImage_removes_and_releases_witness :
  let s := MoreSamples.album in
  NoDup (id <$> images (state s)) /\
  Samples.entry "b" 1 0 ∈ images (state s) /\
  (Samples.entry "b" 1 0 ∉ images (state (removeImage "b" s))) /\
  preview (Samples.entry "b" 1 0) ∈ revoked (removeImage "b" s).
Proof.
  cbv zeta.
  destruct (removeImage_removes_and_releases "b" MoreSamples.album)
    as (Hmem & _ & Hrel).
  assert (Hnodup : NoDup (id <$> images (state MoreSamples.album))).
  { apply (bool_decide_unpack _). vm_compute. exact I. }
  assert (Hin : Samples.entry "b" 1 0 ∈ images (state MoreSamples.album)).
  { apply list_elem_of_In. simpl. tauto. }
  assert (Hout : Samples.entry "b" 1 0
                 ∉ images (state (removeImage "b" MoreSamples.album))).
  { intros H. apply Hmem in H as [_ H]. apply H. reflexivity. }
  repeat (split; [assumption|]).
  apply (Hrel Hnodup _ Hin Hout).
Defined.

Lemma removeSelectedImages_removes_and_releases_witness :
  let s := MoreSamples.album in
  Samples.entry "c" 2 0 ∈ images (state s) /\
  id (Samples.entry "c" 2 0) ∈ selectedImages s /\
  preview (Samples.entry "c" 2 0) ∈ revoked (removeSelectedImages s) /\
  selectedImages (removeSelectedImages s) = ∅.
Proof.
  cbv zeta.
  destruct (removeSelectedImages_removes_and_releases MoreSamples.album)
    as (_ & Hrel & Hempty).
  assert (Hin : Samples.entry "c" 2 0 ∈ images (state MoreSamples.album)).
  { apply list_elem_of_In. simpl. tauto. }
  assert (Hsel : id (Samples.entry "c" 2 0)
                 ∈ selectedImages MoreSamples.album).
  { simpl. unfold MoreSamples.album. simpl.
    apply elem_of_union. right. apply elem_of_singleton. reflexivity. }
  repeat (split; [assumption|]).
  split; [apply (Hrel _ Hin Hsel) | exact Hempty].
Defined.

(** *** Sorting *)

Lemma insertSorted_perm {A} (compare : A -> A -> Z) (a : A) (l : list A) :
  insertSorted compare a l ≡ₚ a :: l.
Proof.
  induction l as [|b rest IH]; simpl; [reflexivity|].
  destruct (0 <? compare a b); [|reflexivity].
  rewrite IH. apply Permutation_swap.
Qed.

Lemma Array_sort_perm {A} (compare : A -> A -> Z) (l : list A) :
  Array_sort compare l ≡ₚ l.
Proof.
  induction l as [|a rest IH]; simpl; [reflexivity|].
  rewrite insertSorted_perm, IH. reflexivity.
Qed.

(** X18: whatever the criterion, the direction and the collation, the
    list shown holds exactly the images stored: sorting drops none and
    repeats none. *)
Theorem sortedImages_shows_every_image (host : Host) (s : Session) :
  sortedImages host s ≡ₚ images (state s).
Proof.
  unfold sortedImages. destruct (sortBy (state s)); apply Array_sort_perm.
Qed.

Lemma insertSorted_sorted {A} (f : A -> Z) (compare : A -> A -> Z) :
  (forall a b, compare a b = f a - f b) ->
  forall (a : A) (l : list A),
  StronglySorted (fun a b => f a <= f b) l ->
  StronglySorted (fun a b => f a <= f b) (insertSorted compare a l).
Proof.
  intros Hcompare a l Hsorted.
  induction Hsorted as [|b rest Hrest IH Hb]; simpl.
  - constructor; constructor.
  - rewrite Hcompare. destruct (Z.ltb_spec 0 (f a - f b)).
    + constructor; [exact IH|].
      rewrite insertSorted_perm. constructor; [lia | exact Hb].
    + constructor; [constructor; assumption|].
      constructor; [lia|].
      eapply List.Forall_impl; [|exact Hb]. simpl. intros x Hx. lia.
Qed.

Lemma Array_sort_sorted {A} (f : A -> Z) (compare : A -> A -> Z)
    (l : list A) :
  (forall a b, compare a b = f a - f b) ->
  StronglySorted (fun a b => f a <= f b) (Array_sort compare l).
Proof.
  intros Hcompare. induction l as [|a rest IH]; simpl.
  - constructor.
  - apply insertSorted_sorted; assumption.
Qed.

(** X19: for every criterion but the name, the list shown is in order:
    ascending by size, upload time or pixel area, descending when the
    direction is [desc], and always ascending by [order] for the custom
    criterion. *)
Theorem sortedImages_in_order (host : Host) (s : Session) :
  sortBy (state s) <> by_name ->
  StronglySorted (fun a b => sortKey s a <= sortKey s b) (sortedImages host s).
Proof.
  intros Hkey. unfold sortedImages.
  destruct (sortBy (state s)) eqn:Hby; [congruence| | | |];
    apply Array_sort_sorted; intros a b; unfold sortKey, comparison;
    rewrite Hby; destruct (sortOrder s); lia.
Qed.

Lemma sortedImages_in_order_witness :
  let s := withState (setSortBy by_size) MoreSamples.album in
  sortBy (state s) <> by_name /\
  StronglySorted (fun a b => sortKey s a <= sortKey s b)
                 (sortedImages MoreSamples.host s).
Proof.
  cbv zeta.
  assert (H : sortBy (state (withState (setSortBy by_size) MoreSamples.album))
              <> by_name) by discriminate.
  split; [exact H|].
  apply (sortedImages_in_order MoreSamples.host _ H).
Defined.

Lemma sorted_by_lookup {A} (R : A -> A -> Prop) (l : list A) :
  (forall (i j : nat) (a b : A),
      (i < j)%nat -> l !! i = Some a -> l !! j = Some b -> R a b) ->
  StronglySorted R l.
Proof.
  induction l as [|x rest IH]; intros Hlookup; constructor.
  - apply IH. intros i j a b Hij Ha Hb.
    apply (Hlookup (S i) (S j) a b); [lia | exact Ha | exact Hb].
  - apply List.Forall_forall. intros y Hy.
    apply list_elem_of_In, list_elem_of_lookup in Hy as [j Hj].
    apply (Hlookup 0%nat (S j) x y); [lia | reflexivity | exact Hj].
Qed.

Lemma Array_sort_sorted_id {A} (compare : A -> A -> Z) (l : list A) :
  StronglySorted (fun a b => compare a b <= 0) l ->
  Array_sort compare l = l.
Proof.
  induction 1 as [|a rest Hrest IH Ha]; simpl; [reflexivity|].
  rewrite IH. destruct rest as [|b rest]; [reflexivity|]. simpl.
  apply List.Forall_inv in Ha.
  destruct (Z.ltb_spec 0 (compare a b)); [lia | reflexivity].
Qed.

(** X20: after a drop that reorders, the list shown under the custom
    order, to which the drop switches, is the stored list itself. *)
Theorem after_a_drop_the_view_is_the_list (host : Host) (s : Session)
    (dragged target : string) (draggedImg targetImg : ImageFile) :
  draggedImage (state s) = Some dragged ->
  dragged <> ""%string ->
  dragged <> target ->
  find (hasId dragged) (images (state s)) = Some draggedImg ->
  find (hasId target) (images (state s)) = Some targetImg ->
  let s' := withState (handleImageDrop target) s in
  sortBy (state s') = custom /\
  sortedImages host s' = images (state s').
Proof.
  intros Hdrag Hnonempty Hne Hd Ht.
  destruct (ReorderProofs.reorder_shape dragged target (images (state s))
              draggedImg targetImg Hne Hd Ht)
    as (di & ti & _ & _ & _ & _ & _ & Hshape).
  assert (Hstate : handleImageDrop target (state s)
                   = setSortBy custom
                       (setDragOverImage None
                          (setDraggedImage None
                             (setImages (reorder dragged target) (state s))))).
  { unfold handleImageDrop. rewrite Hdrag.
    destruct (String.eqb_spec dragged ""); [congruence|].
    destruct (String.eqb_spec dragged target); [congruence|].
    reflexivity. }
  cbv zeta. unfold sortedImages, withState. cbn [state].
  rewrite Hstate. cbn [sortBy images setSortBy setDragOverImage
                        setDraggedImage setImages].
  split; [reflexivity|].
  rewrite Hshape. apply Array_sort_sorted_id. apply sorted_by_lookup.
  intros i j a b Hij Ha Hb.
  apply list_lookup_imap_Some in Ha as (x & _ & ->).
  apply list_lookup_imap_Some in Hb as (y & _ & ->).
  simpl. lia.
Qed.

Lemma after_a_drop_the_view_is_the_list_witness :
  let s := withState (setDraggedImage (Some "a"%string)) MoreSamples.album in
  draggedImage (state s) = Some "a"%string /\
  "a"%string <> ""%string /\
  "a"%string <> "c"%string /\
  find (hasId "a") (images (state s)) = Some (Samples.entry "a" 0 0) /\
  find (hasId "c") (images (state s)) = Some (Samples.entry "c" 2 0) /\
  id <$> sortedImages MoreSamples.host (withState (handleImageDrop "c") s)
  = ["b"; "c"; "a"]%string.
Proof.
  cbv zeta.
  assert (Hne1 : "a"%string <> ""%string) by discriminate.
  assert (Hne2 : "a"%string <> "c"%string) by discriminate.
  repeat (split; [first [reflexivity | assumption]|]).
  destruct (after_a_drop_the_view_is_the_list MoreSamples.host
              (withState (setDraggedImage (Some "a"%string)) MoreSamples.album)
              "a" "c" (Samples.entry "a" 0 0) (Samples.entry "c" 2 0)
              eq_refl Hne1 Hne2 eq_refl eq_refl) as [_ ->].
  reflexivity.
Defined.

(** *** Drops *)

Lemma handleImageDrop_cases (target : string) (st : State) :
  images (handleImageDrop target st) = images st \/
  exists dragged draggedImg targetImg,
    dragged <> target /\
    find (hasId dragged) (images st) = Some draggedImg /\
    find (hasId target) (images st) = Some targetImg /\
    images (handleImageDrop target st) = reorder dragged target (images st).
Proof.
  unfold handleImageDrop.
  destruct (draggedImage st) as [dragged|]; [|left; reflexivity].
  destruct (String.eqb dragged ""); [left; reflexivity|].
  destruct (String.eqb_spec dragged target) as [|Hne]; [left; reflexivity|].
  cbn [orb images setSortBy setDragOverImage setDraggedImage setImages].
  destruct (find (hasId dragged) (images st)) as [draggedImg|] eqn:Hd.
  - destruct (find (hasId target) (images st)) as [targetImg|] eqn:Ht.
    + right. exists dragged, draggedImg, targetImg. auto.
    + left. unfold reorder. rewrite Hd, Ht. reflexivity.
  - left. unfold reorder. rewrite Hd. reflexivity.
Qed.

Lemma handleImageDrop_perm (target : string) (st : State) :
  unordered <$> images (handleImageDrop target st)
  ≡ₚ unordered <$> images st.
Proof.
  destruct (handleImageDrop_cases target st)
    as [->|(dragged & draggedImg & targetImg & Hne & Hd & Ht & ->)];
    [reflexivity|].
  destruct (ReorderProofs.reorder_shape dragged target (images st)
              draggedImg targetImg Hne Hd Ht)
    as (di & ti & _ & _ & Hdi & _ & _ & ->).
  rewrite ReorderProofs.unordered_imap.
  apply fmap_Permutation.
  rewrite <- Permutation_middle, take_drop.
  symmetry. apply delete_Permutation. exact Hdi.
Qed.

(** X21: whatever is dragged and wherever it is dropped, a drop ends the
    drag and neither loses nor repeats an image: the stored images are
    the same up to their order and their [order] fields. *)
Theorem a_drop_keeps_every_image (target : string) (s : Session) :
  let s' := withState (handleImageDrop target) s in
  unordered <$> images (state s') ≡ₚ unordered <$> images (state s) /\
  draggedImage (state s') = None /\
  dragOverImage (state s') = None.
Proof.
  cbv zeta. unfold withState. cbn [state].
  split; [apply handleImageDrop_perm|].
  unfold handleImageDrop.
  destruct (draggedImage (state s)) as [dragged|]; [|split; reflexivity].
  destruct (String.eqb dragged "" || String.eqb dragged target);
    split; reflexivity.
Qed.

(** *** Converting *)

Lemma sortedImages_nonempty (host : Host) (s : Session) :
  images (state s) <> [] -> sortedImages host s <> [].
Proof.
  intros Hne Hnil.
  assert (Hperm : sortedImages host s ≡ₚ images (state s)).
  { unfold sortedImages. destruct (sortBy (state s)); apply Array_sort_perm. }
  rewrite Hnil in Hperm. apply Permutation_nil_l in Hperm. congruence.
Qed.

(** X22: with at least one image, [convertToPDF] of the page never shows
    an error, even when no image could be processed: the document holds
    the images in the order shown, it is offered for download once, its
    object URL is released, conversion is no longer in progress and the
    success message counts every stored image.  The file is named from
    the template the callback holds, whatever the session has as
    [customFilename] by then. *)
Theorem convertToPDF_always_reports_success
    (env : Converter.Browser) (host : Host) (template : string)
    (s : Session) :
  images (state s) <> [] ->
  let s' := App.convertToPDF env host template s in
  exists blob : Converter.Blob,
    Converter.pdf_pages (Converter.blob_document blob)
    = Spec.converted env (settings s)
        (List.map toImageData (sortedImages host s)) /\
    downloads s'
    = downloads s
      ++ [((generateCustomFilename host template
              (length (images (state s))) ++ ".pdf")%string, blob)] /\
    revoked s' = revoked s ++ [blobURL host blob] /\
    success (state s')
    = Some (converted_message (length (images (state s)))) /\
    error (state s') = None /\
    isConverting s' = false /\
    images (state s') = images (state s).
Proof.
  intros Hne.
  assert (Hsorted : List.map toImageData (sortedImages host s) <> []).
  { intros Hnil. apply map_eq_nil in Hnil.
    exact (sortedImages_nonempty host s Hne Hnil). }
  destruct (LayoutProofs.convertToPDF_run env (settings s) _ (console s) Hsorted)
    as (blob & log' & Hrun & Hpages).
  cbv zeta. exists blob. unfold App.convertToPDF.
  destruct (Nat.eqb_spec (length (images (state s))) 0) as [Hzero|_].
  { apply length_zero_iff_nil in Hzero. congruence. }
  match goal with
  | |- context [Converter.convertImagesToPDF env ?a ?b ?c] =>
      change (Converter.convertImagesToPDF env a b c)
        with (Converter.convertToPDF env (settings s)
                (List.map toImageData (sortedImages host s)) (console s))
  end.
  rewrite Hrun. cbn.
  repeat split; try reflexivity. exact Hpages.
Qed.

Lemma convertToPDF_always_reports_success_witness :
  let s := MoreSamples.album in
  images (state s) <> [] /\
  exists blob : Converter.Blob,
    downloads (App.convertToPDF MoreSamples.gallery MoreSamples.host
                 "scan-{count}-{date}" s)
    = [("scan-3-2026-01-31.pdf"%string, blob)].
Proof.
  cbv zeta.
  assert (Hne : images (state MoreSamples.album) <> []) by discriminate.
  split; [exact Hne|].
  destruct (convertToPDF_always_reports_success MoreSamples.gallery
              MoreSamples.host "scan-{count}-{date}" MoreSamples.album Hne)
    as (blob & _ & Hdown & _).
  exists blob. exact Hdown.
Defined.

(** *** What every handler maintains *)

Lemma wellFormed_unordered (img : ImageFile) :
  wellFormed (unordered img) <-> wellFormed img.
Proof. reflexivity. Qed.

Lemma invariant_perm (l l' : list ImageFile) :
  unordered <$> l' ≡ₚ unordered <$> l ->
  Forall wellFormed l /\ (length l <= 50)%nat ->
  Forall wellFormed l' /\ (length l' <= 50)%nat.
Proof.
  intros Hperm [Hall Hlen]. split.
  - assert (H : Forall wellFormed (unordered <$> l')).
    { rewrite Hperm, Forall_fmap.
      eapply List.Forall_impl; [|exact Hall].
      intros x Hx. apply wellFormed_unordered. exact Hx. }
    rewrite Forall_fmap in H.
    eapply List.Forall_impl; [|exact H].
    intros x Hx. apply wellFormed_unordered. exact Hx.
  - apply Permutation_length in Hperm.
    rewrite !length_fmap in Hperm. lia.
Qed.

Lemma invariant_map (g : ImageFile -> ImageFile) (l : list ImageFile) :
  (forall x, wellFormed x -> wellFormed (g x)) ->
  Forall wellFormed l /\ (length l <= 50)%nat ->
  Forall wellFormed (List.map g l) /\ (length (List.map g l) <= 50)%nat.
Proof.
  intros Hg [Hall Hlen]. split.
  - apply List.Forall_map. eapply List.Forall_impl; [|exact Hall]. exact Hg.
  - rewrite List.length_map. exact Hlen.
Qed.

Lemma invariant_filter (p : ImageFile -> bool) (l : list ImageFile) :
  Forall wellFormed l /\ (length l <= 50)%nat ->
  Forall wellFormed (List.filter p l)
  /\ (length (List.filter p l) <= 50)%nat.
Proof.
  intros [Hall Hlen]. split.
  - apply List.Forall_forall. intros x Hx.
    apply List.filter_In in Hx as [Hx _].
    rewrite List.Forall_forall in Hall. auto.
  - pose proof (List.filter_length_le p l). lia.
Qed.

Lemma newImage_wellFormed (env : Platform) (base index : nat) (f : File) :
  accepted f = true -> wellFormed (newImage env base index f).
Proof.
  unfold accepted, rejectFile, wellFormed, validImage. cbn.
  destruct (String.prefix "image/" (file_type f)); [|discriminate].
  cbn. destruct (Z.ltb_spec (10 * 1024 * 1024) (file_size f));
    [discriminate|].
  intros _. repeat split; lia.
Qed.

Lemma handleFileSelect_invariant (env : Platform)
    (files : option (list File)) (st : State) :
  Forall wellFormed (images st) /\ (length (images st) <= 50)%nat ->
  Forall wellFormed (images (handleFileSelect env files st))
  /\ (length (images (handleFileSelect env files st)) <= 50)%nat.
Proof.
  intros [Hall Hlen]. destruct files as [batch|]; [|split; assumption].
  destruct (Nat.ltb_spec 50 (length (images st) + length batch))
    as [Hover|Hfits].
  - assert (Hsame : images (handleFileSelect env (Some batch) st)
                    = images st).
    { unfold handleFileSelect. cbn [images setError setSuccess].
      apply Nat.ltb_lt in Hover. rewrite Hover. reflexivity. }
    rewrite Hsame. split; assumption.
  - rewrite (handleFileSelect_images env batch st Hfits). split.
    + apply Forall_app. split; [exact Hall|].
      apply Forall_lookup. intros i x Hx.
      apply list_lookup_imap_Some in Hx as (f & Hf & ->).
      apply newImage_wellFormed.
      apply list_elem_of_lookup_2, list_elem_of_In, List.filter_In in Hf.
      tauto.
    + rewrite length_app, length_imap.
      pose proof (List.filter_length_le accepted batch). lia.
Qed.

Lemma convertToPDF_images (env : Converter.Browser) (host : Host)
    (template : string) (s : Session) :
  images (state (App.convertToPDF env host template s)) = images (state s).
Proof.
  unfold App.convertToPDF.
  destruct (length (images (state s)) =? 0)%nat; [reflexivity|].
  cbv zeta.
  match goal with
  | |- context [Converter.convertImagesToPDF env ?a ?b ?c] =>
      destruct (Converter.convertImagesToPDF env a b c) as [[blob|message] log]
  end; reflexivity.
Qed.

Lemma handle_invariant (e : Event) (s : Session) :
  invariant s -> invariant (handle e s).
Proof.
  unfold invariant. intros H.
  destruct e; cbn [handle].
  - apply handleFileSelect_invariant. exact H.
  - apply invariant_map; [|exact H].
    intros x Hx. destruct (String.eqb (id x) imageId); exact Hx.
  - exact H.
  - apply (invariant_filter _ _ H).
  - exact H.
  - apply (invariant_filter _ _ H).
  - exact H.
  - unfold handleImageDragOver.
    destruct (draggedImage (state s)) as [dragged|]; [|exact H].
    destruct (negb (String.eqb dragged "")
              && negb (String.eqb dragged imageId)); exact H.
  - exact H.
  - eapply invariant_perm; [|exact H].
    apply handleImageDrop_perm.
  - apply invariant_map; [|exact H].
    intros x Hx. destruct (String.eqb (id x) imageId); [|exact Hx].
    destruct Hx as (Hv & Hb & Hc & Hr).
    repeat split; try (apply Hv || apply Hb || apply Hc);
      apply (EditingExtras.rem_360 (rotation x + degrees)).
  - apply invariant_map; [|exact H].
    intros x Hx. destruct (String.eqb (id x) imageId); [|exact Hx].
    destruct Hx as (Hv & Hb & Hc & Hr).
    repeat split; try (apply Hv || apply Hc || apply Hr);
      cbn; unfold Editing.clampPercent; lia.
  - apply invariant_map; [|exact H].
    intros x Hx. destruct (String.eqb (id x) imageId); [|exact Hx].
    destruct Hx as (Hv & Hb & Hc & Hr).
    repeat split; try (apply Hv || apply Hb || apply Hr);
      cbn; unfold Editing.clampPercent; lia.
  - exact H.
  - rewrite convertToPDF_images. exact H.
Qed.

(** X23: from the mounted component, whatever the user does, in whatever
    order, the session holds at most 50 images, each of an image type
    and of at most 10 MB, with brightness and contrast from -100 to 100
    and a rotation strictly between -360 and 360. *)
Theorem every_session_keeps_the_limits
    (settings : Converter.PDFSettings) (events : list Event) :
  invariant (run events (initial settings)).
Proof.
  unfold run.
  assert (Hinit : invariant (initial settings)).
  { split; [constructor | simpl; lia]. }
  revert Hinit. generalize (initial settings).
  induction events as [|e rest IH]; intros s Hs; simpl; [exact Hs|].
  apply IH, handle_invariant, Hs.
Qed.

End SessionExtras.
